(** * Prompt Queue: the delivery engine

    A shallow embedding of the two pieces of the extension that carry its
    invariants: the time utilities with the rate-limit message parser
    ([util/time.ts]) and the persistent queue with its scheduler
    ([queue/QueueStore.ts], [queue/QueueProcessor.ts]).

    Conventions of the embedding.
    - A JavaScript string is a [string]; every [ascii] stands for one UTF-16
      code unit below 256.
    - A JavaScript number is an exact rational, or NaN: [number] is
      [option Q], and [None] is NaN.  Integers ([parseInt], time values) are
      kept in [Z].  The arithmetic of doubles is not modelled.
    - A regular expression literal is a term of [RegExp.regex], run by the
      backtracking matcher of the language specification.
    - A [Date] is its time value in milliseconds since the epoch, or the
      invalid date.  Local time is UTC plus the offset of the host's time
      zone, which may change from one instant to another (daylight saving);
      the calendar is the one of the language specification.  A call reads
      the clock once.
    - Code with effects (the Memento, the terminals, the file system, the
      output channel, notifications) threads a [World] through a small
      state-and-exception monad; the world keeps the trace of what the host
      was asked to do. *)

From Stdlib Require Import ZArith QArith Qround String Ascii List Bool Lia.
From Stdlib Require Import DecimalString DecimalNat Lqa Sorted.
From stdpp Require Import gmap strings.
Import ListNotations.

Local Open Scope string_scope.

(* ================================================================== *)
(** * Characters and strings *)

Module Chars.

Definition code (c : ascii) : nat := nat_of_ascii c.

Definition between (lo hi : nat) (c : ascii) : bool :=
  (lo <=? code c)%nat && (code c <=? hi)%nat.

(** [0-9] *)
Definition isDigit (c : ascii) : bool := between 48 57 c.

Definition isUpper (c : ascii) : bool := between 65 90 c.
Definition isLower (c : ascii) : bool := between 97 122 c.

(** WhiteSpace and LineTerminator code units below 256:
    TAB, LF, VT, FF, CR, SP and NBSP. *)
Definition isSpace (c : ascii) : bool :=
  between 9 13 c || (code c =? 32)%nat || (code c =? 160)%nat.

(** The characters of [\w]: letters, digits and the underscore. *)
Definition isWordChar (c : ascii) : bool :=
  isUpper c || isLower c || isDigit c || (code c =? 95)%nat.

(** [toUpperCase] and [toLowerCase] on the unaccented letters.  The patterns
    of this file hold unaccented characters only, and the canonicalisation
    of a case-insensitive match never maps a code unit of 128 or more to one
    below 128, so the accented letters are left alone. *)
Definition toUpper (c : ascii) : ascii :=
  if isLower c then ascii_of_nat (code c - 32) else c.

Definition toLower (c : ascii) : ascii :=
  if isUpper c then ascii_of_nat (code c + 32) else c.

Definition digitValue (c : ascii) : Z := Z.of_nat (code c - 48).

End Chars.

Fixpoint toLowerCase (s : string) : string :=
  match s with
  | EmptyString => EmptyString
  | String c s' => String (Chars.toLower c) (toLowerCase s')
  end.

(** [s.slice(0, n)] for [n >= 0]. *)
Definition slice0 (n : nat) (s : string) : string := substring 0 n s.

(* ================================================================== *)
(** * Regular expressions

    The backtracking matcher of the language specification, for the
    constructs that the seven patterns of [parseRateLimitMessage] use:
    characters, [\d], [\s], [\b], sequence, alternation, greedy quantifiers
    and capturing groups.  A matcher takes a continuation; a failure of the
    continuation makes the matcher try its next choice. *)

Module RegExp.

Inductive regex : Type :=
| Eps
| Chr (c : ascii)
| Digit
| Space
| WordBoundary
| Seq (r1 r2 : regex)
| Alt (r1 r2 : regex)
| Quant (min : nat) (max : option nat) (r : regex)
| Group (n : nat) (r : regex).

(** [r?], [r*], [r+], [r{n}], [r{n,m}], all greedy. *)
Definition Opt (r : regex) : regex := Quant 0 (Some 1%nat) r.
Definition Star (r : regex) : regex := Quant 0 None r.
Definition Plus (r : regex) : regex := Quant 1 None r.
Definition Times (n : nat) (r : regex) : regex := Quant n (Some n) r.
Definition Range (n m : nat) (r : regex) : regex := Quant n (Some m) r.

Fixpoint seq (rs : list regex) : regex :=
  match rs with
  | [] => Eps
  | [r] => r
  | r :: rs' => Seq r (seq rs')
  end.

Fixpoint alt (rs : list regex) : regex :=
  match rs with
  | [] => Eps
  | [r] => r
  | r :: rs' => Alt r (alt rs')
  end.

(** The characters of a literal, in sequence. *)
Fixpoint lit (s : string) : regex :=
  match s with
  | EmptyString => Eps
  | String c EmptyString => Chr c
  | String c s' => Seq (Chr c) (lit s')
  end.

(** The capturing groups inside a pattern (a quantifier resets them at
    each iteration). *)
Fixpoint parens (r : regex) : list nat :=
  match r with
  | Seq r1 r2 | Alt r1 r2 => parens r1 ++ parens r2
  | Quant _ _ r' => parens r'
  | Group n r' => n :: parens r'
  | _ => []
  end.

(** The state of a match: the index reached, the code unit before it, the
    input left, and the captures as index pairs. *)
Record mstate : Type := MState {
  endIndex : nat;
  before : option ascii;
  input : list ascii;
  captures : list (nat * (nat * nat))
}.

Definition cont : Type := mstate -> option mstate.

Definition clear (ns : list nat) (x : mstate) : mstate :=
  MState (endIndex x) (before x) (input x)
         (List.filter (fun p => negb (existsb (Nat.eqb (fst p)) ns)) (captures x)).

Definition setCapture (n : nat) (from : nat) (y : mstate) : mstate :=
  MState (endIndex y) (before y) (input y)
         ((n, (from, endIndex y)) ::
          List.filter (fun p => negb (fst p =? n)%nat) (captures y)).

(** One code unit accepted by [p]. *)
Definition charMatcher (p : ascii -> bool) (c : cont) (x : mstate) : option mstate :=
  match input x with
  | ch :: rest =>
      if p ch then c (MState (S (endIndex x)) (Some ch) rest (captures x)) else None
  | [] => None
  end.

Definition isWordCharAt (o : option ascii) : bool :=
  match o with Some ch => Chars.isWordChar ch | None => false end.

Section Repeat.
Variable m : cont -> cont.
Variable inner : list nat.
Variable c : cont.

(** RepeatMatcher: an iteration that matches the empty string once the
    minimum is reached is rejected, so every further iteration consumes
    input, and [min] plus the length of the input left bounds the
    iterations; [matcher] starts the loop with one more than that
    ([RepeatMatcher_fuel] shows that more fuel changes nothing). *)
Fixpoint RepeatMatcher (fuel min : nat) (max : option nat) (x : mstate)
  : option mstate :=
  match fuel with
  | O => None
  | S fuel' =>
      match max with
      | Some O => c x
      | _ =>
          let d := fun y : mstate =>
            if (min =? 0)%nat && (endIndex y =? endIndex x)%nat then None
            else RepeatMatcher fuel' (Nat.pred min) (option_map Nat.pred max) y in
          let xr := clear inner x in
          if (min =? 0)%nat then
            match m d xr with
            | Some z => Some z
            | None => c x
            end
          else m d xr
      end
  end.
End Repeat.

Section Matcher.
Variable ignoreCase : bool.

Definition Canonicalize (ch : ascii) : ascii :=
  if ignoreCase then Chars.toUpper ch else ch.

Fixpoint matcher (r : regex) (c : cont) (x : mstate) {struct r} : option mstate :=
  match r with
  | Eps => c x
  | Chr a =>
      charMatcher (fun ch => Ascii.eqb (Canonicalize ch) (Canonicalize a)) c x
  | Digit => charMatcher Chars.isDigit c x
  | Space => charMatcher Chars.isSpace c x
  | WordBoundary =>
      if xorb (isWordCharAt (before x)) (isWordCharAt (head (input x)))
      then c x else None
  | Seq r1 r2 => matcher r1 (matcher r2 c) x
  | Alt r1 r2 =>
      match matcher r1 c x with
      | Some z => Some z
      | None => matcher r2 c x
      end
  | Quant min max r' =>
      RepeatMatcher (matcher r') (parens r') c
                    (S (min + List.length (input x))) min max x
  | Group n r' =>
      matcher r' (fun y => c (setCapture n (endIndex x) y)) x
  end.

(** The first index, from [i] on, at which the pattern matches. *)
Fixpoint search (r : regex) (i : nat) (prev : option ascii) (s : list ascii)
  : option (nat * mstate) :=
  match matcher r Some (MState i prev s []) with
  | Some y => Some (i, y)
  | None =>
      match s with
      | [] => None
      | ch :: s' => search r (S i) (Some ch) s'
      end
  end.
End Matcher.

Record RegExp : Type := { source : regex; flag_i : bool }.

(** The array that [String.prototype.match] returns for a pattern without
    the g flag: [matched] is element 0, [group n] is element [n]. *)
Record MatchResult : Type := {
  index : nat;
  matched : string;
  groups : list (nat * string)
}.

Definition group (n : nat) (m : MatchResult) : option string :=
  option_map snd (List.find (fun p => (fst p =? n)%nat) (groups m)).

Definition exec (re : RegExp) (text : string) : option MatchResult :=
  match search (flag_i re) (source re) 0 None (list_ascii_of_string text) with
  | Some (i, y) =>
      Some {| index := i;
              matched := substring i (endIndex y - i) text;
              groups := List.map (fun p =>
                          (fst p, substring (fst (snd p))
                                            (snd (snd p) - fst (snd p)) text))
                          (captures y) |}
  | None => None
  end.

End RegExp.

Import RegExp.

Definition match_ (text : string) (re : RegExp) : option MatchResult := exec re text.

(* ================================================================== *)
(** * Numbers

    A number is an exact rational or NaN.  The parser divides by the
    constants 60, 3600, 10 and 3 600 000 only.  The code computes with
    doubles.  The two agree where the doubles are exact: on the integers
    below 2^53, so on every time value, on the differences of time values
    and on moves by whole hours.  Where the code rounds (5/60, the tenths of
    an hour and their products with 3 600 000) the value here is the exact
    one, and the code's can differ from it in the last place. *)

Definition number : Type := option Q.

Definition num (z : Z) : number := Some (inject_Z z).

Definition lift2 (f : Q -> Q -> Q) (a b : number) : number :=
  match a, b with
  | Some x, Some y => Some (f x y)
  | _, _ => None
  end.

Declare Scope number_scope.
Delimit Scope number_scope with num.
Bind Scope number_scope with number.
Infix "+" := (lift2 Qplus) : number_scope.
Infix "-" := (lift2 Qminus) : number_scope.
Infix "*" := (lift2 Qmult) : number_scope.
Infix "/" := (lift2 Qdiv) : number_scope.

(** [a <= b] on numbers: false as soon as one side is NaN. *)
Definition num_leb (a b : number) : bool :=
  match a, b with
  | Some x, Some y => Qle_bool x y
  | _, _ => false
  end.

(** [Math.round]: the nearest integer, a tie going up. *)
Definition Math_round (a : number) : number :=
  match a with
  | Some x => Some (inject_Z (Qfloor (x + (1 # 2))))
  | None => None
  end.

(** The integer part, toward zero. *)
Definition truncate (x : Q) : Z :=
  if Qle_bool 0 x then Qfloor x else Qceiling x.

(** [ToString] of an argument that may be [undefined]. *)
Definition ToString (o : option string) : string := default "undefined" o.

Fixpoint skipSpace (s : list ascii) : list ascii :=
  match s with
  | c :: s' => if Chars.isSpace c then skipSpace s' else s
  | [] => []
  end.

(** The leading digits of [s] read in base ten, with their count, and the
    rest of [s]. *)
Fixpoint digits (acc : Z) (n : nat) (s : list ascii) : Z * nat * list ascii :=
  match s with
  | c :: s' =>
      if Chars.isDigit c then digits (10 * acc + Chars.digitValue c)%Z (S n) s'
      else (acc, n, s)
  | [] => (acc, n, [])
  end.

Definition sign (s : list ascii) : Z * list ascii :=
  match s with
  | "-"%char :: s' => ((-1)%Z, s')
  | "+"%char :: s' => (1%Z, s')
  | _ => (1%Z, s)
  end.

(** [parseInt(s, 10)]: leading white space, a sign, then the longest run of
    digits; NaN when there is no digit. *)
Definition parseInt (s : string) : option Z :=
  let '(sg, s1) := sign (skipSpace (list_ascii_of_string s)) in
  let '(v, n, _) := digits 0 0 s1 in
  if (n =? 0)%nat then None else Some (sg * v)%Z.

Definition int (o : option Z) : number := option_map inject_Z o.

(** [parseFloat(s)] on decimal literals without exponent: leading white
    space, a sign, digits, and an optional point with digits; NaN when
    there is no digit at all. *)
Definition parseFloat (s : string) : number :=
  let '(sg, s1) := sign (skipSpace (list_ascii_of_string s)) in
  let '(v, n, s2) := digits 0 0 s1 in
  let '(f, k, _) :=
    match s2 with
    | "."%char :: s3 => digits 0 0 s3
    | _ => (0%Z, 0%nat, s2)
    end in
  if (n + k =? 0)%nat then None
  else Some (inject_Z sg * (inject_Z v + inject_Z f / inject_Z (10 ^ Z.of_nat k)))%Q.

(* ================================================================== *)
(** * Dates *)

Inductive Date : Type :=
| TimeValue (t : Z)
| InvalidDate.

Definition msPerDay : Z := 86400000.
Definition msPerHour : Z := 3600000.
Definition msPerMinute : Z := 60000.
Definition msPerSecond : Z := 1000.

Definition maxTime : Z := 8640000000000000.

(** TimeClip on integers, and [new Date(value)] for a number. *)
Definition TimeClip (t : Z) : Date :=
  if (Z.abs t <=? maxTime)%Z then TimeValue t else InvalidDate.

Definition newDate (v : number) : Date :=
  match v with
  | Some x => TimeClip (truncate x)
  | None => InvalidDate
  end.

Definition getTime (d : Date) : option Z :=
  match d with
  | TimeValue t => Some t
  | InvalidDate => None
  end.

(** The civil calendar of the language specification. *)
Definition Day (t : Z) : Z := (t / msPerDay)%Z.
Definition TimeWithinDay (t : Z) : Z := (t mod msPerDay)%Z.

Definition isLeapYear (y : Z) : bool :=
  ((y mod 4 =? 0) && (negb (y mod 100 =? 0) || (y mod 400 =? 0)))%Z.

Definition DayFromYear (y : Z) : Z :=
  (365 * (y - 1970) + (y - 1969) / 4 - (y - 1901) / 100 + (y - 1601) / 400)%Z.

(** The largest year that starts on or before day [d]: an estimate from the
    mean length of a year, moved by one where needed. *)
Definition YearFromDay (d : Z) : Z :=
  let y := (1970 + d * 400 / 146097)%Z in
  if (d <? DayFromYear y)%Z then (y - 1)%Z
  else if (DayFromYear (y + 1) <=? d)%Z then (y + 1)%Z
  else y.

Definition YearFromTime (t : Z) : Z := YearFromDay (Day t).

Definition DayWithinYear (t : Z) : Z := (Day t - DayFromYear (YearFromTime t))%Z.

(** The day of the year on which month [m] (0 to 11) starts. *)
Definition monthStart (leap : bool) (m : Z) : Z :=
  let l := if leap then 1%Z else 0%Z in
  match m with
  | 0 => 0 | 1 => 31 | 2 => 59 + l | 3 => 90 + l | 4 => 120 + l
  | 5 => 151 + l | 6 => 181 + l | 7 => 212 + l | 8 => 243 + l
  | 9 => 273 + l | 10 => 304 + l | _ => 334 + l
  end%Z.

Definition MonthFromTime (t : Z) : Z :=
  let leap := isLeapYear (YearFromTime t) in
  let d := DayWithinYear t in
  if (d <? monthStart leap 1)%Z then 0
  else if (d <? monthStart leap 2)%Z then 1
  else if (d <? monthStart leap 3)%Z then 2
  else if (d <? monthStart leap 4)%Z then 3
  else if (d <? monthStart leap 5)%Z then 4
  else if (d <? monthStart leap 6)%Z then 5
  else if (d <? monthStart leap 7)%Z then 6
  else if (d <? monthStart leap 8)%Z then 7
  else if (d <? monthStart leap 9)%Z then 8
  else if (d <? monthStart leap 10)%Z then 9
  else if (d <? monthStart leap 11)%Z then 10
  else 11.

Definition DateFromTime (t : Z) : Z :=
  (DayWithinYear t + 1
   - monthStart (isLeapYear (YearFromTime t)) (MonthFromTime t))%Z.

Definition MakeTime (hour min sec ms : Z) : Z :=
  (hour * msPerHour + min * msPerMinute + sec * msPerSecond + ms)%Z.

Definition MakeDay (year month date : Z) : Z :=
  let ym := (year + month / 12)%Z in
  let mn := (month mod 12)%Z in
  (DayFromYear ym + monthStart (isLeapYear ym) mn + date - 1)%Z.

Definition MakeDate (day time : Z) : Z := (day * msPerDay + time)%Z.

(** The clock of the host: the current time, and the offset of local time
    from UTC, in milliseconds.  The offset is the [LocalTZA(t, isUTC)] of the
    language specification: at the instant [t] when [isUTC] is true, and at
    the local time value [t] when it is false, where a time that the zone
    skips or repeats is read with the offset before the change. *)
Record Clock : Type := {
  timeNow : Z;
  LocalTZA : Z -> bool -> Z
}.

Section LocalTime.
Variable clk : Clock.

Definition LocalTime (t : Z) : Z := (t + LocalTZA clk t true)%Z.
Definition UTC (t : Z) : Z := (t - LocalTZA clk t false)%Z.

(** [new Date()] and [Date.now()]. *)
Definition Date_now : Z := timeNow clk.
Definition newDateNow : Date := TimeValue (timeNow clk).

Definition getFullYear (d : Date) : option Z :=
  option_map (fun t => YearFromTime (LocalTime t)) (getTime d).
Definition getMonth (d : Date) : option Z :=
  option_map (fun t => MonthFromTime (LocalTime t)) (getTime d).
Definition getDate (d : Date) : option Z :=
  option_map (fun t => DateFromTime (LocalTime t)) (getTime d).
Definition getHours (d : Date) : option Z :=
  option_map (fun t => (TimeWithinDay (LocalTime t) / msPerHour)%Z) (getTime d).
Definition getMinutes (d : Date) : option Z :=
  option_map (fun t => ((TimeWithinDay (LocalTime t) / msPerMinute) mod 60)%Z)
             (getTime d).

(** [d.setHours(hour, min, sec, ms)] with integer arguments. *)
Definition setHours (d : Date) (hour min sec ms : Z) : Date :=
  match d with
  | TimeValue t =>
      TimeClip (UTC (MakeDate (Day (LocalTime t)) (MakeTime hour min sec ms)))
  | InvalidDate => InvalidDate
  end.

(** [d.setDate(date)]; [date] is NaN when it comes from an invalid date. *)
Definition setDate (d : Date) (date : option Z) : Date :=
  match d, date with
  | TimeValue t0, Some dt =>
      let t := LocalTime t0 in
      TimeClip (UTC (MakeDate (MakeDay (YearFromTime t) (MonthFromTime t) dt)
                              (TimeWithinDay t)))
  | _, _ => InvalidDate
  end.
End LocalTime.

(** [util/time.ts] *)

(** [n.toString()] for an integer or NaN. *)
Definition Number_toString (n : option Z) : string :=
  match n with
  | Some z => NilEmpty.string_of_int (Z.to_int z)
  | None => "NaN"
  end.

(** [s.padStart(2, '0')] *)
Definition padStart2 (s : string) : string :=
  match String.length s with
  | O => "00"
  | S O => "0" ++ s
  | _ => s
  end.

(** Pad a number to 2 digits. *)
Definition pad2 (n : option Z) : string := padStart2 (Number_toString n).

Section Formatting.
Variable clk : Clock.

(** Format a Date as "YYYYMMDD_HHMM" (used for filenames). *)
Definition formatTimestamp (date : Date) : string :=
  let y := getFullYear clk date in
  let mo := pad2 (option_map (Z.add 1) (getMonth clk date)) in
  let d := pad2 (getDate clk date) in
  let h := pad2 (getHours clk date) in
  let mi := pad2 (getMinutes clk date) in
  Number_toString y ++ mo ++ d ++ "_" ++ h ++ mi.

(** Format a Date as "YYYY-MM-DD HH:mm" for human-readable display. *)
Definition formatDisplayTime (date : Date) : string :=
  let y := getFullYear clk date in
  let mo := pad2 (option_map (Z.add 1) (getMonth clk date)) in
  let d := pad2 (getDate clk date) in
  let h := pad2 (getHours clk date) in
  let mi := pad2 (getMinutes clk date) in
  Number_toString y ++ "-" ++ mo ++ "-" ++ d ++ " " ++ h ++ ":" ++ mi.

(** Format a Date as "YYYY-MM-DD" for API date parameters. *)
Definition formatDateParam (date : Date) : string :=
  let y := getFullYear clk date in
  let mo := pad2 (option_map (Z.add 1) (getMonth clk date)) in
  let d := pad2 (getDate clk date) in
  Number_toString y ++ "-" ++ mo ++ "-" ++ d.
End Formatting.

Definition addHours (base : Date) (hours : number) : Date :=
  newDate (int (getTime base) + hours * num 3600000)%num.

Definition getWindowStart5h (now : Date) : Date :=
  newDate (int (getTime now) - num 5 * num 3600000)%num.

Definition getWindowStart7d (now : Date) : Date :=
  newDate (int (getTime now) - num 7 * num 24 * num 3600000)%num.

(** Returns true if [notBefore] is in the past (or exactly now). *)
Definition isOverdue (notBefore now : Date) : bool :=
  num_leb (int (getTime notBefore)) (int (getTime now)).

(* ================================================================== *)
(** * The rate-limit message parser *)

Inductive Confidence : Type := high | medium | low.

Record RateLimitInfo : Type := {
  (** Delay in hours (with a small buffer already added). *)
  delayHours : number;
  (** Computed absolute reset time, if we could determine it. *)
  resetAt : option Date;
  (** Portion of the input that matched. *)
  rawMatch : string;
  (** How confident we are in the parse. *)
  confidence : Confidence
}.

(** [{ ...info, confidence: c }] *)
Definition withConfidence (info : RateLimitInfo) (c : Confidence) : RateLimitInfo :=
  {| delayHours := delayHours info;
     resetAt := resetAt info;
     rawMatch := rawMatch info;
     confidence := c |}.

Module Patterns.

(** [(\d{1,2}):(\d{2})(?::(\d{2}))?\s*(am|pm)?] *)
Definition clockTime : list regex :=
  [ Group 1 (Range 1 2 Digit); Chr ":"; Group 2 (Times 2 Digit);
    Opt (Seq (Chr ":") (Group 3 (Times 2 Digit)));
    Star Space;
    Opt (Group 4 (Alt (lit "am") (lit "pm"))) ].

(** [/(?:reset(?:s)?|available|try\s+again|retry)\s+at\s+(\d{1,2}):(\d{2})(?::(\d{2}))?\s*(am|pm)?/i] *)
Definition absReset : RegExp :=
  {| source :=
       seq ([ alt [ Seq (lit "reset") (Opt (lit "s"));
                    lit "available";
                    seq [lit "try"; Plus Space; lit "again"];
                    lit "retry" ];
              Plus Space; lit "at"; Plus Space ] ++ clockTime);
     flag_i := true |}.

(** [/\bat\s+(\d{1,2}):(\d{2})(?::(\d{2}))?\s*(am|pm)?/i] *)
Definition atTime : RegExp :=
  {| source := seq ([ WordBoundary; lit "at"; Plus Space ] ++ clockTime);
     flag_i := true |}.

(** [h(?:ours?)?] *)
Definition hoursUnit : regex :=
  Seq (Chr "h") (Opt (Seq (lit "our") (Opt (Chr "s")))).

(** [m(?:in(?:utes?)?)?] *)
Definition minutesUnit : regex :=
  Seq (Chr "m") (Opt (Seq (lit "in") (Opt (Seq (lit "ute") (Opt (Chr "s")))))).

(** [s(?:ec(?:onds?)?)?] *)
Definition secondsUnit : regex :=
  Seq (Chr "s") (Opt (Seq (lit "ec") (Opt (Seq (lit "ond") (Opt (Chr "s")))))).

(** [(?:in|after|for)] *)
Definition preposition : regex := alt [lit "in"; lit "after"; lit "for"].

(** [\d+(?:\.\d+)?] *)
Definition decimal : regex := Seq (Plus Digit) (Opt (Seq (Chr ".") (Plus Digit))).

(** [/(\d+)\s*h(?:ours?)?\s+(\d+)\s*m(?:in(?:utes?)?)?/i] *)
Definition combined : RegExp :=
  {| source := seq [ Group 1 (Plus Digit); Star Space; hoursUnit; Plus Space;
                     Group 2 (Plus Digit); Star Space; minutesUnit ];
     flag_i := true |}.

(** [/(?:in|after|for)\s+(\d+(?:\.\d+)?)\s*h(?:ours?)?/i] *)
Definition hoursOnly : RegExp :=
  {| source := seq [ preposition; Plus Space; Group 1 decimal; Star Space; hoursUnit ];
     flag_i := true |}.

(** [/(\d+(?:\.\d+)?)\s*hours?/i] *)
Definition bareHours : RegExp :=
  {| source := seq [ Group 1 decimal; Star Space; lit "hour"; Opt (Chr "s") ];
     flag_i := true |}.

(** [/(?:in|after|for)\s+(\d+(?:\.\d+)?)\s*m(?:in(?:utes?)?)?/i] *)
Definition minutesOnly : RegExp :=
  {| source := seq [ preposition; Plus Space; Group 1 decimal; Star Space; minutesUnit ];
     flag_i := true |}.

(** [/(?:in|after|for)\s+(\d+)\s*s(?:ec(?:onds?)?)?/i] *)
Definition secondsOnly : RegExp :=
  {| source := seq [ preposition; Plus Space; Group 1 (Plus Digit); Star Space;
                     secondsUnit ];
     flag_i := true |}.

End Patterns.

(** Add a 5-minute safety buffer and round to 1 decimal. *)
Definition addBuffer (hours : number) : number :=
  (Math_round ((hours + num 5 / num 60) * num 10) / num 10)%num.

Section Parser.
Variable clk : Clock.

(** The block [if (ampm) { ... }] of [parseAbsoluteTime]: the hour on the
    24-hour clock. *)
Definition to24h (hour : Z) (ampm : option string) : Z :=
  match ampm with
  | Some a =>
      if negb (String.eqb a EmptyString) then
        let h := if String.eqb (toLowerCase a) "pm" && negb (hour =? 12)%Z
                 then (hour + 12)%Z else hour in
        if String.eqb (toLowerCase a) "am" && (h =? 12)%Z then 0%Z else h
      else hour
  | None => hour
  end.

Definition parseAbsoluteTime (hourStr minuteStr : string) (ampm : option string)
           (rawText : string) : option RateLimitInfo :=
  match parseInt hourStr, parseInt minuteStr with
  | Some hour0, Some minute =>
      let hour := to24h hour0 ampm in
      let now := newDateNow clk in
      let resetAt0 := setHours clk now hour minute 0 0 in
      (* If the time is in the past (today), assume it's tomorrow *)
      let resetAt1 :=
        if num_leb (int (getTime resetAt0)) (int (getTime now))
        then setDate clk resetAt0 (option_map (Z.add 1) (getDate clk resetAt0))
        else resetAt0 in
      let rawHours := ((int (getTime resetAt1) - int (getTime now)) / num 3600000)%num in
      let delayHours := addBuffer rawHours in
      Some {| delayHours := delayHours;
              resetAt := Some resetAt1;
              rawMatch := slice0 80 rawText;
              confidence := high |}
  | _, _ => None
  end.

(** The result of a relative duration of [total] hours. *)
Definition relative (total : number) (raw : string) (c : Confidence) : RateLimitInfo :=
  let delayHours := addBuffer total in
  let resetAt := newDate (num (Date_now clk) + delayHours * num 3600000)%num in
  {| delayHours := delayHours; resetAt := Some resetAt; rawMatch := raw;
     confidence := c |}.

(** The matchers of [parseRateLimitMessage], one per pattern, in the order
    of the source.  Each returns [None] when its pattern does not match (or,
    for the absolute times, when [parseAbsoluteTime] gives up). *)
Definition tryAbsReset (text : string) : option RateLimitInfo :=
  match match_ text Patterns.absReset with
  | Some m => parseAbsoluteTime (ToString (group 1 m)) (ToString (group 2 m))
                                (group 4 m) text
  | None => None
  end.

Definition tryAtTime (text : string) : option RateLimitInfo :=
  match match_ text Patterns.atTime with
  | Some m =>
      match parseAbsoluteTime (ToString (group 1 m)) (ToString (group 2 m))
                              (group 4 m) text with
      | Some info => Some (withConfidence info medium)
      | None => None
      end
  | None => None
  end.

Definition tryCombined (text : string) : option RateLimitInfo :=
  match match_ text Patterns.combined with
  | Some m =>
      let h := int (parseInt (ToString (group 1 m))) in
      let mi := int (parseInt (ToString (group 2 m))) in
      let total := (h + mi / num 60)%num in
      Some (relative total (matched m) high)
  | None => None
  end.

Definition tryHoursOnly (text : string) : option RateLimitInfo :=
  match match_ text Patterns.hoursOnly with
  | Some m =>
      let total := parseFloat (ToString (group 1 m)) in
      Some (relative total (matched m) high)
  | None => None
  end.

Definition tryBareHours (text : string) : option RateLimitInfo :=
  match match_ text Patterns.bareHours with
  | Some m =>
      let total := parseFloat (ToString (group 1 m)) in
      Some (relative total (matched m) medium)
  | None => None
  end.

Definition tryMinutesOnly (text : string) : option RateLimitInfo :=
  match match_ text Patterns.minutesOnly with
  | Some m =>
      let total := (parseFloat (ToString (group 1 m)) / num 60)%num in
      Some (relative total (matched m) high)
  | None => None
  end.

Definition trySecondsOnly (text : string) : option RateLimitInfo :=
  match match_ text Patterns.secondsOnly with
  | Some m =>
      let total := (int (parseInt (ToString (group 1 m))) / num 3600)%num in
      Some (relative total (matched m) medium)
  | None => None
  end.

(** [a ?? b] on results: the first that is defined. *)
Definition orElse {A : Type} (a b : option A) : option A :=
  match a with Some _ => a | None => b end.

Definition parseRateLimitMessage (text : string) : option RateLimitInfo :=
  orElse (tryAbsReset text)
 (orElse (tryAtTime text)
 (orElse (tryCombined text)
 (orElse (tryHoursOnly text)
 (orElse (tryBareHours text)
 (orElse (tryMinutesOnly text)
         (trySecondsOnly text)))))).

(** Legacy shim: returns just the hours number,
    [parseRateLimitMessage(text)?.delayHours]. *)
Definition parseRateLimitDelay (text : string) : option number :=
  match parseRateLimitMessage text with
  | Some info => Some (delayHours info)
  | None => None
  end.
End Parser.

(* ================================================================== *)
(** * The queue store ([queue/QueueStore.ts]) *)

(** A queue item.  The source keeps [createdAt] and [notBefore] as ISO 8601
    strings and reads them back with [new Date(...)]; the embedding keeps the
    date that the string denotes.  [targetTerminalName] is the optional hint
    that the processor reads. *)
Record QueueItem : Type := {
  id : string;
  createdAt : Date;
  notBefore : Date;
  promptText : string;
  workspaceFolder : string;
  targetTerminalName : option string;
  processed : bool
}.

(** [{ ...i, processed: true }] *)
Definition setProcessed (i : QueueItem) : QueueItem :=
  {| id := id i; createdAt := createdAt i; notBefore := notBefore i;
     promptText := promptText i; workspaceFolder := workspaceFolder i;
     targetTerminalName := targetTerminalName i; processed := true |}.

Definition STORAGE_KEY : string := "promptQueue.items".

(** [vscode.Memento], restricted to the values the store keeps in it. *)
Module Memento.
Definition get (state : gmap string (list QueueItem)) (key : string)
           (defaultValue : list QueueItem) : list QueueItem :=
  default defaultValue (state !! key).

Definition update (state : gmap string (list QueueItem)) (key : string)
           (value : list QueueItem) : gmap string (list QueueItem) :=
  <[key := value]> state.
End Memento.

Module QueueStore.
Section Store.
Variable state : gmap string (list QueueItem).

(** Return all items (including processed ones). *)
Definition getAll : list QueueItem := Memento.get state STORAGE_KEY [].

(** Return only pending (not yet processed) items. *)
Definition getPending : list QueueItem :=
  List.filter (fun i => negb (processed i)) getAll.

(** Add a new item to the queue. *)
Definition add (item : QueueItem) : gmap string (list QueueItem) :=
  Memento.update state STORAGE_KEY (getAll ++ [item]).

(** Mark an item as processed by id. *)
Definition markProcessed (id0 : string) : gmap string (list QueueItem) :=
  let items := List.map (fun i => if String.eqb (id i) id0 then setProcessed i else i)
                        getAll in
  Memento.update state STORAGE_KEY items.

(** Remove an item entirely (e.g. user-initiated delete). *)
Definition remove (id0 : string) : gmap string (list QueueItem) :=
  let items := List.filter (fun i => negb (String.eqb (id i) id0)) getAll in
  Memento.update state STORAGE_KEY items.

(** Purge all processed items (housekeeping). *)
Definition purgeProcessed : gmap string (list QueueItem) :=
  let items := List.filter (fun i => negb (processed i)) getAll in
  Memento.update state STORAGE_KEY items.

(** Clear everything (debug / test). *)
Definition clear : gmap string (list QueueItem) :=
  Memento.update state STORAGE_KEY [].
End Store.
End QueueStore.

(* ================================================================== *)
(** * The host and the effects of the processor *)

Record Terminal : Type := {
  terminalId : nat;
  terminalName : string
}.

(** What the processor asks of the host, in the order of the calls.
    [DeliverCall] marks the entry into [deliver]: one delivery attempt. *)
Inductive Effect : Type :=
| AppendLine (line : string)
| ShowErrorMessage (message : string)
| ShowInformationMessage (message : string)
| TerminalShow (t : Terminal) (preserveFocus : bool)
| TerminalSendText (t : Terminal) (text : string) (addNewLine : bool)
| WriteFileSync (path data : string)
| CreateTerminal (t : Terminal) (cwd : string)
| Fire
| DeliverCall (item : QueueItem).

Record World : Type := {
  globalState : gmap string (list QueueItem);
  clock : Clock;
  terminals : list Terminal;
  activeTerminal : option Terminal;
  workspaceFolders : option (list string);
  tmpdir : string;
  homedir : string;
  (** The error with which [fs.writeFileSync] fails on a path, if it does. *)
  writeError : string -> option string;
  effects : list Effect
}.

Inductive Result (A : Type) : Type :=
| Ok (a : A)
| Throw (err : string).
Arguments Ok {A} a.
Arguments Throw {A} err.

(** A computation that runs on the host: it returns or throws, and leaves a
    new world. *)
Definition M (A : Type) : Type := World -> Result A * World.

Definition ret {A : Type} (a : A) : M A := fun w => (Ok a, w).

Definition bind {A B : Type} (m : M A) (k : A -> M B) : M B :=
  fun w =>
    match m w with
    | (Ok a, w') => k a w'
    | (Throw err, w') => (Throw err, w')
    end.

Notation "'let!' x ':=' m 'in' k" := (bind m (fun x => k))
  (at level 10, x name, m at level 100, k at level 200).
Notation "m >> k" := (bind m (fun _ => k))
  (at level 90, right associativity).

Definition throw {A : Type} (err : string) : M A := fun w => (Throw err, w).

(** [try { body } catch (err) { handler }] *)
Definition tryCatch (body : M unit) (handler : string -> M unit) : M unit :=
  fun w =>
    match body w with
    | (Ok a, w') => (Ok a, w')
    | (Throw err, w') => handler err w'
    end.

(** [for (const x of xs) { body }] *)
Fixpoint forOf {A : Type} (xs : list A) (body : A -> M unit) : M unit :=
  match xs with
  | [] => ret tt
  | x :: xs' => body x >> forOf xs' body
  end.

Definition gets {A : Type} (f : World -> A) : M A := fun w => (Ok (f w), w).

Definition emit (e : Effect) : M unit :=
  fun w =>
    (Ok tt,
     {| globalState := globalState w; clock := clock w; terminals := terminals w;
        activeTerminal := activeTerminal w; workspaceFolders := workspaceFolders w;
        tmpdir := tmpdir w; homedir := homedir w; writeError := writeError w;
        effects := effects w ++ [e] |}).

(** [await this.state.update(...)] through one of the store's methods. *)
Definition updateStore (f : gmap string (list QueueItem) -> gmap string (list QueueItem))
  : M unit :=
  fun w =>
    (Ok tt,
     {| globalState := f (globalState w); clock := clock w; terminals := terminals w;
        activeTerminal := activeTerminal w; workspaceFolders := workspaceFolders w;
        tmpdir := tmpdir w; homedir := homedir w; writeError := writeError w;
        effects := effects w |}).

Definition appendLine (line : string) : M unit := emit (AppendLine line).
Definition showErrorMessage (msg : string) : M unit := emit (ShowErrorMessage msg).
Definition showInformationMessage (msg : string) : M unit :=
  emit (ShowInformationMessage msg).
Definition show (t : Terminal) (preserveFocus : bool) : M unit :=
  emit (TerminalShow t preserveFocus).
Definition sendText (t : Terminal) (text : string) (addNewLine : bool) : M unit :=
  emit (TerminalSendText t text addNewLine).
Definition fire : M unit := emit Fire.

(** [fs.writeFileSync(path, data, 'utf8')] *)
Definition writeFileSync (path data : string) : M unit :=
  fun w =>
    match writeError w path with
    | Some err => (Throw err, w)
    | None => emit (WriteFileSync path data) w
    end.

(** [vscode.window.createTerminal({ name, cwd })]: a new terminal at the end
    of [vscode.window.terminals]. *)
Definition createTerminal (name cwd : string) : M Terminal :=
  fun w =>
    let t := {| terminalId := S (list_max (List.map terminalId (terminals w)));
                terminalName := name |} in
    (Ok t,
     {| globalState := globalState w; clock := clock w;
        terminals := terminals w ++ [t];
        activeTerminal := activeTerminal w; workspaceFolders := workspaceFolders w;
        tmpdir := tmpdir w; homedir := homedir w; writeError := writeError w;
        effects := effects w ++ [CreateTerminal t cwd] |}).

(** The delivery attempts recorded in a trace, oldest first. *)
Fixpoint attempts (es : list Effect) : list QueueItem :=
  match es with
  | [] => []
  | DeliverCall item :: es' => item :: attempts es'
  | _ :: es' => attempts es'
  end.

(** The call of a delivery method, recorded as an attempt. *)
Definition call (deliver : QueueItem -> M unit) (item : QueueItem) : M unit :=
  emit (DeliverCall item) >> deliver item.

(** String helpers of the processor. *)
Definition quote : string := String (ascii_of_nat 34) EmptyString.
Definition CR : string := String (ascii_of_nat 13) EmptyString.
Definition ESC : ascii := ascii_of_nat 27.

Definition showNat (n : nat) : string := NilEmpty.string_of_uint (Nat.to_uint n).

(** [s.replace(/\x1b/g, '')] *)
Fixpoint stripEsc (s : string) : string :=
  match s with
  | EmptyString => EmptyString
  | String c s' => if Ascii.eqb c ESC then stripEsc s' else String c (stripEsc s')
  end.

(** [hay.includes(needle)] *)
Fixpoint includes (needle hay : string) : bool :=
  String.prefix needle hay ||
  match hay with
  | EmptyString => false
  | String _ hay' => includes needle hay'
  end.

(** [path.join(dir, file)] for a directory and a file name. *)
Definition path_join (dir file : string) : string := dir ++ "/" ++ file.

(* ================================================================== *)
(** * The queue processor ([queue/QueueProcessor.ts])

    The processor that sends a prompt to a Claude terminal and removes the
    delivered item from the queue. *)

Module QueueProcessor.

(** Find the terminal to deliver to.
    Priority:
     1. Terminal whose name matches the hint recorded at queue time.
     2. Terminal named exactly 'Claude' (created by a previous delivery).
     3. Any terminal whose name contains 'claude' (case-insensitive).
     4. The currently active terminal. *)
Definition findClaudeTerminal (hint : option string) : M (option Terminal) :=
  let! ts := gets terminals in
  let! active := gets activeTerminal in
  let byHint :=
    match hint with
    | Some h =>
        if negb (String.eqb h EmptyString)
        then List.find (fun t => String.eqb (terminalName t) h) ts
        else None
    | None => None
    end in
  match byHint with
  | Some t => ret (Some t)
  | None =>
      ret (orElse (List.find (fun t => String.eqb (terminalName t) "Claude") ts)
          (orElse (List.find (fun t => includes "claude" (toLowerCase (terminalName t))) ts)
                  active))
  end.

Definition resolveWorkspaceFolder (item : QueueItem) : M (option string) :=
  let! folders := gets workspaceFolders in
  match folders with
  | None | Some [] => ret None
  | Some (first :: rest) =>
      (* Try to match the stored workspace folder path *)
      let found :=
        if negb (String.eqb (workspaceFolder item) EmptyString)
        then List.find (fun f => String.eqb f (workspaceFolder item)) (first :: rest)
        else None in
      (* Fallback to first available folder *)
      ret (Some (default first found))
  end.

Definition deliver (item : QueueItem) : M unit :=
  let! existing := findClaudeTerminal (targetTerminalName item) in
  match existing with
  | Some t =>
      (* Send directly to the existing Claude Code session. *)
      appendLine ("[QueueProcessor] Sending to existing terminal " ++ quote
                  ++ terminalName t ++ quote) >>
      show t true >>
      (* Strip ESC chars. *)
      let safe := stripEsc (promptText item) in
      sendText t safe false >>
      sendText t CR false
  | None =>
      (* No Claude terminal found: create one and launch Claude Code CLI. *)
      appendLine "[QueueProcessor] No Claude terminal found, creating new session" >>
      let! folder := resolveWorkspaceFolder item in
      let! home := gets homedir in
      let cwd := default home folder in
      let! tmp := gets tmpdir in
      let tmpFile := path_join tmp ("cq-" ++ id item ++ ".txt") in
      writeFileSync tmpFile (promptText item) >>
      let! terminal := createTerminal "Claude" cwd in
      show terminal true >>
      sendText terminal ("claude " ++ quote ++ "$(cat '" ++ tmpFile ++ "')" ++ quote
                         ++ " ; rm -f '" ++ tmpFile ++ "'") true
  end >>
  (* Remove from queue (not just mark processed). *)
  updateStore (fun st => QueueStore.remove st (id item)) >>
  appendLine ("[QueueProcessor] Delivered " ++ id item) >>
  showInformationMessage ("PromptQueue: Prompt sent to Claude  [id: " ++ id item ++ "]").

(** The due items of a tick: [getPending()] filtered by [isOverdue]. *)
Definition dueItems (w : World) : list QueueItem :=
  List.filter (fun i => isOverdue (notBefore i) (newDateNow (clock w)))
              (QueueStore.getPending (globalState w)).

(** The [catch (err)] block of the loop of [process]. *)
Definition deliveryFailed (item : QueueItem) (err : string) : M unit :=
  appendLine ("[QueueProcessor] Error delivering " ++ id item ++ ": " ++ err) >>
  showErrorMessage ("PromptQueue: failed to deliver prompt " ++ id item
                    ++ ": " ++ err).

(** Process all due items immediately. Returns number of items delivered. *)
Definition process : M nat :=
  let! pending := gets (fun w => QueueStore.getPending (globalState w)) in
  let! now := gets (fun w => newDateNow (clock w)) in
  let due := List.filter (fun i => isOverdue (notBefore i) now) pending in
  appendLine ("[QueueProcessor] Tick: " ++ showNat (List.length pending)
              ++ " pending, " ++ showNat (List.length due) ++ " overdue") >>
  if (List.length due =? 0)%nat then ret 0%nat
  else
    forOf due (fun item => tryCatch (call deliver item) (deliveryFailed item)) >>
    fire >>
    ret (List.length due).

(** Force-deliver a specific item immediately, regardless of its notBefore
    time. *)
Definition forceDeliver (id0 : string) : M unit :=
  let! all := gets (fun w => QueueStore.getAll (globalState w)) in
  match List.find (fun i => String.eqb (id i) id0 && negb (processed i)) all with
  | None => ret tt
  | Some item =>
      tryCatch (call deliver item)
        (fun err =>
           appendLine ("[QueueProcessor] Error force-delivering " ++ id0 ++ ": " ++ err) >>
           showErrorMessage ("PromptQueue: failed to deliver " ++ id0 ++ ": " ++ err)) >>
      fire
  end.

End QueueProcessor.

(* ================================================================== *)
(** * The local usage estimate ([usage/LocalEstimateProvider.ts]) *)

Module LocalEstimateProvider.

Record TokenUsage : Type := {
  tokensLast5h : Z;
  tokensLast7d : Z;
  lastUpdated : Date;
  error : option string
}.

(** Rough token estimate: 1 token is about 4 chars,
    [Math.ceil(text.length / 4)]. *)
Definition estimateTokens (text : string) : Z :=
  Qceiling (inject_Z (Z.of_nat (String.length text)) / 4).

(** [a >= b] on time values: false as soon as one side is NaN. *)
Definition num_geb (a b : option Z) : bool := num_leb (int b) (int a).

(** One turn of the loop over the pending items, on the two sums. *)
Definition addItem (start5h start7d : Date) (sums : Z * Z) (item : QueueItem) : Z * Z :=
  let createdAt := getTime (createdAt item) in
  let tokens := estimateTokens (promptText item) in
  let tokens7d := if num_geb createdAt (getTime start7d)
                  then (snd sums + tokens)%Z else snd sums in
  let tokens5h := if num_geb createdAt (getTime start5h)
                  then (fst sums + tokens)%Z else fst sums in
  (tokens5h, tokens7d).

Definition fetchUsage (clk : Clock) (state : gmap string (list QueueItem)) : TokenUsage :=
  let now := newDateNow clk in
  let start5h := getWindowStart5h now in
  let start7d := getWindowStart7d now in
  let pending := QueueStore.getPending state in
  let sums := List.fold_left (addItem start5h start7d) pending (0%Z, 0%Z) in
  {| tokensLast5h := fst sums;
     tokensLast7d := snd sums;
     lastUpdated := newDateNow clk;
     error := if (List.length pending =? 0)%nat
              then Some ("No API keys configured. Configure OpenAI or Anthropic keys "
                         ++ "for accurate usage data.")
              else None |}.

End LocalEstimateProvider.

(* ================================================================== *)
(** * Files ([util/fs.ts])

    The file system of the workspace is a finite map from the path of a Uri
    to the type of the file there, the number that [stat] reports:
    1 for a file, 2 for a directory, 64 more for a symbolic link.  [stat]
    fails on a path outside the map, with the code FileNotFound.  Paths are
    absolute and normalised, their segments separated by one slash, as
    [Uri.joinPath] gives them. *)

Module Fs.

Definition Directory : N := 2.
Definition File : N := 1.

(** The directories above a path, the outermost first: "/w/a/b" lies in
    "/w" and in "/w/a".  The root is not listed: it always exists. *)
Fixpoint parentsFrom (seen : string) (rest : list ascii) : list string :=
  match rest with
  | [] => []
  | c :: rest' =>
      ((if Ascii.eqb c "/"%char && negb (String.eqb seen EmptyString)
        then [seen] else [])
       ++ parentsFrom (seen ++ String c EmptyString) rest')%list
  end.

Definition parents (uri : string) : list string :=
  parentsFrom EmptyString (list_ascii_of_string uri).

(** A type that can be walked through: a directory, or a link to one. *)
Definition isDirectory (type : N) : bool := N.testbit type 1.

(** Some directory above the path is there and is not a directory. *)
Definition blocked (files : gmap string N) (uri : string) : bool :=
  List.existsb (fun p => match files !! p with
                         | Some type => negb (isDirectory type)
                         | None => false
                         end) (parents uri).

(** [vscode.workspace.fs.stat(uri)]: the type of the file, or an error with
    its code.  Below a file the code is not FileNotFound; a host that
    reports FileNotFound there fails in [createDirectory] instead, which
    checks the same. *)
Definition stat (files : gmap string N) (uri : string) : Result N :=
  if blocked files uri then Throw "FileNotADirectory"
  else match files !! uri with
       | Some type => Ok type
       | None => Throw "FileNotFound"
       end.

(** The directories of a list that are missing, created in turn. *)
Definition mkdirs (paths : list string) (files : gmap string N) : gmap string N :=
  List.fold_left (fun fs p => match fs !! p with
                              | Some _ => fs
                              | None => <[p := Directory]> fs
                              end) paths files.

(** [vscode.workspace.fs.createDirectory(uri)]: the directory is created with
    every directory above it that is missing; under a file, or on a file,
    nothing is created. *)
Definition createDirectory (uri : string) (files : gmap string N)
  : Result unit * gmap string N :=
  if blocked files uri then (Throw "FileNotADirectory", files)
  else match files !! uri with
       | Some type =>
           if isDirectory type then (Ok tt, files) else (Throw "FileExists", files)
       | None => (Ok tt, mkdirs (parents uri ++ [uri]) files)
       end.

(** Ensure a directory exists.  Creates all intermediate directories.  The
    error thrown inside the [try] for a path that is not a directory carries
    no code, so the [catch] throws it again, and so it does with every error
    of [stat] but FileNotFound. *)
Definition ensureDir (uri : string) (files : gmap string N)
  : Result unit * gmap string N :=
  let tried : Result unit :=
    match stat files uri with
    | Ok type =>
        if negb (type =? Directory)%N
        then Throw ("Error: Path exists but is not a directory: " ++ uri)
        else Ok tt
    | Throw err => Throw err
    end in
  match tried with
  | Ok _ => (Ok tt, files)
  | Throw err =>
      (* FileSystemError with code FileNotFound: create it *)
      if String.eqb err "FileNotFound" then createDirectory uri files
      else (Throw err, files)
  end.






End Fs.

(* ================================================================== *)
(** * The dates of a range ([datesInRange] of [util/time.ts]) *)

Section DatesInRange.
Variable clk : Clock.

(** The loop [while (cursor <= end) { ...; cursor.setDate(cursor.getDate() + 1) }]. *)
Fixpoint datesLoop (fuel : nat) (cursor end_ : Date) : list string :=
  match fuel with
  | O => []
  | S fuel' =>
      if num_leb (int (getTime cursor)) (int (getTime end_))
      then formatDateParam clk cursor
           :: datesLoop fuel'
                (setDate clk cursor (option_map (Z.add 1) (getDate clk cursor))) end_
      else []
  end.

(** The turns that the loop can take between two dates: one per day, and
    two more for the offsets of the zone at the two ends. *)
Definition daysBetween (cursor end_ : Date) : nat :=
  match cursor, end_ with
  | TimeValue c, TimeValue e => Z.to_nat ((e - c) / msPerDay + 3)
  | _, _ => O
  end.

(** Returns a list of unique "YYYY-MM-DD" strings covering the range
    [from, to]. *)
Definition datesInRange (from to : Date) : list string :=
  let cursor := setHours clk from 0 0 0 0 in
  let end_ := setHours clk to 23 59 59 999 in
  datesLoop (S (daysBetween cursor end_)) cursor end_.
End DatesInRange.

(* ================================================================== *)
(** * The tree view of the queue ([ui/QueueViewProvider.ts]) *)

Module QueueViewProvider.
Section Sort.
Context {A : Type}.
Variable comparefn : A -> A -> number.

(** The comparison of [Array.prototype.sort]: the number that [comparefn]
    returns, NaN counting as +0. *)
Definition SortCompare (x y : A) : Q := default 0%Q (comparefn x y).

(** [x] goes before the first element that it is not greater than. *)
Fixpoint insert (x : A) (l : list A) : list A :=
  match l with
  | [] => [x]
  | y :: l' =>
      if Qle_bool (SortCompare x y) 0 then x :: y :: l' else y :: insert x l'
  end.

(** [array.sort(comparefn)].  The language fixes the result for a consistent
    [comparefn]: the elements in ascending order, equal ones in the order
    they had; that is the result computed here.  For other functions the
    order is left to the engine. *)
Definition sort (l : list A) : list A := List.fold_right insert [] l.
End Sort.

(** [(a, b) => new Date(a.notBefore).getTime() - new Date(b.notBefore).getTime()] *)
Definition byNotBefore (a b : QueueItem) : number :=
  (int (getTime (notBefore a)) - int (getTime (notBefore b)))%num.

(** Show pending first (sorted by notBefore), then processed. *)
Definition getChildren (state : gmap string (list QueueItem)) : list QueueItem :=
  let all := QueueStore.getAll state in
  let pending := sort byNotBefore (List.filter (fun i => negb (processed i)) all) in
  let processed := sort (fun a b => byNotBefore b a)
                        (List.filter (fun i => processed i) all) in
  (pending ++ processed)%list.
End QueueViewProvider.

(* ================================================================== *)
(** * Definitions for the statements *)

(** The wrapper in the words of the specification:
    [parseRateLimitMessage(text)?.delayHours]. *)
Definition delayHours_of_message (clk : Clock) (text : string) : option number :=
  option_map delayHours (parseRateLimitMessage clk text).

(** A clock for the examples: 2024-06-15 12:00:00 UTC, local time UTC+2. *)
Definition noon : Clock :=
  {| timeNow := 1718452800000; LocalTZA := fun _ _ => 7200000%Z |}.

(** The same instant on a host whose local time is UTC. *)
Definition noonUTC : Clock := {| timeNow := 1718452800000; LocalTZA := fun _ _ => 0%Z |}.

(** The date parameter of day [d] of the calendar, the days counted from
    1970-01-01. *)
Definition dateOfDay (d : Z) : string :=
  formatDateParam noonUTC (TimeValue (d * msPerDay)).




(** The clocks of the host show the local time [L] at some instant: the
    instant that the zone gives to [L] reads [L].  A time that is skipped
    when the clocks go forward does not occur. *)
Definition occurs (clk : Clock) (L : Z) : Prop := LocalTime clk (UTC clk L) = L.


(** The zone gives the local times that occur their instants in order. *)
Definition wallClockInOrder (clk : Clock) : Prop :=
  forall L1 L2, occurs clk L1 -> occurs clk L2 ->
                (L1 <= L2)%Z -> (UTC clk L1 <= UTC clk L2)%Z.

(** No offset of the zone exceeds a day. *)
Definition offsetsWithinADay (clk : Clock) : Prop :=
  forall t isUTC, (Z.abs (LocalTZA clk t isUTC) <= msPerDay)%Z.

(** A host in New York in 2024, at the instant [now]: UTC-4 from
    2024-03-10 07:00 UTC to 2024-11-03 06:00 UTC, and UTC-5 before and after.
    The local times from 02:00 to 03:00 on 2024-03-10 are skipped, those from
    01:00 to 02:00 on 2024-11-03 come twice. *)
Definition newYork (now : Z) : Clock :=
  {| timeNow := now;
     LocalTZA := fun t isUTC =>
       if isUTC
       then if (1710054000000 <=? t)%Z && (t <? 1730613600000)%Z
            then (-14400000)%Z else (-18000000)%Z
       else if (1710039600000 <=? t)%Z && (t <? 1730599200000)%Z
            then (-14400000)%Z else (-18000000)%Z |}.

(** A computation is quiet when it records no delivery attempt. *)
Definition quiet {A : Type} (m : M A) : Prop :=
  forall w, attempts (effects (snd (m w))) = attempts (effects w).

(** A computation that never throws. *)
Definition total {A : Type} (m : M A) : Prop :=
  forall w, exists a, fst (m w) = Ok a.

(** One turn of the loop of a tick,
    [try { await deliver(item) } catch (err) { handler }],
    for any delivery method and any catch block. *)
Definition attempt (deliver : QueueItem -> M unit)
           (handler : QueueItem -> string -> M unit) (item : QueueItem) : M unit :=
  tryCatch (call deliver item) (handler item).

(** The number of deliveries that return, when the loop of [process] runs on
    [due] from the world [w]. *)
Fixpoint delivered (due : list QueueItem) (w : World) : nat :=
  match due with
  | [] => 0
  | item :: due' =>
      match call QueueProcessor.deliver item w with
      | (Ok _, w') => S (delivered due' w')
      | (Throw err, w') =>
          delivered due' (snd (QueueProcessor.deliveryFailed item err w'))
      end
  end.

(** ** Example hosts *)

(** An item that was due an hour before [noon]. *)
Definition dueItem : QueueItem :=
  {| id := "a1b2c3d4"; createdAt := TimeValue 1718431200000;
     notBefore := TimeValue 1718449200000; promptText := "Summarise the open issues.";
     workspaceFolder := "/work/project"; targetTerminalName := None;
     processed := false |}.

(** A host at [noon] with no terminal open. *)
Definition hostWith (state : gmap string (list QueueItem))
           (writeError : string -> option string) : World :=
  {| globalState := state; clock := noon; terminals := []; activeTerminal := None;
     workspaceFolders := Some ["/work/project"]; tmpdir := "/tmp";
     homedir := "/home/user"; writeError := writeError; effects := [] |}.

(** The queue holds [dueItem], and the temporary directory is full. *)
Definition fullDisk : World :=
  hostWith (QueueStore.add ∅ dueItem)
           (fun _ => Some "Error: ENOSPC: no space left on device, write").

(** A second item, due a minute before [noon]. *)
Definition secondItem : QueueItem :=
  {| id := "deadbeef"; createdAt := TimeValue 1718438400000;
     notBefore := TimeValue 1718452740000; promptText := "Run the tests again.";
     workspaceFolder := EmptyString; targetTerminalName := None;
     processed := false |}.

(** The queue holds both items, and only the temporary file of the first
    cannot be written. *)
Definition firstFails : World :=
  hostWith (QueueStore.add (QueueStore.add ∅ dueItem) secondItem)
           (fun path => if String.eqb path "/tmp/cq-a1b2c3d4.txt"
                        then Some "Error: EACCES: permission denied, open"
                        else None).

(** The queue holds both items, and a terminal of a running session is open. *)
Definition sessionOpen : World :=
  {| globalState := QueueStore.add (QueueStore.add ∅ dueItem) secondItem;
     clock := noon;
     terminals := [ {| terminalId := 1; terminalName := "zsh" |};
                    {| terminalId := 2; terminalName := "Claude Code" |} ];
     activeTerminal := Some {| terminalId := 1; terminalName := "zsh" |};
     workspaceFolders := Some ["/work/project"]; tmpdir := "/tmp";
     homedir := "/home/user";
     writeError := fun _ => Some "Error: EROFS: read-only file system, open";
     effects := [] |}.

(** An item that is due a day after [noon], for a terminal named by a hint. *)
Definition laterItem : QueueItem :=
  {| id := "0badcafe"; createdAt := TimeValue 1718452800000;
     notBefore := TimeValue 1718539200000; promptText := "Deploy the branch.";
     workspaceFolder := "/work/other"; targetTerminalName := Some "zsh";
     processed := false |}.

(** The queue holds [dueItem], already processed. *)
Definition allProcessed : World :=
  hostWith (QueueStore.markProcessed (QueueStore.add ∅ dueItem) "a1b2c3d4")
           (fun _ => None).

(** [reach x y]: the state [y] lies at or after [x] in the same text. *)
Definition reach (x y : mstate) : Prop :=
  (List.length (input y) <= List.length (input x))%nat /\
  (endIndex y + List.length (input y) = endIndex x + List.length (input x))%nat.

(** A matcher is local when it consults its continuation only at states
    that lie at or after its own. *)
Definition local (m : cont -> cont) : Prop :=
  forall (c1 c2 : cont) (x : mstate),
    (forall y, reach x y -> c1 y = c2 y) -> m c1 x = m c2 x.

(** ** Worlds and traces *)

(** The world with more effects in its trace. *)
Definition logged (w : World) (es : list Effect) : World :=
  {| globalState := globalState w; clock := clock w; terminals := terminals w;
     activeTerminal := activeTerminal w; workspaceFolders := workspaceFolders w;
     tmpdir := tmpdir w; homedir := homedir w; writeError := writeError w;
     effects := effects w ++ es |}.

(** The world with another Memento. *)
Definition stored (w : World) (state : gmap string (list QueueItem)) : World :=
  {| globalState := state; clock := clock w; terminals := terminals w;
     activeTerminal := activeTerminal w; workspaceFolders := workspaceFolders w;
     tmpdir := tmpdir w; homedir := homedir w; writeError := writeError w;
     effects := effects w |}.

(** The world with one more terminal. *)
Definition opened (w : World) (t : Terminal) : World :=
  {| globalState := globalState w; clock := clock w; terminals := terminals w ++ [t];
     activeTerminal := activeTerminal w; workspaceFolders := workspaceFolders w;
     tmpdir := tmpdir w; homedir := homedir w; writeError := writeError w;
     effects := effects w |}.

Definition isFire (e : Effect) : bool :=
  match e with Fire => true | _ => false end.
Definition isCreateTerminal (e : Effect) : bool :=
  match e with CreateTerminal _ _ => true | _ => false end.
Definition isShowErrorMessage (e : Effect) : bool :=
  match e with ShowErrorMessage _ => true | _ => false end.
Definition isWriteFileSync (e : Effect) : bool :=
  match e with WriteFileSync _ _ => true | _ => false end.

(** How many effects of a trace satisfy [p]. *)
Definition count (p : Effect -> bool) (es : list Effect) : nat :=
  List.length (List.filter p es).

(** Some terminal has 'claude' in its name, whatever the case, or a terminal
    is active. *)
Definition reachable (w : World) : Prop :=
  (exists t, In t (terminals w) /\
             includes "claude" (toLowerCase (terminalName t)) = true) \/
  activeTerminal w <> None.

(** The world after one turn of the loop of [process]. *)
Definition turn (w : World) (item : QueueItem) : World :=
  snd (attempt QueueProcessor.deliver QueueProcessor.deliveryFailed item w).

(** The temporary file of an item. *)
Definition tmpFileOf (w : World) (item : QueueItem) : string :=
  path_join (tmpdir w) ("cq-" ++ id item ++ ".txt").

(** [id] is none of [ids]. *)
Definition idNotIn (ids : list string) (i : QueueItem) : bool :=
  negb (existsb (String.eqb (id i)) ids).

(** What a turn of the loop adds to the trace when the prompt goes to the
    terminal [t] that was found. *)
Definition sentTrace (item : QueueItem) (t : Terminal) : list Effect :=
  [ DeliverCall item;
    AppendLine ("[QueueProcessor] Sending to existing terminal " ++ quote
                ++ terminalName t ++ quote);
    TerminalShow t true;
    TerminalSendText t (stripEsc (promptText item)) false;
    TerminalSendText t CR false;
    AppendLine ("[QueueProcessor] Delivered " ++ id item);
    ShowInformationMessage
      ("PromptQueue: Prompt sent to Claude  [id: " ++ id item ++ "]") ].

(** The terminal that [createTerminal] opens in a world. *)
Definition nextTerminal (w : World) : Terminal :=
  {| terminalId := S (list_max (List.map terminalId (terminals w)));
     terminalName := "Claude" |}.

(** What a turn adds when no terminal was found and a new one is opened. *)
Definition createdTrace (w : World) (item : QueueItem) (cwd : string) : list Effect :=
  [ DeliverCall item;
    AppendLine "[QueueProcessor] No Claude terminal found, creating new session";
    WriteFileSync (tmpFileOf w item) (promptText item);
    CreateTerminal (nextTerminal w) cwd;
    TerminalShow (nextTerminal w) true;
    TerminalSendText (nextTerminal w)
      ("claude " ++ quote ++ "$(cat '" ++ tmpFileOf w item ++ "')" ++ quote
       ++ " ; rm -f '" ++ tmpFileOf w item ++ "'") true;
    AppendLine ("[QueueProcessor] Delivered " ++ id item);
    ShowInformationMessage
      ("PromptQueue: Prompt sent to Claude  [id: " ++ id item ++ "]") ].

(** What a turn adds when the temporary file cannot be written. *)
Definition failedTrace (item : QueueItem) (err : string) : list Effect :=
  [ DeliverCall item;
    AppendLine "[QueueProcessor] No Claude terminal found, creating new session";
    AppendLine ("[QueueProcessor] Error delivering " ++ id item ++ ": " ++ err);
    ShowErrorMessage ("PromptQueue: failed to deliver prompt " ++ id item
                      ++ ": " ++ err) ].

(** The first line that a tick writes to the log. *)
Definition tickLine (w : World) : Effect :=
  AppendLine ("[QueueProcessor] Tick: "
              ++ showNat (List.length (QueueStore.getPending (globalState w)))
              ++ " pending, " ++ showNat (List.length (QueueProcessor.dueItems w))
              ++ " overdue").

(** The estimate of all the prompts of a list of items. *)
Definition totalTokens (items : list QueueItem) : Z :=
  List.fold_right
    (fun i acc => (LocalEstimateProvider.estimateTokens (promptText i) + acc)%Z)
    0%Z items.


(** The instant before which an item is not delivered, in milliseconds;
    zero stands in for an invalid date. *)
Definition notBeforeTime (i : QueueItem) : Z := default 0%Z (getTime (notBefore i)).

(** The items of a list that are to be delivered at instant [t]. *)
Definition dueAt (t : Z) (l : list QueueItem) : list QueueItem :=
  List.filter (fun i => (notBeforeTime i =? t)%Z) l.

(** An item with an id, an instant and a state, for the examples. *)
Definition itemAt (name : string) (t : Z) (done : bool) : QueueItem :=
  {| id := name; createdAt := TimeValue 0; notBefore := TimeValue t;
     promptText := "continue"; workspaceFolder := "/work";
     targetTerminalName := None; processed := done |}.

(* ================================================================== *)
(** * Properties of the matcher: the fuel of a quantifier is enough *)

Lemma reach_refl (x : mstate) : reach x x.
Proof. split; lia. Qed.

Lemma reach_trans (x y z : mstate) : reach x y -> reach y z -> reach x z.
Proof. unfold reach. lia. Qed.

Lemma charMatcher_local (p : ascii -> bool) : local (charMatcher p).
Proof.
  intros c1 c2 x H. unfold charMatcher.
  destruct (input x) as [| ch rest] eqn:E; [reflexivity |].
  destruct (p ch); [| reflexivity].
  apply H. unfold reach. simpl. rewrite E. simpl. lia.
Qed.

Lemma RepeatMatcher_local (m : cont -> cont) (inner : list nat) :
  local m ->
  forall fuel min max, local (fun c => RepeatMatcher m inner c fuel min max).
Proof.
  intros Hm fuel.
  induction fuel as [| fuel IH]; intros min max c1 c2 x H; simpl; [reflexivity |].
  assert (Hd : forall y, reach (clear inner x) y ->
                 (if (min =? 0)%nat && (endIndex y =? endIndex x)%nat then None
                  else RepeatMatcher m inner c1 fuel (Nat.pred min)
                                     (option_map Nat.pred max) y)
                 = (if (min =? 0)%nat && (endIndex y =? endIndex x)%nat then None
                    else RepeatMatcher m inner c2 fuel (Nat.pred min)
                                       (option_map Nat.pred max) y)).
  { intros y Hy. destruct ((min =? 0)%nat && _); [reflexivity |].
    apply IH. intros z Hz. apply H. apply (reach_trans x y z); [exact Hy | exact Hz]. }
  rewrite (Hm _ _ (clear inner x) Hd), (H x (reach_refl x)).
  reflexivity.
Qed.

Lemma matcher_local (ignoreCase : bool) (r : regex) : local (matcher ignoreCase r).
Proof.
  induction r as [| a | | | | r1 IH1 r2 IH2 | r1 IH1 r2 IH2 | min max r IH | n r IH];
    intros c1 c2 x H.
  - apply H, reach_refl.
  - now apply charMatcher_local.
  - now apply charMatcher_local.
  - now apply charMatcher_local.
  - simpl. destruct (xorb _ _); [apply H, reach_refl | reflexivity].
  - simpl. apply IH1. intros y Hy. apply IH2. intros z Hz.
    apply H. now apply (reach_trans x y z).
  - simpl. rewrite (IH1 c1 c2 x H), (IH2 c1 c2 x H). reflexivity.
  - exact (RepeatMatcher_local _ (parens r) IH _ min max c1 c2 x H).
  - simpl. apply IH. intros y Hy. apply H. exact Hy.
Qed.

(** More fuel than [min] plus the length of the input left changes nothing:
    the loop of a quantifier never runs out. *)
Lemma RepeatMatcher_fuel (m : cont -> cont) (inner : list nat) (c : cont) :
  local m ->
  forall fuel1 fuel2 min max x,
    (min + List.length (input x) < fuel1)%nat ->
    (min + List.length (input x) < fuel2)%nat ->
    RepeatMatcher m inner c fuel1 min max x = RepeatMatcher m inner c fuel2 min max x.
Proof.
  intros Hm fuel1.
  induction fuel1 as [| fuel1 IH]; intros fuel2 min max x H1 H2; [lia |].
  destruct fuel2 as [| fuel2]; [lia |]. simpl.
  assert (Hd : forall y, reach (clear inner x) y ->
                 (if (min =? 0)%nat && (endIndex y =? endIndex x)%nat then None
                  else RepeatMatcher m inner c fuel1 (Nat.pred min)
                                     (option_map Nat.pred max) y)
                 = (if (min =? 0)%nat && (endIndex y =? endIndex x)%nat then None
                    else RepeatMatcher m inner c fuel2 (Nat.pred min)
                                       (option_map Nat.pred max) y)).
  { intros y [Hlen Hsum]. simpl in Hlen, Hsum.
    destruct (min =? 0)%nat eqn:Emin; simpl.
    - destruct (endIndex y =? endIndex x)%nat eqn:Eend; [reflexivity |].
      apply Nat.eqb_eq in Emin. apply Nat.eqb_neq in Eend. subst min.
      apply IH; simpl; lia.
    - apply Nat.eqb_neq in Emin. apply IH; lia. }
  rewrite (Hm _ _ (clear inner x) Hd). reflexivity.
Qed.

Lemma matcher_Quant_fuel (ignoreCase : bool) (min : nat) (max : option nat) (r : regex)
      (c : cont) (x : mstate) (fuel : nat) :
  (min + List.length (input x) < fuel)%nat ->
  matcher ignoreCase (Quant min max r) c x
  = RepeatMatcher (matcher ignoreCase r) (parens r) c fuel min max x.
Proof.
  intros H.
  change (matcher ignoreCase (Quant min max r) c x)
    with (RepeatMatcher (matcher ignoreCase r) (parens r) c
                        (S (min + List.length (input x))) min max x).
  apply RepeatMatcher_fuel; [apply matcher_local | lia | exact H].
Qed.

(* ================================================================== *)
(** * Properties of the calendar *)

Lemma DayFromYear_next (y : Z) :
  DayFromYear (y + 1) = (DayFromYear y + (if isLeapYear y then 366 else 365))%Z.
Proof.
  unfold DayFromYear, isLeapYear.
  destruct (y mod 4 =? 0)%Z eqn:E4; destruct (y mod 100 =? 0)%Z eqn:E100;
    destruct (y mod 400 =? 0)%Z eqn:E400; simpl;
    rewrite ?Z.eqb_eq, ?Z.eqb_neq in *;
    Z.to_euclidean_division_equations; lia.
Qed.

Lemma DayFromYear_mono (a b : Z) : (a <= b)%Z -> (DayFromYear a <= DayFromYear b)%Z.
Proof.
  intros H. unfold DayFromYear. Z.to_euclidean_division_equations; lia.
Qed.

Lemma YearFromDay_bounds (d : Z) :
  (DayFromYear (YearFromDay d) <= d < DayFromYear (YearFromDay d + 1))%Z.
Proof.
  unfold YearFromDay.
  set (y := (1970 + d * 400 / 146097)%Z).
  destruct (Z.ltb_spec d (DayFromYear y)) as [H1 | H1].
  - replace (y - 1 + 1)%Z with y by lia. split; [| exact H1].
    unfold DayFromYear in *. subst y.
    Z.to_euclidean_division_equations; lia.
  - destruct (Z.leb_spec (DayFromYear (y + 1)) d) as [H2 | H2].
    + split; [exact H2 |].
      unfold DayFromYear in *. subst y.
      Z.to_euclidean_division_equations; lia.
    + lia.
Qed.

(** [YearFromTime t] is the largest year that starts at or before [t]. *)
Lemma YearFromTime_largest (t y : Z) :
  (msPerDay * DayFromYear y <= t)%Z <-> (y <= YearFromTime t)%Z.
Proof.
  unfold YearFromTime.
  pose proof (YearFromDay_bounds (Day t)) as [Hlo Hhi].
  assert (Hday : (msPerDay * DayFromYear y <= t <-> DayFromYear y <= Day t)%Z).
  { unfold Day, msPerDay. Z.to_euclidean_division_equations; lia. }
  rewrite Hday. split.
  - intros H. destruct (Z_le_gt_dec y (YearFromDay (Day t))) as [Hle | Hgt]; [exact Hle |].
    pose proof (DayFromYear_mono (YearFromDay (Day t) + 1) y ltac:(lia)). lia.
  - intros H. pose proof (DayFromYear_mono y (YearFromDay (Day t)) H). lia.
Qed.

(** ** The tests of [time.test.ts] on formatting, on a host in UTC *)

Example formatTimestamp_fixed_date :
  formatTimestamp noonUTC (TimeValue 1710493500000) = "20240315_0905".
Proof. vm_compute. reflexivity. Qed.

Example formatTimestamp_pads :
  formatTimestamp noonUTC (TimeValue 1704585600000) = "20240107_0000".
Proof. vm_compute. reflexivity. Qed.

Example formatDisplayTime_readable :
  formatDisplayTime noonUTC (TimeValue 1732977000000) = "2024-11-30 14:30".
Proof. vm_compute. reflexivity. Qed.

Example formatDateParam_date :
  formatDateParam noonUTC (TimeValue 1717243200000) = "2024-06-01".
Proof. vm_compute. reflexivity. Qed.

Example formatDisplayTime_leap_day :
  formatDisplayTime noonUTC (TimeValue 1709251140000) = "2024-02-29 23:59" /\
  formatDisplayTime noon (TimeValue 1709251140000) = "2024-03-01 01:59" /\
  formatDisplayTime noonUTC (TimeValue (-1000)) = "1969-12-31 23:59" /\
  formatDisplayTime noonUTC (TimeValue 4107542400000) = "2100-03-01 00:00".
Proof. vm_compute. repeat split. Qed.

Example addHours_fractional :
  addHours (TimeValue 1704103200000) (Some (1 # 2)%Q) = TimeValue (1704103200000 + 1800000).
Proof. vm_compute. reflexivity. Qed.

(* ================================================================== *)
(** * Properties of the time utilities and of the parser *)

(** ** The tests of [time.test.ts] on the parser *)

Example test_try_again_in_3_hours :
  parseRateLimitDelay noon "Rate limited. Try again in 3 hours." = Some (Some (31 # 10)%Q).
Proof. vm_compute. reflexivity. Qed.

Example test_retry_after_45_minutes :
  option_map (fun i => (delayHours i, confidence i))
    (parseRateLimitMessage noon "Copilot is rate limited. Please retry after 45 minutes.")
  = Some (Some (8 # 10)%Q, high).
Proof. vm_compute. reflexivity. Qed.

Example test_2_hours_15_minutes :
  option_map (fun i => (delayHours i, confidence i))
    (parseRateLimitMessage noon "try again in 2 hours 15 minutes")
  = Some (Some (23 # 10)%Q, high).
Proof. vm_compute. reflexivity. Qed.

Example test_retry_after_30_seconds :
  option_map (fun i => (delayHours i, confidence i))
    (parseRateLimitMessage noon "retry after 30 seconds")
  = Some (Some (1 # 10)%Q, medium).
Proof. vm_compute. reflexivity. Qed.

Example test_no_match :
  parseRateLimitMessage noon "Everything is fine." = None /\
  parseRateLimitDelay noon "Something went wrong." = None.
Proof. vm_compute. split; reflexivity. Qed.

Example test_reset_at_clock_time :
  option_map (fun i => (resetAt i, delayHours i, confidence i))
    (parseRateLimitMessage noon "Your limit will reset at 3:30 PM")
  = Some (Some (TimeValue 1718458200000), Some (16 # 10)%Q, high).
Proof. vm_compute. reflexivity. Qed.

(** Evaluate every closed pattern match of the goal. *)
Ltac eval_matches :=
  repeat match goal with
         | |- context [match_ ?t ?p] =>
             let v := eval vm_compute in (match_ t p) in
             replace (match_ t p) with v by (vm_compute; reflexivity)
         end.

(** Evaluate the elements read from a match that is already evaluated. *)
Ltac eval_groups :=
  repeat match goal with
         | |- context [ToString (group ?n ?m)] =>
             let v := eval vm_compute in (ToString (group n m)) in
             change (ToString (group n m)) with v
         | |- context [group ?n ?m] =>
             let v := eval vm_compute in (group n m) in
             change (group n m) with v
         | |- context [matched ?m] =>
             let v := eval vm_compute in (matched m) in
             change (matched m) with v
         end.

Ltac unfold_cascade :=
  unfold parseRateLimitMessage, tryAbsReset, tryAtTime, tryCombined, tryHoursOnly,
    tryBareHours, tryMinutesOnly, trySecondsOnly.

Lemma num_leb_int (a b : option Z) :
  num_leb (int a) (int b) = true <->
  exists x y, a = Some x /\ b = Some y /\ (x <= y)%Z.
Proof.
  destruct a as [x|], b as [y|]; simpl.
  - rewrite Qle_bool_iff, <- Zle_Qle. split.
    + intros H. exists x, y. auto.
    + intros (x' & y' & Hx & Hy & H). congruence.
  - split; [discriminate | intros (? & ? & _ & ? & _); discriminate].
  - split; [discriminate | intros (? & ? & ? & _); discriminate].
  - split; [discriminate | intros (? & ? & ? & _); discriminate].
Qed.

(** C6. [isOverdue(t, now)] is true exactly when both time values are numbers
    and [t.getTime() <= now.getTime()]; for two instants this is
    [t <= now], and an instant is overdue with respect to itself. *)
Theorem isOverdue_spec :
  (forall notBefore now : Date,
      isOverdue notBefore now = true <->
      exists t n, getTime notBefore = Some t /\ getTime now = Some n /\ (t <= n)%Z) /\
  (forall t n : Z, isOverdue (TimeValue t) (TimeValue n) = true <-> (t <= n)%Z) /\
  (forall t : Z, isOverdue (TimeValue t) (TimeValue t) = true).
Proof.
  assert (H : forall t n : Z,
             isOverdue (TimeValue t) (TimeValue n) = true <-> (t <= n)%Z).
  { intros t n. unfold isOverdue. rewrite num_leb_int. simpl. split.
    - intros (x & y & Hx & Hy & Hle). congruence.
    - intros Hle. exists t, n. auto. }
  split; [| split].
  - intros notBefore now. unfold isOverdue. apply num_leb_int.
  - exact H.
  - intros t. apply H. lia.
Qed.

(** C7. [parseRateLimitDelay] is the [delayHours] of [parseRateLimitMessage]
    at the same clock: undefined exactly when the message parser returns
    undefined, and the [delayHours] field of its result otherwise. *)
Theorem parseRateLimitDelay_wrapper (clk : Clock) (text : string) :
  parseRateLimitDelay clk text = delayHours_of_message clk text /\
  (parseRateLimitDelay clk text = None <-> parseRateLimitMessage clk text = None) /\
  (forall info, parseRateLimitMessage clk text = Some info ->
                parseRateLimitDelay clk text = Some (delayHours info)).
Proof.
  unfold parseRateLimitDelay, delayHours_of_message.
  destruct (parseRateLimitMessage clk text) as [info|]; simpl.
  - repeat split; try discriminate. intros info' Heq. congruence.
  - repeat split; discriminate.
Qed.

Lemma parseRateLimitDelay_wrapper_witness :
  let clk := {| timeNow := 1718452800000; LocalTZA := fun _ _ => 7200000%Z |} in
  parseRateLimitDelay clk "retry after 30 seconds" = Some (Some (1 # 10)%Q).
Proof.
  intros clk.
  destruct (parseRateLimitDelay_wrapper clk "retry after 30 seconds") as (_ & _ & H).
  apply (H {| delayHours := Some (1 # 10)%Q;
              resetAt := Some (TimeValue 1718453160000);
              rawMatch := "after 30 seconds";
              confidence := medium |}).
  vm_compute. reflexivity.
Defined.

Lemma relative_fields (clk : Clock) (total : number) (raw : string) (c : Confidence) :
  delayHours (relative clk total raw c) = addBuffer total /\
  rawMatch (relative clk total raw c) = raw /\
  confidence (relative clk total raw c) = c.
Proof. repeat split. Qed.

(** C4. For "Rate limit exceeded. Try again in 4h 30m." the parser answers
    through the combined pattern: [delayHours] is 4.6, above 4.5 and at most
    5.0, and the confidence is high, whatever the clock. *)
Theorem parse_4h30m (clk : Clock) :
  exists info q,
    parseRateLimitMessage clk "Rate limit exceeded. Try again in 4h 30m." = Some info /\
    delayHours info = Some q /\
    (q == 46 # 10)%Q /\ (45 # 10 < q)%Q /\ (q <= 5)%Q /\
    confidence info = high.
Proof.
  unfold_cascade. eval_matches. cbv beta iota delta [orElse].
  eexists. exists (46 # 10)%Q. split; [reflexivity |].
  split; [vm_compute; reflexivity |].
  repeat split; try reflexivity; vm_compute; discriminate.
Qed.

Lemma parseAbsoluteTime_defined (clk : Clock) (hourStr minuteStr : string)
      (ampm : option string) (rawText : string) (h mi : Z) :
  parseInt hourStr = Some h -> parseInt minuteStr = Some mi ->
  exists info, parseAbsoluteTime clk hourStr minuteStr ampm rawText = Some info.
Proof.
  intros Hh Hm. unfold parseAbsoluteTime. rewrite Hh, Hm. eexists. reflexivity.
Qed.

Lemma parseAbsoluteTime_fields (clk : Clock) (hourStr minuteStr : string)
      (ampm : option string) (rawText : string) (info : RateLimitInfo) :
  parseAbsoluteTime clk hourStr minuteStr ampm rawText = Some info ->
  rawMatch info = slice0 80 rawText /\ confidence info = high.
Proof.
  unfold parseAbsoluteTime.
  destruct (parseInt hourStr); [| discriminate].
  destruct (parseInt minuteStr); [| discriminate].
  intros [= <-]. split; reflexivity.
Qed.

(** The two absolute-time matchers report the first 80 code units of the
    whole text. *)
Lemma rawMatch_absolute (clk : Clock) (text : string) (info : RateLimitInfo) :
  tryAbsReset clk text = Some info \/ tryAtTime clk text = Some info ->
  rawMatch info = slice0 80 text.
Proof.
  unfold tryAbsReset, tryAtTime. intros [H | H].
  - destruct (match_ text Patterns.absReset); [| discriminate].
    apply parseAbsoluteTime_fields in H. tauto.
  - destruct (match_ text Patterns.atTime); [| discriminate].
    destruct (parseAbsoluteTime _ _ _ _ _) as [info0|] eqn:E; [| discriminate].
    injection H as <-. apply parseAbsoluteTime_fields in E. simpl. tauto.
Qed.

(** The five relative matchers report element 0 of their match. *)
Lemma rawMatch_relative (clk : Clock) (text : string) (info : RateLimitInfo) :
  tryAbsReset clk text = None -> tryAtTime clk text = None ->
  parseRateLimitMessage clk text = Some info ->
  exists re m,
    In re [Patterns.combined; Patterns.hoursOnly; Patterns.bareHours;
           Patterns.minutesOnly; Patterns.secondsOnly] /\
    match_ text re = Some m /\ rawMatch info = matched m.
Proof.
  intros H1 H2. unfold parseRateLimitMessage. rewrite H1, H2.
  unfold tryCombined, tryHoursOnly, tryBareHours, tryMinutesOnly, trySecondsOnly.
  destruct (match_ text Patterns.combined) as [m|] eqn:E3; simpl.
  { intros [= <-]. exists Patterns.combined, m. simpl. auto. }
  destruct (match_ text Patterns.hoursOnly) as [m|] eqn:E4; simpl.
  { intros [= <-]. exists Patterns.hoursOnly, m. simpl. auto. }
  destruct (match_ text Patterns.bareHours) as [m|] eqn:E5; simpl.
  { intros [= <-]. exists Patterns.bareHours, m. simpl. auto. }
  destruct (match_ text Patterns.minutesOnly) as [m|] eqn:E6; simpl.
  { intros [= <-]. exists Patterns.minutesOnly, m. simpl. auto 6. }
  destruct (match_ text Patterns.secondsOnly) as [m|] eqn:E7; simpl.
  { intros [= <-]. exists Patterns.secondsOnly, m. simpl. auto 7. }
  discriminate.
Qed.

(** C2, at the inputs where the code departs from it.  For a text that the
    first matcher answers, the pattern matched "reset at 2:30 PM" but
    [rawMatch] is the whole text; for a text that the second matcher answers,
    the pattern matched "at 10:15" but [rawMatch] is the whole text; and for
    a text longer than 80 code units [rawMatch] is its first 80 code units. *)
Theorem rawMatch_of_clock_times (clk : Clock) :
  (let text := "Please note: your limit will reset at 2:30 PM" in
   option_map matched (match_ text Patterns.absReset) = Some "reset at 2:30 PM" /\
   option_map rawMatch (parseRateLimitMessage clk text) = Some text) /\
  (let text := "the meeting is at 10:15 tomorrow" in
   match_ text Patterns.absReset = None /\
   option_map matched (match_ text Patterns.atTime) = Some "at 10:15 " /\
   option_map rawMatch (parseRateLimitMessage clk text) = Some text) /\
  (let text := "You have sent too many requests in a short time, so your limit will reset at 2:30 PM"
                 ++ " today." in
   option_map matched (match_ text Patterns.absReset) = Some "reset at 2:30 PM" /\
   option_map rawMatch (parseRateLimitMessage clk text) =
   Some "You have sent too many requests in a short time, so your limit will reset at 2:3").
Proof.
  split; [| split]; cbv zeta.
  - split; [vm_compute; reflexivity |].
    destruct (parseAbsoluteTime_defined clk "2" "30" (Some "PM")
                "Please note: your limit will reset at 2:30 PM" 2 30
                eq_refl eq_refl) as [info Hinfo].
    unfold_cascade. eval_matches. eval_groups.
    rewrite Hinfo. simpl. f_equal.
    apply parseAbsoluteTime_fields in Hinfo. destruct Hinfo as [-> _].
    vm_compute. reflexivity.
  - split; [vm_compute; reflexivity |]. split; [vm_compute; reflexivity |].
    destruct (parseAbsoluteTime_defined clk "10" "15" None
                "the meeting is at 10:15 tomorrow" 10 15
                eq_refl eq_refl) as [info Hinfo].
    unfold_cascade. eval_matches. eval_groups.
    rewrite Hinfo. simpl. f_equal.
    apply parseAbsoluteTime_fields in Hinfo. destruct Hinfo as [-> _].
    vm_compute. reflexivity.
  - split; [vm_compute; reflexivity |].
    match goal with
    | |- context [parseRateLimitMessage clk ?t] =>
        let v := eval vm_compute in t in
        replace t with v by (vm_compute; reflexivity)
    end.
    match goal with
    | |- context [parseRateLimitMessage clk ?t] =>
        destruct (parseAbsoluteTime_defined clk "2" "30" (Some "PM") t 2 30
                    eq_refl eq_refl) as [info Hinfo]
    end.
    unfold_cascade. eval_matches. eval_groups.
    rewrite Hinfo. simpl. f_equal.
    apply parseAbsoluteTime_fields in Hinfo. destruct Hinfo as [-> _].
    vm_compute. reflexivity.
Qed.

(** Both absolute-time matchers answer with the result of
    [parseAbsoluteTime] on the elements of their match; the second changes
    the confidence only. *)
Lemma absolute_cases_call_parseAbsoluteTime (clk : Clock) (text : string)
      (info : RateLimitInfo) :
  tryAbsReset clk text = Some info \/ tryAtTime clk text = Some info ->
  exists re m info0,
    In re [Patterns.absReset; Patterns.atTime] /\
    match_ text re = Some m /\
    parseAbsoluteTime clk (ToString (group 1 m)) (ToString (group 2 m)) (group 4 m) text
    = Some info0 /\
    resetAt info = resetAt info0 /\ delayHours info = delayHours info0.
Proof.
  unfold tryAbsReset, tryAtTime. intros [H | H].
  - destruct (match_ text Patterns.absReset) as [m|] eqn:E; [| discriminate].
    exists Patterns.absReset, m, info. simpl. auto.
  - destruct (match_ text Patterns.atTime) as [m|] eqn:E; [| discriminate].
    destruct (parseAbsoluteTime _ _ _ _ _) as [info0|] eqn:E0; [| discriminate].
    injection H as <-. exists Patterns.atTime, m, info0. simpl. auto 6.
Qed.

(** At [noon] it is 14:00:00.000 local time: 9:15 AM has passed and 2:00 PM
    is exactly now, so both roll to the next day; 3:30 PM is still ahead. *)
Example reset_at_rolls_forward :
  option_map resetAt (parseRateLimitMessage noon "Your limit will reset at 9:15 AM")
  = Some (Some (TimeValue (1718452800000 - 17100000 + 86400000))) /\
  option_map resetAt (parseRateLimitMessage noon "Your limit will reset at 2:00 PM")
  = Some (Some (TimeValue (1718452800000 + 86400000))) /\
  option_map resetAt (parseRateLimitMessage noon "see you at 2:00 PM")
  = Some (Some (TimeValue (1718452800000 + 86400000))) /\
  option_map resetAt (parseRateLimitMessage noon "Your limit will reset at 3:30 PM")
  = Some (Some (TimeValue (1718452800000 + 5400000))).
Proof. vm_compute. repeat split. Qed.

(** On "rate limited for 5 hours" the preposition-anchored hours matcher
    answers, and the confidence is not medium. *)
Lemma for_5_hours_is_not_bare :
  tryHoursOnly noon "rate limited for 5 hours" <> None /\
  option_map confidence (parseRateLimitMessage noon "rate limited for 5 hours")
  = Some high /\
  option_map confidence (parseRateLimitMessage noon "rate limited for 5 hours")
  <> Some medium.
Proof.
  split; [| split]; vm_compute; [discriminate | reflexivity | discriminate].
Qed.

(** C3.  What the parser does on the inputs that its own comment and test
    give for the bare-hours fallback.  "rate limited for 5 hours", the
    example in the comment above the fallback, and "You have been rate
    limited for 3 hours", the input of the test titled bare "3 hours" gives
    medium confidence, are both answered by the hours matcher that is
    anchored to in, after or for: the match starts at "for" and the
    confidence is high, not medium.  The fallback answers only where no such
    word stands before the count, as in "rate limited: 5 hours": there the
    match is "5 hours" and the confidence is medium. *)
Theorem hours_after_for (clk : Clock) :
  (exists info,
      parseRateLimitMessage clk "rate limited for 5 hours" = Some info /\
      tryHoursOnly clk "rate limited for 5 hours" = Some info /\
      rawMatch info = "for 5 hours" /\ confidence info = high) /\
  (exists info,
      parseRateLimitMessage clk "You have been rate limited for 3 hours" = Some info /\
      tryHoursOnly clk "You have been rate limited for 3 hours" = Some info /\
      rawMatch info = "for 3 hours" /\ confidence info = high) /\
  (exists info,
      parseRateLimitMessage clk "rate limited: 5 hours" = Some info /\
      tryHoursOnly clk "rate limited: 5 hours" = None /\
      tryBareHours clk "rate limited: 5 hours" = Some info /\
      rawMatch info = "5 hours" /\ confidence info = medium).
Proof.
  split; [| split]; unfold_cascade; eval_matches; eval_groups;
    cbv beta iota delta [orElse]; eexists; repeat split; reflexivity.
Qed.

(** ** The calendar: one day forward *)

Lemma num_leb_Z (a b : Z) : num_leb (int (Some a)) (int (Some b)) = (a <=? b)%Z.
Proof.
  simpl. unfold Qle_bool. simpl. now rewrite !Z.mul_1_r.
Qed.

Lemma TimeClip_in_range (t : Z) :
  (Z.abs t <= maxTime)%Z -> TimeClip t = TimeValue t.
Proof.
  intros H. unfold TimeClip. apply Z.leb_le in H. now rewrite H.
Qed.

Lemma MonthFromTime_range (t : Z) : (0 <= MonthFromTime t <= 11)%Z.
Proof.
  unfold MonthFromTime.
  repeat match goal with
         | |- context [if ?b then _ else _] => destruct b
         end; lia.
Qed.

(** [MakeDay] at the year and month of [t] and the day after its date is the
    day after [t], across the ends of months and years. *)
Lemma MakeDay_next (t : Z) :
  MakeDay (YearFromTime t) (MonthFromTime t) (1 + DateFromTime t) = (Day t + 1)%Z.
Proof.
  pose proof (MonthFromTime_range t) as Hm.
  unfold MakeDay, DateFromTime, DayWithinYear.
  rewrite (Z.div_small (MonthFromTime t) 12) by lia.
  rewrite (Z.mod_small (MonthFromTime t) 12) by lia.
  rewrite Z.add_0_r. lia.
Qed.

Lemma Day_TimeWithinDay (t : Z) :
  (t = Day t * msPerDay + TimeWithinDay t)%Z /\ (0 <= TimeWithinDay t < msPerDay)%Z.
Proof.
  unfold Day, TimeWithinDay. split.
  - rewrite Z.mul_comm. apply Z.div_mod. unfold msPerDay. lia.
  - apply Z.mod_pos_bound. unfold msPerDay. lia.
Qed.

(** [d.setDate(d.getDate() + 1)] moves the local time by one calendar day
    and asks the zone for its instant. *)
Lemma setDate_next (clk : Clock) (t : Z) :
  setDate clk (TimeValue t) (option_map (Z.add 1) (getDate clk (TimeValue t)))
  = TimeClip (UTC clk (LocalTime clk t + msPerDay)).
Proof.
  cbn [setDate getDate getTime option_map]. cbv zeta. rewrite MakeDay_next.
  unfold MakeDate. do 2 f_equal.
  destruct (Day_TimeWithinDay (LocalTime clk t)) as [Ht _]. lia.
Qed.





Lemma newYork_offsets (now : Z) : offsetsWithinADay (newYork now).
Proof.
  intros t isUTC. unfold newYork, msPerDay. cbn [LocalTZA].
  destruct isUTC; destruct (_ && _); lia.
Qed.



(* ================================================================== *)
(** * Properties of the queue store *)

Section StoreProperties.
Variable state : gmap string (list QueueItem).

Lemma getAll_update (items : list QueueItem) :
  QueueStore.getAll (Memento.update state STORAGE_KEY items) = items.
Proof.
  unfold QueueStore.getAll, Memento.get, Memento.update.
  now rewrite lookup_insert_eq.
Qed.

Lemma getAll_markProcessed (id0 : string) :
  QueueStore.getAll (QueueStore.markProcessed state id0)
  = List.map (fun i => if String.eqb (id i) id0 then setProcessed i else i)
             (QueueStore.getAll state).
Proof. unfold QueueStore.markProcessed. apply getAll_update. Qed.

Lemma getAll_remove (id0 : string) :
  QueueStore.getAll (QueueStore.remove state id0)
  = List.filter (fun i => negb (String.eqb (id i) id0)) (QueueStore.getAll state).
Proof. unfold QueueStore.remove. apply getAll_update. Qed.
End StoreProperties.

Lemma setProcessed_idem (i : QueueItem) : setProcessed (setProcessed i) = setProcessed i.
Proof. reflexivity. Qed.

(** The tests of [queue.test.ts] on the store, with [dueItem] and a copy of
    it under another id. *)
Example test_store :
  let a := dueItem in
  let b := {| id := "b"; createdAt := createdAt a; notBefore := notBefore a;
              promptText := promptText a; workspaceFolder := workspaceFolder a;
              targetTerminalName := None; processed := false |} in
  let empty : gmap string (list QueueItem) := ∅ in
  let two := QueueStore.add (QueueStore.add empty a) b in
  QueueStore.getAll empty = [] /\
  QueueStore.getPending empty = [] /\
  QueueStore.getAll two = [a; b] /\
  QueueStore.getPending (QueueStore.markProcessed two "a1b2c3d4") = [b] /\
  QueueStore.getAll (QueueStore.markProcessed two "a1b2c3d4") = [setProcessed a; b] /\
  QueueStore.getAll (QueueStore.remove two "a1b2c3d4") = [b] /\
  QueueStore.getAll (QueueStore.purgeProcessed (QueueStore.markProcessed two "a1b2c3d4"))
  = [b] /\
  QueueStore.getAll (QueueStore.clear two) = [].
Proof. vm_compute. repeat split. Qed.

Lemma mark_map_idem (id0 : string) (items : list QueueItem) :
  let mark := fun i => if String.eqb (id i) id0 then setProcessed i else i in
  List.map mark (List.map mark items) = List.map mark items.
Proof.
  intros mark. rewrite List.map_map. apply List.map_ext. intros i. unfold mark.
  destruct (String.eqb (id i) id0) eqn:E.
  - simpl. rewrite E. reflexivity.
  - rewrite E. reflexivity.
Qed.

(** C9. [markProcessed(id)] twice leaves the store that one call leaves.
    After a call the queue has the same ids in the same order (nothing is
    duplicated or removed), every item with that id is processed, every other
    item is as it was, and without an item of that id the contents are
    unchanged. *)
Theorem markProcessed_idempotent (state : gmap string (list QueueItem)) (id0 : string) :
  let once := QueueStore.markProcessed state id0 in
  QueueStore.markProcessed once id0 = once /\
  List.map id (QueueStore.getAll once) = List.map id (QueueStore.getAll state) /\
  (forall i, In i (QueueStore.getAll once) -> id i = id0 -> processed i = true) /\
  (forall i, id i <> id0 ->
             (In i (QueueStore.getAll once) <-> In i (QueueStore.getAll state))) /\
  ((forall i, In i (QueueStore.getAll state) -> id i <> id0) ->
   QueueStore.getAll once = QueueStore.getAll state).
Proof.
  intros once. subst once.
  split; [| split; [| split; [| split]]].
  - unfold QueueStore.markProcessed at 1. rewrite getAll_markProcessed.
    rewrite mark_map_idem. unfold QueueStore.markProcessed, Memento.update.
    now rewrite insert_insert_eq.
  - rewrite getAll_markProcessed, List.map_map. apply List.map_ext.
    intros i. destruct (String.eqb (id i) id0); reflexivity.
  - intros i Hin Hid. rewrite getAll_markProcessed in Hin.
    apply List.in_map_iff in Hin. destruct Hin as (j & Hj & _).
    destruct (String.eqb (id j) id0) eqn:E; subst i; [reflexivity |].
    apply String.eqb_neq in E. contradiction.
  - intros i Hne. rewrite getAll_markProcessed, List.in_map_iff. split.
    + intros (j & Hj & Hin). destruct (String.eqb (id j) id0) eqn:E.
      * apply String.eqb_eq in E. subst i. simpl in Hne. contradiction.
      * now subst j.
    + intros Hin. exists i. split; [| exact Hin].
      apply String.eqb_neq in Hne. now rewrite Hne.
  - intros Habsent. rewrite getAll_markProcessed.
    rewrite <- (List.map_id (QueueStore.getAll state)) at 2.
    apply List.map_ext_in. intros i Hin.
    specialize (Habsent i Hin). apply String.eqb_neq in Habsent.
    now rewrite Habsent.
Qed.

Lemma markProcessed_idempotent_witness :
  let a := {| id := "a1b2c3d4"; createdAt := TimeValue 1718400000000;
              notBefore := TimeValue 1718450000000; promptText := "first";
              workspaceFolder := "/work"; targetTerminalName := None;
              processed := false |} in
  let state := QueueStore.add (∅ : gmap string (list QueueItem)) a in
  QueueStore.getAll (QueueStore.markProcessed state "00000000") = QueueStore.getAll state /\
  QueueStore.markProcessed (QueueStore.markProcessed state "a1b2c3d4") "a1b2c3d4"
  = QueueStore.markProcessed state "a1b2c3d4".
Proof.
  intros a state. split.
  - apply (markProcessed_idempotent state "00000000").
    intros i Hin. unfold state in Hin. unfold QueueStore.add in Hin.
    rewrite getAll_update in Hin. destruct Hin as [<- | []]. discriminate.
  - apply (markProcessed_idempotent state "a1b2c3d4").
Defined.

(* ================================================================== *)
(** * Properties of the processor *)

Lemma attempts_app (es1 es2 : list Effect) :
  attempts (es1 ++ es2) = (attempts es1 ++ attempts es2)%list.
Proof.
  induction es1 as [| e es1 IH]; simpl; [reflexivity |].
  destruct e; simpl; rewrite IH; reflexivity.
Qed.

Create HintDb quiet.

Lemma quiet_ret {A : Type} (a : A) : quiet (ret a).
Proof. intros w. reflexivity. Qed.

Lemma quiet_gets {A : Type} (f : World -> A) : quiet (gets f).
Proof. intros w. reflexivity. Qed.

Lemma quiet_bind {A B : Type} (m : M A) (k : A -> M B) :
  quiet m -> (forall a, quiet (k a)) -> quiet (bind m k).
Proof.
  intros Hm Hk w. unfold bind. specialize (Hm w).
  destruct (m w) as [[a | err] w']; simpl in *.
  - rewrite (Hk a w'). exact Hm.
  - exact Hm.
Qed.

Lemma quiet_tryCatch (body : M unit) (handler : string -> M unit) :
  quiet body -> (forall err, quiet (handler err)) -> quiet (tryCatch body handler).
Proof.
  intros Hb Hh w. unfold tryCatch. specialize (Hb w).
  destruct (body w) as [[a | err] w']; simpl in *.
  - exact Hb.
  - rewrite (Hh err w'). exact Hb.
Qed.

Lemma quiet_emit (e : Effect) :
  attempts [e] = [] -> quiet (emit e).
Proof.
  intros He w. simpl. rewrite attempts_app, He. apply List.app_nil_r.
Qed.

Lemma quiet_updateStore f : quiet (updateStore f).
Proof. intros w. reflexivity. Qed.

Lemma quiet_writeFileSync (path data : string) : quiet (writeFileSync path data).
Proof.
  intros w. unfold writeFileSync. destruct (writeError w path); [reflexivity |].
  now apply quiet_emit.
Qed.

Lemma quiet_createTerminal (name cwd : string) : quiet (createTerminal name cwd).
Proof.
  intros w. simpl. rewrite attempts_app. apply List.app_nil_r.
Qed.

#[export] Hint Resolve quiet_ret quiet_gets quiet_updateStore quiet_writeFileSync
  quiet_createTerminal : quiet.
#[export] Hint Extern 1 (quiet (bind _ _)) => apply quiet_bind; [| intros] : quiet.
#[export] Hint Extern 1 (quiet (tryCatch _ _)) =>
  apply quiet_tryCatch; [| intros] : quiet.
#[export] Hint Extern 2 (quiet (emit _)) => apply quiet_emit; reflexivity : quiet.
#[export] Hint Unfold appendLine showErrorMessage showInformationMessage show sendText
  fire : quiet.

Lemma quiet_findClaudeTerminal hint : quiet (QueueProcessor.findClaudeTerminal hint).
Proof.
  unfold QueueProcessor.findClaudeTerminal.
  apply quiet_bind; [auto with quiet | intros ts].
  apply quiet_bind; [auto with quiet | intros active].
  destruct (match hint with Some _ => _ | None => _ end); auto with quiet.
Qed.

Lemma quiet_resolveWorkspaceFolder item :
  quiet (QueueProcessor.resolveWorkspaceFolder item).
Proof.
  unfold QueueProcessor.resolveWorkspaceFolder.
  apply quiet_bind; [auto with quiet | intros folders].
  destruct folders as [[| first rest] |]; auto with quiet.
Qed.

#[export] Hint Resolve quiet_findClaudeTerminal quiet_resolveWorkspaceFolder : quiet.

(** Inside a delivery no further attempt is recorded. *)
Lemma quiet_deliver (item : QueueItem) : quiet (QueueProcessor.deliver item).
Proof.
  unfold QueueProcessor.deliver.
  apply quiet_bind; [auto with quiet | intros existing].
  apply quiet_bind.
  - destruct existing as [t |]; autounfold with quiet; auto 20 with quiet.
  - intros _. autounfold with quiet. auto 20 with quiet.
Qed.

Lemma quiet_deliveryFailed item err : quiet (QueueProcessor.deliveryFailed item err).
Proof.
  unfold QueueProcessor.deliveryFailed. autounfold with quiet. auto with quiet.
Qed.

Lemma total_deliveryFailed item err : total (QueueProcessor.deliveryFailed item err).
Proof. intros w. exists tt. reflexivity. Qed.

(** ** The loop of a tick, for any delivery method

    [for (const item of due) { try { await deliver(item) } catch (err) { ... } }]
    as the processors write it, with the delivery method and the catch block
    left open. *)
Section Tick.
Variable deliver : QueueItem -> M unit.
Variable handler : QueueItem -> string -> M unit.
Hypothesis deliver_quiet : forall item, quiet (deliver item).
Hypothesis handler_quiet : forall item err, quiet (handler item err).
Hypothesis handler_total : forall item err, total (handler item err).

(** One turn of the loop never throws and records exactly one attempt,
    whether the delivery returned or threw. *)
Lemma attempt_once (item : QueueItem) (w : World) :
  exists w',
    attempt deliver handler item w = (Ok tt, w') /\
    attempts (effects w') = (attempts (effects w) ++ [item])%list.
Proof.
  unfold attempt, tryCatch, call, bind.
  destruct (emit (DeliverCall item) w) as [r1 w1] eqn:E1.
  assert (H1 : r1 = Ok tt /\
               attempts (effects w1) = (attempts (effects w) ++ [item])%list).
  { unfold emit in E1. injection E1 as <- <-. simpl.
    now rewrite attempts_app. }
  destruct H1 as [-> H1].
  pose proof (deliver_quiet item w1) as Hd.
  destruct (deliver item w1) as [[[] | err] w2]; simpl in Hd.
  - exists w2. split; [reflexivity | congruence].
  - pose proof (handler_quiet item err w2) as Hq.
    destruct (handler_total item err w2) as [[] Ht].
    destruct (handler item err w2) as [r3 w3]; simpl in *. subst r3.
    exists w3. split; [reflexivity | congruence].
Qed.

Lemma tick_attempts (due : list QueueItem) :
  forall w, exists w',
    forOf due (attempt deliver handler) w = (Ok tt, w') /\
    attempts (effects w') = (attempts (effects w) ++ due)%list.
Proof.
  induction due as [| item due IH]; intros w.
  - exists w. split; [reflexivity |]. now rewrite List.app_nil_r.
  - destruct (attempt_once item w) as (w1 & E1 & H1).
    destruct (IH w1) as (w2 & E2 & H2).
    exists w2. split.
    + simpl. unfold bind. rewrite E1. exact E2.
    + rewrite H2, H1, <- List.app_assoc. reflexivity.
Qed.
End Tick.

Lemma process_run (w : World) :
  let pending := QueueStore.getPending (globalState w) in
  let due := QueueProcessor.dueItems w in
  QueueProcessor.process w
  = (appendLine ("[QueueProcessor] Tick: " ++ showNat (List.length pending)
                 ++ " pending, " ++ showNat (List.length due) ++ " overdue") >>
     if (List.length due =? 0)%nat then ret 0%nat
     else
       forOf due (attempt QueueProcessor.deliver QueueProcessor.deliveryFailed) >>
       fire >> ret (List.length due)) w.
Proof. reflexivity. Qed.

(** The tick after its first log line. *)
Lemma process_after_log (w : World) :
  exists w1,
    attempts (effects w1) = attempts (effects w) /\
    QueueProcessor.process w
    = (if (List.length (QueueProcessor.dueItems w) =? 0)%nat then ret 0%nat
       else
         forOf (QueueProcessor.dueItems w)
               (attempt QueueProcessor.deliver QueueProcessor.deliveryFailed) >>
         fire >> ret (List.length (QueueProcessor.dueItems w))) w1.
Proof.
  rewrite process_run. cbv zeta. unfold bind at 1.
  destruct (appendLine _ w) as [r w1] eqn:E.
  assert (Hq : attempts (effects w1) = attempts (effects w)).
  { change w1 with (snd (r, w1)). rewrite <- E. now apply quiet_emit. }
  unfold appendLine, emit in E. injection E as <- _.
  exists w1. split; [exact Hq | reflexivity].
Qed.

(** C8. In one tick every due item gets its delivery attempted, in store
    order, whatever the host does to each delivery: the attempts that
    [process] records are exactly the due items. *)
Theorem process_attempts_every_due_item (w : World) :
  attempts (effects (snd (QueueProcessor.process w)))
  = (attempts (effects w) ++ QueueProcessor.dueItems w)%list.
Proof.
  destruct (process_after_log w) as (w1 & H1 & ->).
  destruct (List.length (QueueProcessor.dueItems w) =? 0)%nat eqn:E.
  - apply Nat.eqb_eq in E. apply List.length_zero_iff_nil in E.
    rewrite E, List.app_nil_r. simpl. exact H1.
  - destruct (tick_attempts QueueProcessor.deliver QueueProcessor.deliveryFailed
                quiet_deliver quiet_deliveryFailed total_deliveryFailed
                (QueueProcessor.dueItems w) w1) as (w2 & E2 & H2).
    unfold bind. rewrite E2. simpl. rewrite attempts_app. simpl.
    rewrite List.app_nil_r, H2, H1. reflexivity.
Qed.

(** On [firstFails] the first delivery throws and the second goes through:
    both were attempted, the second item left the queue, the first stayed. *)
Example tick_continues_after_failure :
  let w := snd (QueueProcessor.process firstFails) in
  attempts (effects w) = [dueItem; secondItem] /\
  QueueStore.getAll (globalState w) = [dueItem] /\
  terminals w = [{| terminalId := 1; terminalName := "Claude" |}] /\
  In (ShowErrorMessage ("PromptQueue: failed to deliver prompt a1b2c3d4: "
                        ++ "Error: EACCES: permission denied, open")) (effects w) /\
  In (AppendLine "[QueueProcessor] Delivered deadbeef") (effects w).
Proof. vm_compute. intuition. Qed.

(** What [process] returns: the number of due items. *)
Lemma process_returns_due_length (w : World) :
  fst (QueueProcessor.process w) = Ok (List.length (QueueProcessor.dueItems w)).
Proof.
  destruct (process_after_log w) as (w1 & H1 & ->).
  destruct (List.length (QueueProcessor.dueItems w) =? 0)%nat eqn:E.
  - apply Nat.eqb_eq in E. rewrite E. reflexivity.
  - destruct (tick_attempts QueueProcessor.deliver QueueProcessor.deliveryFailed
                quiet_deliver quiet_deliveryFailed total_deliveryFailed
                (QueueProcessor.dueItems w) w1) as (w2 & E2 & H2).
    unfold bind. rewrite E2. reflexivity.
Qed.

Lemma find_none_all {A : Type} (f : A -> bool) (l : list A) :
  (forall x, In x l -> f x = false) -> List.find f l = None.
Proof.
  induction l as [| x l IH]; intros H; simpl; [reflexivity |].
  rewrite (H x (or_introl eq_refl)). apply IH. intros y Hy. apply H. now right.
Qed.

(** C10. Without a pending item of that id (no item has the id, or every
    item that has it is processed) [forceDeliver(id)] returns and leaves
    the world as it was: no delivery attempt, no change of the store, no
    notification. *)
Theorem forceDeliver_without_pending_item (w : World) (id0 : string) :
  (forall i, In i (QueueStore.getAll (globalState w)) ->
             id i = id0 -> processed i = true) ->
  QueueProcessor.forceDeliver id0 w = (Ok tt, w).
Proof.
  intros H. unfold QueueProcessor.forceDeliver, bind, gets.
  rewrite find_none_all; [reflexivity |].
  intros i Hin. destruct (String.eqb (id i) id0) eqn:E; [| reflexivity].
  apply String.eqb_eq in E. now rewrite (H i Hin E).
Qed.

Lemma forceDeliver_without_pending_item_witness :
  QueueProcessor.forceDeliver "a1b2c3d4" allProcessed = (Ok tt, allProcessed) /\
  QueueProcessor.forceDeliver "00000000" fullDisk = (Ok tt, fullDisk).
Proof.
  split.
  - apply (forceDeliver_without_pending_item allProcessed "a1b2c3d4").
    intros i Hin _. vm_compute in Hin. destruct Hin as [<- | []]. reflexivity.
  - apply (forceDeliver_without_pending_item fullDisk "00000000").
    intros i Hin Hid. vm_compute in Hin. destruct Hin as [<- | []]. discriminate.
Defined.

(** C1, at an input where the code departs from it.  On [fullDisk] one item
    is due, its delivery throws, the item stays pending and the user is shown
    the error; no delivery returned, and [process] returns 1. *)
Theorem process_counts_failed_delivery :
  QueueProcessor.dueItems fullDisk = [dueItem] /\
  fst (QueueProcessor.deliver dueItem fullDisk)
  = Throw "Error: ENOSPC: no space left on device, write" /\
  delivered (QueueProcessor.dueItems fullDisk)
            (snd (appendLine "[QueueProcessor] Tick: 1 pending, 1 overdue" fullDisk)) = 0%nat /\
  fst (QueueProcessor.process fullDisk) = Ok 1%nat /\
  QueueStore.getPending (globalState (snd (QueueProcessor.process fullDisk))) = [dueItem] /\
  effects (snd (QueueProcessor.process fullDisk))
  = [ AppendLine "[QueueProcessor] Tick: 1 pending, 1 overdue";
      DeliverCall dueItem;
      AppendLine "[QueueProcessor] No Claude terminal found, creating new session";
      AppendLine ("[QueueProcessor] Error delivering a1b2c3d4: "
                  ++ "Error: ENOSPC: no space left on device, write");
      ShowErrorMessage ("PromptQueue: failed to deliver prompt a1b2c3d4: "
                        ++ "Error: ENOSPC: no space left on device, write");
      Fire ].
Proof.
  repeat split; vm_compute; reflexivity.
Qed.

(* ================================================================== *)
(** * Further properties of the queue store *)

Lemma filter_filter_andb {A : Type} (f g : A -> bool) (l : list A) :
  List.filter f (List.filter g l) = List.filter (fun x => g x && f x) l.
Proof.
  induction l as [| x l IH]; simpl; [reflexivity |].
  destruct (g x); simpl; [destruct (f x) |]; now rewrite IH.
Qed.

Lemma filter_idem {A : Type} (f : A -> bool) (l : list A) :
  List.filter f (List.filter f l) = List.filter f l.
Proof.
  rewrite filter_filter_andb. apply List.filter_ext. intros x. now destruct (f x).
Qed.

Lemma filter_all {A : Type} (f : A -> bool) (l : list A) :
  (forall x, In x l -> f x = true) -> List.filter f l = l.
Proof.
  induction l as [| x l IH]; intros H; simpl; [reflexivity |].
  rewrite (H x (or_introl eq_refl)). f_equal. apply IH. intros y Hy. apply H. now right.
Qed.

Lemma getAll_add (state : gmap string (list QueueItem)) (item : QueueItem) :
  QueueStore.getAll (QueueStore.add state item)
  = (QueueStore.getAll state ++ [item])%list.
Proof. unfold QueueStore.add. apply getAll_update. Qed.

Lemma getAll_purgeProcessed (state : gmap string (list QueueItem)) :
  QueueStore.getAll (QueueStore.purgeProcessed state) = QueueStore.getPending state.
Proof. unfold QueueStore.purgeProcessed. apply getAll_update. Qed.

Lemma getAll_clear (state : gmap string (list QueueItem)) :
  QueueStore.getAll (QueueStore.clear state) = [].
Proof. unfold QueueStore.clear. apply getAll_update. Qed.

(** X1. Items added one after the other are read back by [getAll] after the
    items that were there, in the order of the calls and field by field as
    they were given; [getPending] gains those of them that are not
    processed. *)
Theorem adds_are_read_back (state : gmap string (list QueueItem))
        (items : list QueueItem) :
  let state' := List.fold_left QueueStore.add items state in
  QueueStore.getAll state' = (QueueStore.getAll state ++ items)%list /\
  QueueStore.getPending state'
  = (QueueStore.getPending state
     ++ List.filter (fun i => negb (processed i)) items)%list.
Proof.
  cbv zeta. revert state.
  induction items as [| item items IH]; intros state; simpl.
  - now rewrite !List.app_nil_r.
  - destruct (IH (QueueStore.add state item)) as [Hall Hpending].
    split.
    + rewrite Hall, getAll_add, <- List.app_assoc. reflexivity.
    + rewrite Hpending. unfold QueueStore.getPending at 1.
      rewrite getAll_add, List.filter_app, <- List.app_assoc.
      unfold QueueStore.getPending. simpl. now destruct (processed item).
Qed.

Lemma remove_one_of_unique (id0 : string) (l : list QueueItem) :
  List.NoDup (List.map id l) -> In id0 (List.map id l) ->
  S (List.length (List.filter (fun i => negb (String.eqb (id i) id0)) l))
  = List.length l.
Proof.
  induction l as [| x l IH]; intros Hnd Hin; simpl in *; [contradiction |].
  apply List.NoDup_cons_iff in Hnd. destruct Hnd as [Hx Hnd].
  destruct (String.eqb (id x) id0) eqn:E; simpl.
  - apply String.eqb_eq in E. f_equal. f_equal. apply filter_all.
    intros y Hy. apply negb_true_iff, String.eqb_neq. intros Heq.
    apply Hx. rewrite E, <- Heq. now apply List.in_map.
  - f_equal. apply IH; [exact Hnd |].
    destruct Hin as [Heq | Hin]; [| exact Hin].
    apply String.eqb_neq in E. contradiction.
Qed.

(** X2. After [remove(id)] the queue is the queue before without the items
    of that id: the items of other ids, all of them, in the order they had,
    and as often as they were there.  A second [remove(id)] changes nothing.
    Without an item of that id the contents are unchanged; when the ids are
    unique and the id is present, the queue is shorter by exactly one. *)
Theorem remove_removes_the_id (state : gmap string (list QueueItem)) (id0 : string) :
  let state' := QueueStore.remove state id0 in
  QueueStore.getAll state'
  = List.filter (fun i => negb (String.eqb (id i) id0)) (QueueStore.getAll state) /\
  (forall i, In i (QueueStore.getAll state')
             <-> In i (QueueStore.getAll state) /\ id i <> id0) /\
  QueueStore.remove state' id0 = state' /\
  (~ In id0 (List.map id (QueueStore.getAll state)) ->
   QueueStore.getAll state' = QueueStore.getAll state) /\
  (List.NoDup (List.map id (QueueStore.getAll state)) ->
   In id0 (List.map id (QueueStore.getAll state)) ->
   S (List.length (QueueStore.getAll state')) = List.length (QueueStore.getAll state)).
Proof.
  cbv zeta. split; [| split; [| split; [| split]]].
  - apply getAll_remove.
  - intros i. rewrite getAll_remove, List.filter_In, negb_true_iff, String.eqb_neq.
    reflexivity.
  - unfold QueueStore.remove at 1. rewrite getAll_remove, filter_idem.
    unfold QueueStore.remove, Memento.update. now rewrite insert_insert_eq.
  - intros Habsent. rewrite getAll_remove. apply filter_all.
    intros i Hin. apply negb_true_iff, String.eqb_neq. intros Heq.
    apply Habsent. rewrite <- Heq. now apply List.in_map.
  - intros Hnd Hin. rewrite getAll_remove. now apply remove_one_of_unique.
Qed.

Lemma remove_removes_the_id_witness :
  let state := QueueStore.add (QueueStore.add ∅ dueItem) secondItem in
  QueueStore.getAll (QueueStore.remove state "00000000") = [dueItem; secondItem] /\
  List.length (QueueStore.getAll (QueueStore.remove state "deadbeef")) = 1%nat.
Proof.
  intros state.
  destruct (remove_removes_the_id state "00000000") as (_ & _ & _ & Habsent & _).
  destruct (remove_removes_the_id state "deadbeef") as (_ & _ & _ & _ & Hone).
  split.
  - rewrite Habsent; [reflexivity |].
    vm_compute. intros [H | [H | []]]; discriminate.
  - apply eq_add_S. rewrite Hone; [reflexivity | | vm_compute; auto].
    vm_compute. repeat constructor; simpl; intuition discriminate.
Defined.

(** X3. [purgeProcessed()] leaves exactly the pending items, in their order:
    [getAll] afterwards is [getPending] before, [getPending] is unchanged,
    no processed item is left, and a second purge changes nothing. *)
Theorem purgeProcessed_keeps_pending (state : gmap string (list QueueItem)) :
  let state' := QueueStore.purgeProcessed state in
  QueueStore.getAll state' = QueueStore.getPending state /\
  QueueStore.getPending state' = QueueStore.getPending state /\
  (forall i, In i (QueueStore.getAll state') -> processed i = false) /\
  QueueStore.purgeProcessed state' = state'.
Proof.
  cbv zeta. split; [| split; [| split]].
  - apply getAll_purgeProcessed.
  - unfold QueueStore.getPending at 1. rewrite getAll_purgeProcessed.
    unfold QueueStore.getPending. apply filter_idem.
  - intros i. rewrite getAll_purgeProcessed. unfold QueueStore.getPending.
    rewrite List.filter_In, negb_true_iff. tauto.
  - unfold QueueStore.purgeProcessed at 1. rewrite getAll_purgeProcessed.
    unfold QueueStore.getPending. rewrite filter_idem.
    unfold QueueStore.purgeProcessed, Memento.update. now rewrite insert_insert_eq.
Qed.

Lemma filter_mark (id0 : string) (l : list QueueItem) :
  List.filter (fun i => negb (processed i))
    (List.map (fun i => if String.eqb (id i) id0 then setProcessed i else i) l)
  = List.filter (fun i => negb (String.eqb (id i) id0))
      (List.filter (fun i => negb (processed i)) l).
Proof.
  induction l as [| x l IH]; simpl; [reflexivity |].
  destruct (String.eqb (id x) id0) eqn:E; simpl.
  - destruct (processed x); simpl; rewrite ?E; simpl; exact IH.
  - destruct (processed x); simpl; rewrite ?E; simpl; now rewrite IH.
Qed.

(** X4. Once [markProcessed(id)] has run, no item of that id is pending, and
    the other pending items are as before, in their order: the pending queue
    is the one that [remove(id)] leaves, and purging after the mark gives the
    contents that removing the id from the pending items gives. *)
Theorem markProcessed_leaves_pending_queue (state : gmap string (list QueueItem))
        (id0 : string) :
  QueueStore.getPending (QueueStore.markProcessed state id0)
  = List.filter (fun i => negb (String.eqb (id i) id0)) (QueueStore.getPending state) /\
  QueueStore.getPending (QueueStore.markProcessed state id0)
  = QueueStore.getPending (QueueStore.remove state id0) /\
  QueueStore.getAll (QueueStore.purgeProcessed (QueueStore.markProcessed state id0))
  = QueueStore.getPending (QueueStore.remove state id0) /\
  (forall i, In i (QueueStore.getPending (QueueStore.markProcessed state id0)) ->
             id i <> id0).
Proof.
  assert (H1 : QueueStore.getPending (QueueStore.markProcessed state id0)
               = List.filter (fun i => negb (String.eqb (id i) id0))
                             (QueueStore.getPending state)).
  { unfold QueueStore.getPending. rewrite getAll_markProcessed. apply filter_mark. }
  assert (H2 : QueueStore.getPending (QueueStore.remove state id0)
               = List.filter (fun i => negb (String.eqb (id i) id0))
                             (QueueStore.getPending state)).
  { unfold QueueStore.getPending. rewrite getAll_remove, !filter_filter_andb.
    apply List.filter_ext. intros i. apply andb_comm. }
  split; [exact H1 | split; [congruence | split]].
  - rewrite getAll_purgeProcessed. congruence.
  - intros i. rewrite H1, List.filter_In, negb_true_iff, String.eqb_neq. tauto.
Qed.

(** X5. The store reads and writes one key of the Memento.  A Memento without
    that key reads as the empty queue, [clear()] leaves the empty queue, and
    every other key keeps its value through every operation of the store. *)
Theorem store_uses_one_key (state : gmap string (list QueueItem)) :
  (state !! STORAGE_KEY = None ->
   QueueStore.getAll state = [] /\ QueueStore.getPending state = []) /\
  QueueStore.getAll (QueueStore.clear state) = [] /\
  (forall key item id0, key <> STORAGE_KEY ->
     QueueStore.add state item !! key = state !! key /\
     QueueStore.markProcessed state id0 !! key = state !! key /\
     QueueStore.remove state id0 !! key = state !! key /\
     QueueStore.purgeProcessed state !! key = state !! key /\
     QueueStore.clear state !! key = state !! key).
Proof.
  split; [| split].
  - intros H. unfold QueueStore.getPending, QueueStore.getAll, Memento.get.
    rewrite H. split; reflexivity.
  - apply getAll_clear.
  - intros key item id0 Hkey.
    unfold QueueStore.add, QueueStore.markProcessed, QueueStore.remove,
      QueueStore.purgeProcessed, QueueStore.clear, Memento.update.
    repeat split; apply lookup_insert_ne; congruence.
Qed.

Lemma store_uses_one_key_witness :
  QueueStore.getAll (∅ : gmap string (list QueueItem)) = [] /\
  QueueStore.add (∅ : gmap string (list QueueItem)) dueItem !! "usage.cache" = None.
Proof.
  destruct (store_uses_one_key ∅) as (Hempty & _ & Hframe).
  split.
  - apply Hempty. reflexivity.
  - destruct (Hframe "usage.cache" dueItem EmptyString) as [-> _];
      [discriminate | reflexivity].
Defined.

Lemma NoDup_map_filter {A B : Type} (f : A -> B) (p : A -> bool) (l : list A) :
  List.NoDup (List.map f l) -> List.NoDup (List.map f (List.filter p l)).
Proof.
  induction l as [| x l IH]; intros H; simpl in *; [constructor |].
  apply List.NoDup_cons_iff in H. destruct H as [Hx Hnd].
  destruct (p x); simpl; [| now apply IH].
  constructor; [| now apply IH].
  intros Hin. apply Hx. apply List.in_map_iff in Hin.
  destruct Hin as (y & Hy & Hin). apply List.filter_In in Hin.
  apply List.in_map_iff. exists y. tauto.
Qed.

(** X6. Unique ids stay unique: when no two items of the queue share an id,
    this still holds after [markProcessed], [remove] and [purgeProcessed],
    and after [add] of an item whose id is not in the queue. *)
Theorem unique_ids_are_kept (state : gmap string (list QueueItem))
        (id0 : string) (item : QueueItem) :
  List.NoDup (List.map id (QueueStore.getAll state)) ->
  List.NoDup (List.map id (QueueStore.getAll (QueueStore.markProcessed state id0))) /\
  List.NoDup (List.map id (QueueStore.getAll (QueueStore.remove state id0))) /\
  List.NoDup (List.map id (QueueStore.getAll (QueueStore.purgeProcessed state))) /\
  (~ In (id item) (List.map id (QueueStore.getAll state)) ->
   List.NoDup (List.map id (QueueStore.getAll (QueueStore.add state item)))).
Proof.
  intros H. split; [| split; [| split]].
  - rewrite getAll_markProcessed, List.map_map.
    erewrite List.map_ext; [exact H |].
    intros i. simpl. destruct (String.eqb (id i) id0); reflexivity.
  - rewrite getAll_remove. now apply NoDup_map_filter.
  - rewrite getAll_purgeProcessed. now apply NoDup_map_filter.
  - intros Hfresh. rewrite getAll_add, List.map_app. simpl.
    apply List.NoDup_app; [exact H | |].
    + repeat constructor. intros [].
    + intros x Hx [<- | []]. contradiction.
Qed.

Lemma unique_ids_are_kept_witness :
  let state := QueueStore.add ∅ dueItem in
  List.NoDup (List.map id (QueueStore.getAll (QueueStore.add state secondItem))).
Proof.
  intros state.
  apply (unique_ids_are_kept state EmptyString secondItem).
  - vm_compute. repeat constructor. intros [].
  - vm_compute. intros [H | []]. discriminate.
Defined.

(* ================================================================== *)
(** * Further properties of the processor *)

Lemma logged_logged (w : World) (es1 es2 : list Effect) :
  logged (logged w es1) es2 = logged w (es1 ++ es2).
Proof. unfold logged. simpl. now rewrite List.app_assoc. Qed.

Lemma snoc_cons {A : Type} (l r : list A) (a b : A) :
  (l ++ a :: b :: r = (l ++ [a]) ++ b :: r)%list.
Proof. now rewrite <- List.app_assoc. Qed.

Lemma logged_nil (w : World) : logged w [] = w.
Proof. destruct w. unfold logged. simpl. now rewrite List.app_nil_r. Qed.

(** [findClaudeTerminal] and [resolveWorkspaceFolder] only read the world. *)
Lemma findClaudeTerminal_reads (hint : option string) (w : World) :
  exists o, QueueProcessor.findClaudeTerminal hint w = (Ok o, w).
Proof.
  unfold QueueProcessor.findClaudeTerminal, bind, gets.
  destruct (match hint with Some _ => _ | None => _ end); eexists; reflexivity.
Qed.

Lemma resolveWorkspaceFolder_reads (item : QueueItem) (w : World) :
  exists o, QueueProcessor.resolveWorkspaceFolder item w = (Ok o, w).
Proof.
  unfold QueueProcessor.resolveWorkspaceFolder, bind, gets.
  destruct (workspaceFolders w) as [[| first rest] |]; eexists; reflexivity.
Qed.

(** The three ways a delivery goes. *)
Lemma deliver_existing (item : QueueItem) (w : World) (t : Terminal) :
  QueueProcessor.findClaudeTerminal (targetTerminalName item) w = (Ok (Some t), w) ->
  QueueProcessor.deliver item w
  = (Ok tt,
     logged (stored w (QueueStore.remove (globalState w) (id item)))
       [ AppendLine ("[QueueProcessor] Sending to existing terminal " ++ quote
                     ++ terminalName t ++ quote);
         TerminalShow t true;
         TerminalSendText t (stripEsc (promptText item)) false;
         TerminalSendText t CR false;
         AppendLine ("[QueueProcessor] Delivered " ++ id item);
         ShowInformationMessage
           ("PromptQueue: Prompt sent to Claude  [id: " ++ id item ++ "]") ]).
Proof.
  intros H. unfold QueueProcessor.deliver. unfold bind at 1. rewrite H.
  unfold logged, stored. cbn [effects]. rewrite !snoc_cons. reflexivity.
Qed.

Lemma deliver_failed (item : QueueItem) (w : World) (err : string) :
  QueueProcessor.findClaudeTerminal (targetTerminalName item) w = (Ok None, w) ->
  writeError w (tmpFileOf w item) = Some err ->
  QueueProcessor.deliver item w
  = (Throw err,
     logged w [AppendLine "[QueueProcessor] No Claude terminal found, creating new session"]).
Proof.
  intros H Herr. unfold QueueProcessor.deliver. unfold bind at 1. rewrite H.
  destruct (resolveWorkspaceFolder_reads item
              (logged w [AppendLine "[QueueProcessor] No Claude terminal found, creating new session"]))
    as [folder Hfolder].
  unfold bind at 1. unfold bind at 1. unfold appendLine at 1, emit at 1.
  change {| globalState := globalState w; clock := clock w; terminals := terminals w;
            activeTerminal := activeTerminal w; workspaceFolders := workspaceFolders w;
            tmpdir := tmpdir w; homedir := homedir w; writeError := writeError w;
            effects := effects w ++
              [AppendLine "[QueueProcessor] No Claude terminal found, creating new session"] |}
    with (logged w [AppendLine "[QueueProcessor] No Claude terminal found, creating new session"]).
  unfold bind at 1. rewrite Hfolder.
  unfold bind at 1. unfold gets at 1. unfold bind at 1. unfold gets at 1.
  unfold bind at 1. unfold writeFileSync at 1.
  change (writeError (logged w _)) with (writeError w).
  change (tmpdir (logged w _)) with (tmpdir w).
  unfold tmpFileOf in Herr. rewrite Herr. reflexivity.
Qed.

Lemma deliver_created (item : QueueItem) (w : World) :
  QueueProcessor.findClaudeTerminal (targetTerminalName item) w = (Ok None, w) ->
  writeError w (tmpFileOf w item) = None ->
  exists cwd : string,
    let t := {| terminalId := S (list_max (List.map terminalId (terminals w)));
                terminalName := "Claude" |} in
    QueueProcessor.deliver item w
    = (Ok tt,
       logged (opened (stored w (QueueStore.remove (globalState w) (id item))) t)
         [ AppendLine "[QueueProcessor] No Claude terminal found, creating new session";
           WriteFileSync (tmpFileOf w item) (promptText item);
           CreateTerminal t cwd;
           TerminalShow t true;
           TerminalSendText t
             ("claude " ++ quote ++ "$(cat '" ++ tmpFileOf w item ++ "')" ++ quote
              ++ " ; rm -f '" ++ tmpFileOf w item ++ "'") true;
           AppendLine ("[QueueProcessor] Delivered " ++ id item);
           ShowInformationMessage
             ("PromptQueue: Prompt sent to Claude  [id: " ++ id item ++ "]") ]).
Proof.
  intros H Herr. unfold QueueProcessor.deliver. unfold bind at 1. rewrite H.
  destruct (resolveWorkspaceFolder_reads item
              (logged w [AppendLine "[QueueProcessor] No Claude terminal found, creating new session"]))
    as [folder Hfolder].
  exists (default (homedir w) folder). cbv zeta.
  unfold bind at 1. unfold bind at 1. unfold appendLine at 1, emit at 1.
  change {| globalState := globalState w; clock := clock w; terminals := terminals w;
            activeTerminal := activeTerminal w; workspaceFolders := workspaceFolders w;
            tmpdir := tmpdir w; homedir := homedir w; writeError := writeError w;
            effects := effects w ++
              [AppendLine "[QueueProcessor] No Claude terminal found, creating new session"] |}
    with (logged w [AppendLine "[QueueProcessor] No Claude terminal found, creating new session"]).
  unfold bind at 1. rewrite Hfolder.
  unfold bind at 1. unfold gets at 1. unfold bind at 1. unfold gets at 1.
  unfold bind at 1. unfold writeFileSync at 1.
  change (writeError (logged w _)) with (writeError w).
  change (tmpdir (logged w _)) with (tmpdir w).
  unfold tmpFileOf in Herr. rewrite Herr.
  unfold logged, stored, opened, tmpFileOf.
  cbn [effects globalState clock terminals activeTerminal workspaceFolders tmpdir
       homedir writeError].
  rewrite !snoc_cons. reflexivity.
Qed.

Lemma findClaudeTerminal_frame (hint : option string) (w w' : World)
      (o : option Terminal) :
  terminals w' = terminals w -> activeTerminal w' = activeTerminal w ->
  QueueProcessor.findClaudeTerminal hint w = (Ok o, w) ->
  QueueProcessor.findClaudeTerminal hint w' = (Ok o, w').
Proof.
  intros Ht Ha. unfold QueueProcessor.findClaudeTerminal, bind, gets.
  rewrite Ht, Ha.
  destruct (match hint with Some _ => _ | None => _ end); intros [= <-]; reflexivity.
Qed.

Lemma turn_unfold (w : World) (item : QueueItem) :
  turn w item
  = snd (match QueueProcessor.deliver item (logged w [DeliverCall item]) with
         | (Ok a, w') => (Ok a, w')
         | (Throw err, w') => QueueProcessor.deliveryFailed item err w'
         end).
Proof. reflexivity. Qed.

(** One turn of the loop of [process], by cases. *)
Lemma turn_cases (w : World) (item : QueueItem) :
  (exists t,
      QueueProcessor.findClaudeTerminal (targetTerminalName item) w = (Ok (Some t), w) /\
      turn w item
      = logged (stored w (QueueStore.remove (globalState w) (id item)))
               (sentTrace item t)) \/
  (QueueProcessor.findClaudeTerminal (targetTerminalName item) w = (Ok None, w) /\
   writeError w (tmpFileOf w item) = None /\
   exists cwd,
     turn w item
     = logged (opened (stored w (QueueStore.remove (globalState w) (id item)))
                      (nextTerminal w))
              (createdTrace w item cwd)) \/
  (QueueProcessor.findClaudeTerminal (targetTerminalName item) w = (Ok None, w) /\
   exists err,
     writeError w (tmpFileOf w item) = Some err /\
     turn w item = logged w (failedTrace item err)).
Proof.
  destruct (findClaudeTerminal_reads (targetTerminalName item) w) as [o Ho].
  pose proof (findClaudeTerminal_frame (targetTerminalName item) w
                (logged w [DeliverCall item]) o eq_refl eq_refl Ho) as Ho'.
  rewrite turn_unfold.
  destruct o as [t |].
  - left. exists t. split; [exact Ho |].
    rewrite (deliver_existing item _ t Ho'). cbn [snd].
    unfold logged, stored, sentTrace.
    cbn [effects globalState clock terminals activeTerminal workspaceFolders tmpdir
         homedir writeError].
    rewrite <- List.app_assoc. reflexivity.
  - destruct (writeError w (tmpFileOf w item)) as [err |] eqn:Herr.
    + right. right. split; [exact Ho |]. exists err. split; [reflexivity |].
      rewrite (deliver_failed item (logged w [DeliverCall item]) err Ho' Herr).
      unfold QueueProcessor.deliveryFailed, bind, appendLine, showErrorMessage, emit.
      unfold logged, failedTrace.
      cbn [snd effects globalState clock terminals activeTerminal workspaceFolders
           tmpdir homedir writeError].
      rewrite <- !List.app_assoc. reflexivity.
    + right. left. split; [exact Ho |]. split; [reflexivity |].
      destruct (deliver_created item (logged w [DeliverCall item]) Ho' Herr)
        as [cwd Hrun].
      exists cwd. cbv zeta in Hrun. rewrite Hrun. cbn [snd].
      unfold logged, stored, opened, createdTrace, nextTerminal, tmpFileOf.
      cbn [effects globalState clock terminals activeTerminal workspaceFolders tmpdir
           homedir writeError].
      rewrite <- List.app_assoc. reflexivity.
Qed.

Lemma attempt_returns (w : World) (item : QueueItem) :
  attempt QueueProcessor.deliver QueueProcessor.deliveryFailed item w
  = (Ok tt, turn w item).
Proof.
  destruct (attempt_once QueueProcessor.deliver QueueProcessor.deliveryFailed
              quiet_deliver quiet_deliveryFailed total_deliveryFailed item w)
    as (w' & E & _).
  unfold turn. rewrite E. reflexivity.
Qed.

Lemma forOf_turns (due : list QueueItem) (w : World) :
  forOf due (attempt QueueProcessor.deliver QueueProcessor.deliveryFailed) w
  = (Ok tt, List.fold_left turn due w).
Proof.
  revert w. induction due as [| item due IH]; intros w; [reflexivity |].
  simpl. unfold bind. rewrite attempt_returns. apply IH.
Qed.

(** A tick with due items: the log line, one turn per due item, the
    notification, and the number of due items as the result. *)
Lemma process_turns (w : World) :
  QueueProcessor.dueItems w <> [] ->
  QueueProcessor.process w
  = (Ok (List.length (QueueProcessor.dueItems w)),
     logged (List.fold_left turn (QueueProcessor.dueItems w) (logged w [tickLine w]))
            [Fire]).
Proof.
  intros Hdue. rewrite process_run. cbv zeta.
  destruct (List.length (QueueProcessor.dueItems w) =? 0)%nat eqn:E.
  { apply Nat.eqb_eq, List.length_zero_iff_nil in E. contradiction. }
  unfold bind at 1. unfold appendLine at 1, emit at 1.
  change {| globalState := globalState w; clock := clock w; terminals := terminals w;
            activeTerminal := activeTerminal w; workspaceFolders := workspaceFolders w;
            tmpdir := tmpdir w; homedir := homedir w; writeError := writeError w;
            effects := effects w ++ _ |}
    with (logged w [tickLine w]).
  unfold bind at 1. rewrite forOf_turns. reflexivity.
Qed.

(** The trace of a run of turns, with a property of each effect. *)
Lemma turns_trace (Q : Effect -> Prop) :
  (forall item t, Forall Q (sentTrace item t)) ->
  (forall w item cwd, Forall Q (createdTrace w item cwd)) ->
  (forall item err, Forall Q (failedTrace item err)) ->
  forall due w, exists es,
    effects (List.fold_left turn due w) = (effects w ++ es)%list /\ Forall Q es.
Proof.
  intros Hs Hc Hf due.
  induction due as [| item due IH]; intros w; simpl.
  - exists []. split; [now rewrite List.app_nil_r | constructor].
  - destruct (IH (turn w item)) as (es & Hes & HQ).
    assert (Hturn : exists es1, effects (turn w item) = (effects w ++ es1)%list /\
                                Forall Q es1).
    { destruct (turn_cases w item)
        as [(t & _ & ->) | [(_ & _ & cwd & ->) | (_ & err & _ & ->)]];
        eexists; (split; [reflexivity | auto]). }
    destruct Hturn as (es1 & Hes1 & HQ1).
    exists (es1 ++ es)%list. split.
    + rewrite Hes, Hes1, List.app_assoc. reflexivity.
    + apply Forall_app. split; assumption.
Qed.

Lemma count_Forall_false (p : Effect -> bool) (es : list Effect) :
  Forall (fun e => p e = false) es -> count p es = 0%nat.
Proof.
  unfold count. induction 1 as [| e es He _ IH]; simpl; [reflexivity |].
  now rewrite He.
Qed.

Lemma count_app (p : Effect -> bool) (es1 es2 : list Effect) :
  count p (es1 ++ es2) = (count p es1 + count p es2)%nat.
Proof. unfold count. now rewrite List.filter_app, List.length_app. Qed.

Lemma idle_tick_run (w : World) :
  QueueProcessor.dueItems w = [] ->
  QueueProcessor.process w = (Ok 0%nat, logged w [tickLine w]).
Proof.
  intros H. rewrite process_run. cbv zeta. unfold tickLine. rewrite H. reflexivity.
Qed.

(** X7. A tick without due items returns 0 and does nothing but write its
    log line: the store, the terminals and the files are untouched and no
    change notification is fired. *)
Theorem idle_tick (w : World) :
  QueueProcessor.dueItems w = [] ->
  QueueProcessor.process w = (Ok 0%nat, logged w [tickLine w]).
Proof. exact (idle_tick_run w). Qed.

Lemma idle_tick_witness :
  QueueProcessor.process allProcessed
  = (Ok 0%nat,
     logged allProcessed [AppendLine "[QueueProcessor] Tick: 0 pending, 0 overdue"]).
Proof.
  apply (idle_tick allProcessed). vm_compute. reflexivity.
Defined.

(** X8. A tick with due items never throws, returns their number, and fires
    the change notification exactly once, as its last effect, whether the
    deliveries went through or not. *)
Theorem busy_tick_fires_once (w : World) :
  QueueProcessor.dueItems w <> [] ->
  exists es,
    fst (QueueProcessor.process w) = Ok (List.length (QueueProcessor.dueItems w)) /\
    effects (snd (QueueProcessor.process w)) = (effects w ++ es ++ [Fire])%list /\
    count isFire es = 0%nat.
Proof.
  intros Hdue. rewrite (process_turns w Hdue). cbn [fst snd].
  destruct (turns_trace (fun e => isFire e = false)
              ltac:(intros; repeat constructor)
              ltac:(intros; repeat constructor)
              ltac:(intros; repeat constructor)
              (QueueProcessor.dueItems w) (logged w [tickLine w]))
    as (es & Hes & HQ).
  exists (tickLine w :: es). split; [reflexivity | split].
  - unfold logged at 1. cbn [effects]. rewrite Hes. unfold logged. cbn [effects].
    rewrite <- !List.app_assoc. reflexivity.
  - change (tickLine w :: es) with ([tickLine w] ++ es)%list.
    rewrite count_app, (count_Forall_false _ _ HQ). reflexivity.
Qed.

Lemma busy_tick_fires_once_witness :
  exists es,
    fst (QueueProcessor.process fullDisk) = Ok 1%nat /\
    effects (snd (QueueProcessor.process fullDisk)) = (es ++ [Fire])%list /\
    count isFire es = 0%nat.
Proof.
  destruct (busy_tick_fires_once fullDisk ltac:(vm_compute; discriminate))
    as (es & Hr & He & Hc).
  exists es. split; [exact Hr | split; [exact He | exact Hc]].
Defined.

Lemma globalState_logged (w : World) (es : list Effect) :
  globalState (logged w es) = globalState w.
Proof. reflexivity. Qed.

Lemma filter_idNotIn_cons (x : string) (r : list string) (l : list QueueItem) :
  List.filter (idNotIn r) (List.filter (fun i => negb (String.eqb (id i) x)) l)
  = List.filter (idNotIn (x :: r)) l.
Proof.
  rewrite filter_filter_andb. apply List.filter_ext. intros i.
  unfold idNotIn. simpl. now rewrite negb_orb.
Qed.

Lemma filter_idNotIn_nil (l : list QueueItem) : List.filter (idNotIn []) l = l.
Proof. apply filter_all. reflexivity. Qed.

(** The store after a run of turns: the items of some ids are gone, all of
    them ids of items of the run. *)
Lemma turns_store (due : list QueueItem) :
  forall w, exists removed,
    incl removed (List.map id due) /\
    QueueStore.getAll (globalState (List.fold_left turn due w))
    = List.filter (idNotIn removed) (QueueStore.getAll (globalState w)).
Proof.
  induction due as [| item due IH]; intros w; simpl.
  - exists []. split; [apply List.incl_refl | now rewrite filter_idNotIn_nil].
  - destruct (IH (turn w item)) as (removed & Hincl & Hall).
    destruct (turn_cases w item)
      as [(t & _ & Ht) | [(_ & _ & cwd & Ht) | (_ & err & _ & Ht)]];
      rewrite Hall, Ht; cbn [globalState logged stored opened].
    + exists (id item :: removed). split.
      * intros x [<- | Hx]; [now left | right; now apply Hincl].
      * rewrite getAll_remove. apply filter_idNotIn_cons.
    + exists (id item :: removed). split.
      * intros x [<- | Hx]; [now left | right; now apply Hincl].
      * rewrite getAll_remove. apply filter_idNotIn_cons.
    + exists removed. split; [| reflexivity].
      intros x Hx. right. now apply Hincl.
Qed.

(** X9. A tick only takes items out of the queue, and only items that carry
    the id of a due item: the queue afterwards is the queue before without
    the items of some ids, each the id of a due item, in the same order.
    An item that is not due and shares no id with a due item is never lost,
    and nothing is ever added. *)
Theorem tick_only_removes_due_ids (w : World) :
  exists removed,
    incl removed (List.map id (QueueProcessor.dueItems w)) /\
    QueueStore.getAll (globalState (snd (QueueProcessor.process w)))
    = List.filter (idNotIn removed) (QueueStore.getAll (globalState w)).
Proof.
  destruct (QueueProcessor.dueItems w) as [| item due] eqn:Hdue.
  - exists []. split; [apply List.incl_refl |].
    rewrite (idle_tick_run w Hdue), filter_idNotIn_nil. reflexivity.
  - assert (Hne : QueueProcessor.dueItems w <> []) by (rewrite Hdue; discriminate).
    rewrite (process_turns w Hne). cbn [snd]. rewrite globalState_logged, Hdue.
    destruct (turns_store (item :: due) (logged w [tickLine w]))
      as (removed & Hincl & Hall).
    exists removed. split; [exact Hincl | exact Hall].
Qed.

Lemma find_some_first {A : Type} (f : A -> bool) (l : list A) (x : A) :
  In x l -> f x = true -> exists y, List.find f l = Some y.
Proof.
  intros Hin Hf. destruct (List.find f l) as [y |] eqn:E; [eauto |].
  pose proof (List.find_none f l E x Hin) as H. congruence.
Qed.

(** A terminal named 'Claude' is found whatever the hint. *)
Lemma findClaudeTerminal_with_Claude (hint : option string) (w : World) (t : Terminal) :
  In t (terminals w) -> terminalName t = "Claude" ->
  exists t', QueueProcessor.findClaudeTerminal hint w = (Ok (Some t'), w).
Proof.
  intros Hin Hname. unfold QueueProcessor.findClaudeTerminal, bind, gets.
  destruct (match hint with Some _ => _ | None => _ end) as [t1 |];
    [eexists; reflexivity |].
  destruct (find_some_first (fun t => String.eqb (terminalName t) "Claude")
              (terminals w) t Hin) as [y Hy].
  { rewrite Hname. reflexivity. }
  rewrite Hy. eexists. reflexivity.
Qed.

Lemma turns_terminals (due : list QueueItem) :
  forall w, exists es,
    effects (List.fold_left turn due w) = (effects w ++ es)%list /\
    ((terminals (List.fold_left turn due w) = terminals w /\
      count isCreateTerminal es = 0%nat) \/
     (terminals (List.fold_left turn due w) = (terminals w ++ [nextTerminal w])%list /\
      count isCreateTerminal es = 1%nat)).
Proof.
  induction due as [| item due IH]; intros w; simpl.
  - exists []. split; [now rewrite List.app_nil_r | left; split; reflexivity].
  - destruct (turn_cases w item)
      as [(t & _ & Ht) | [(Hnone & _ & cwd & Ht) | (_ & err & _ & Ht)]].
    + destruct (IH (turn w item)) as (es & Hes & Hcases).
      rewrite Ht in Hes, Hcases. cbn [effects terminals logged stored] in Hes, Hcases.
      exists (sentTrace item t ++ es)%list. rewrite Ht. split.
      * rewrite Hes, List.app_assoc. reflexivity.
      * rewrite count_app. exact Hcases.
    + (* the terminal is created here; the later turns find it *)
      assert (Hlater : forall rest v,
                 (exists t, In t (terminals v) /\ terminalName t = "Claude") ->
                 exists es,
                   effects (List.fold_left turn rest v) = (effects v ++ es)%list /\
                   terminals (List.fold_left turn rest v) = terminals v /\
                   count isCreateTerminal es = 0%nat).
      { clear. induction rest as [| item rest IH]; intros v Hv; simpl.
        - exists []. now rewrite List.app_nil_r.
        - destruct Hv as (t & Hin & Hname).
          destruct (findClaudeTerminal_with_Claude (targetTerminalName item) v t
                      Hin Hname) as [t' Hfind].
          destruct (turn_cases v item)
            as [(t1 & _ & Ht) | [(Hnone & _) | (Hnone & _)]];
            [| congruence | congruence].
          destruct (IH (turn v item)) as (es & Hes & Hterm & Hcount).
          { rewrite Ht. exists t. split; [exact Hin | exact Hname]. }
          rewrite Ht in Hes, Hterm. cbn [effects terminals logged stored] in Hes, Hterm.
          exists (sentTrace item t1 ++ es)%list. rewrite Ht. split; [| split].
          + rewrite Hes, List.app_assoc. reflexivity.
          + exact Hterm.
          + rewrite count_app, Hcount. reflexivity. }
      destruct (Hlater due (turn w item)) as (es & Hes & Hterm & Hcount).
      { rewrite Ht. exists (nextTerminal w). split; [| reflexivity].
        cbn [terminals logged opened stored]. apply List.in_or_app. right. now left. }
      rewrite Ht in Hes, Hterm.
      cbn [effects terminals logged stored opened] in Hes, Hterm.
      exists (createdTrace w item cwd ++ es)%list. rewrite Ht. split.
      * rewrite Hes, List.app_assoc. reflexivity.
      * right. split; [exact Hterm |]. rewrite count_app, Hcount. reflexivity.
    + destruct (IH (turn w item)) as (es & Hes & Hcases).
      rewrite Ht in Hes, Hcases. cbn [effects terminals logged] in Hes, Hcases.
      exists (failedTrace item err ++ es)%list. rewrite Ht. split.
      * rewrite Hes, List.app_assoc. reflexivity.
      * rewrite count_app. exact Hcases.
Qed.

(** X10. A tick opens at most one terminal: it leaves the terminals as they
    were, or with one new terminal named 'Claude' at the end; later
    deliveries of the same tick go to a terminal that exists. *)
Theorem tick_opens_at_most_one_terminal (w : World) :
  exists es,
    effects (snd (QueueProcessor.process w)) = (effects w ++ es)%list /\
    ((terminals (snd (QueueProcessor.process w)) = terminals w /\
      count isCreateTerminal es = 0%nat) \/
     (terminals (snd (QueueProcessor.process w))
      = (terminals w ++ [nextTerminal w])%list /\
      count isCreateTerminal es = 1%nat)).
Proof.
  destruct (QueueProcessor.dueItems w) as [| item due] eqn:Hdue.
  - rewrite (idle_tick_run w Hdue). cbn [snd]. exists [tickLine w].
    split; [reflexivity | left; split; reflexivity].
  - assert (Hne : QueueProcessor.dueItems w <> []) by (rewrite Hdue; discriminate).
    rewrite (process_turns w Hne). cbn [snd]. rewrite Hdue.
    destruct (turns_terminals (item :: due) (logged w [tickLine w]))
      as (es & Hes & Hcases).
    exists (tickLine w :: es ++ [Fire])%list. split.
    + unfold logged at 1. cbn [effects]. rewrite Hes. unfold logged. cbn [effects].
      rewrite <- !List.app_assoc. reflexivity.
    + change (tickLine w :: es ++ [Fire])%list
        with ([tickLine w] ++ es ++ [Fire])%list.
      rewrite !count_app. cbn [terminals logged] in *.
      destruct Hcases as [[Ht Hc] | [Ht Hc]]; [left | right];
        (split; [exact Ht | rewrite Hc; reflexivity]).
Qed.

Lemma includes_claude_Claude (s : string) :
  s = "Claude" -> includes "claude" (toLowerCase s) = true.
Proof. intros ->. reflexivity. Qed.

(** With a reachable terminal, a terminal is found whatever the hint. *)
Lemma findClaudeTerminal_reachable (hint : option string) (w : World) :
  reachable w ->
  exists t, QueueProcessor.findClaudeTerminal hint w = (Ok (Some t), w).
Proof.
  intros Hr. unfold QueueProcessor.findClaudeTerminal, bind, gets.
  destruct (match hint with Some _ => _ | None => _ end) as [t1 |];
    [eexists; reflexivity |].
  destruct (List.find (fun t => String.eqb (terminalName t) "Claude") (terminals w))
    as [t2 |]; [eexists; reflexivity |].
  destruct Hr as [(t & Hin & Hinc) | Hactive].
  - destruct (find_some_first
                (fun t => includes "claude" (toLowerCase (terminalName t)))
                (terminals w) t Hin Hinc) as [y Hy].
    rewrite Hy. eexists. reflexivity.
  - destruct (List.find _ (terminals w)) as [t3 |]; [eexists; reflexivity |].
    destruct (activeTerminal w) as [t4 |]; [eexists; reflexivity | contradiction].
Qed.

Lemma call_deliver_run (w : World) (item : QueueItem) :
  call QueueProcessor.deliver item w
  = QueueProcessor.deliver item (logged w [DeliverCall item]).
Proof. reflexivity. Qed.

Lemma turns_reachable (due : list QueueItem) :
  forall w, reachable w ->
    let w' := List.fold_left turn due w in
    QueueStore.getAll (globalState w')
    = List.filter (idNotIn (List.map id due)) (QueueStore.getAll (globalState w)) /\
    terminals w' = terminals w /\
    delivered due w = List.length due /\
    exists es,
      effects w' = (effects w ++ es)%list /\
      Forall (fun e => isShowErrorMessage e = false /\ isWriteFileSync e = false /\
                       isCreateTerminal e = false) es.
Proof.
  induction due as [| item due IH]; intros w Hr; cbn zeta; simpl.
  - rewrite filter_idNotIn_nil. repeat split. exists []. split; [| constructor].
    now rewrite List.app_nil_r.
  - destruct (findClaudeTerminal_reachable (targetTerminalName item) w Hr) as [t Hfind].
    destruct (turn_cases w item)
      as [(t1 & _ & Ht) | [(Hnone & _) | (Hnone & _)]]; [| congruence | congruence].
    assert (Hr' : reachable (turn w item)) by (rewrite Ht; exact Hr).
    destruct (IH (turn w item) Hr') as (Hall & Hterm & Hdel & es & Hes & HQ).
    cbv zeta in Hall, Hterm, Hes.
    pose proof (findClaudeTerminal_frame (targetTerminalName item) w
                  (logged w [DeliverCall item]) (Some t) eq_refl eq_refl Hfind) as Hf'.
    assert (Hcall : call QueueProcessor.deliver item w = (Ok tt, turn w item)).
    { rewrite call_deliver_run, (deliver_existing item _ t Hf').
      rewrite turn_unfold, (deliver_existing item _ t Hf'). reflexivity. }
    rewrite Hcall, Hdel.
    split; [| split; [| split; [reflexivity |]]].
    + rewrite Hall, Ht. cbn [globalState logged stored].
      rewrite getAll_remove. apply filter_idNotIn_cons.
    + rewrite Hterm, Ht. reflexivity.
    + exists (sentTrace item t1 ++ es)%list. split.
      * rewrite Hes, Ht. cbn [effects logged stored].
        rewrite List.app_assoc. reflexivity.
      * apply Forall_app. split; [| exact HQ]. repeat constructor.
Qed.

(** X11. When a terminal can be reached (one has 'claude' in its name, or
    one is active), a tick delivers every due item: the queue afterwards is
    the queue without the items that carry the id of a due item, the number
    that [process] returns is the number of deliveries that went through, no
    error is shown, no file is written and no terminal is opened. *)
Theorem tick_delivers_all_when_reachable (w : World) :
  reachable w ->
  let w' := snd (QueueProcessor.process w) in
  QueueStore.getAll (globalState w')
  = List.filter (idNotIn (List.map id (QueueProcessor.dueItems w)))
                (QueueStore.getAll (globalState w)) /\
  terminals w' = terminals w /\
  fst (QueueProcessor.process w)
  = Ok (delivered (QueueProcessor.dueItems w) (logged w [tickLine w])) /\
  exists es,
    effects w' = (effects w ++ es)%list /\
    count isShowErrorMessage es = 0%nat /\
    count isWriteFileSync es = 0%nat /\
    count isCreateTerminal es = 0%nat.
Proof.
  intros Hr. cbv zeta.
  destruct (QueueProcessor.dueItems w) as [| item due] eqn:Hdue.
  - rewrite (idle_tick_run w Hdue). cbn [fst snd]. rewrite filter_idNotIn_nil.
    repeat split. exists [tickLine w]. repeat split.
  - assert (Hne : QueueProcessor.dueItems w <> []) by (rewrite Hdue; discriminate).
    rewrite (process_turns w Hne). cbn [fst snd]. rewrite Hdue.
    destruct (turns_reachable (item :: due) (logged w [tickLine w]) Hr)
      as (Hall & Hterm & Hdel & es & Hes & HQ).
    cbv zeta in Hall, Hterm, Hes.
    rewrite globalState_logged.
    split; [exact Hall | split; [exact Hterm | split; [now rewrite Hdel |]]].
    exists (tickLine w :: es ++ [Fire])%list. split.
    + unfold logged at 1. cbn [effects]. rewrite Hes. unfold logged. cbn [effects].
      rewrite <- !List.app_assoc. reflexivity.
    + change (tickLine w :: es ++ [Fire])%list
        with ([tickLine w] ++ es ++ [Fire])%list.
      rewrite !count_app.
      rewrite (count_Forall_false isShowErrorMessage es),
              (count_Forall_false isWriteFileSync es),
              (count_Forall_false isCreateTerminal es);
        [repeat split | | |];
        (revert HQ; apply List.Forall_impl; intros e; tauto).
Qed.

Lemma tick_delivers_all_when_reachable_witness :
  QueueStore.getAll (globalState (snd (QueueProcessor.process sessionOpen))) = [] /\
  fst (QueueProcessor.process sessionOpen) = Ok 2%nat.
Proof.
  assert (Hr : reachable sessionOpen).
  { left. exists {| terminalId := 2; terminalName := "Claude Code" |}.
    split; [right; left; reflexivity | reflexivity]. }
  destruct (tick_delivers_all_when_reachable sessionOpen Hr) as (Hall & _ & Hret & _).
  split.
  - rewrite Hall. reflexivity.
  - rewrite Hret. reflexivity.
Defined.

(** X12. A delivery throws exactly when no terminal is found and the
    temporary file cannot be written, with the error of the write; then the
    queue and the terminals are as before, so the item stays pending for the
    next tick.  A delivery that returns has removed the items of that id from
    the queue. *)
Theorem deliver_outcome (item : QueueItem) (w : World) :
  (forall err,
      fst (QueueProcessor.deliver item w) = Throw err <->
      QueueProcessor.findClaudeTerminal (targetTerminalName item) w = (Ok None, w) /\
      writeError w (tmpFileOf w item) = Some err) /\
  (forall err,
      fst (QueueProcessor.deliver item w) = Throw err ->
      globalState (snd (QueueProcessor.deliver item w)) = globalState w /\
      terminals (snd (QueueProcessor.deliver item w)) = terminals w) /\
  (fst (QueueProcessor.deliver item w) = Ok tt ->
   QueueStore.getAll (globalState (snd (QueueProcessor.deliver item w)))
   = List.filter (fun i => negb (String.eqb (id i) (id item)))
                 (QueueStore.getAll (globalState w))).
Proof.
  destruct (findClaudeTerminal_reads (targetTerminalName item) w) as [[t |] Hfind].
  - rewrite (deliver_existing item w t Hfind). cbn [fst snd].
    split; [| split].
    + intros err. split; [discriminate | intros [H _]; congruence].
    + discriminate.
    + intros _. cbn [globalState logged stored]. apply getAll_remove.
  - destruct (writeError w (tmpFileOf w item)) as [err0 |] eqn:Herr.
    + rewrite (deliver_failed item w err0 Hfind Herr). cbn [fst snd].
      split; [| split].
      * intros err. split.
        -- intros [= <-]. split; [exact Hfind | reflexivity].
        -- intros [_ [= <-]]. reflexivity.
      * intros err _. split; reflexivity.
      * discriminate.
    + destruct (deliver_created item w Hfind Herr) as [cwd Hrun].
      cbv zeta in Hrun. rewrite Hrun. cbn [fst snd].
      split; [| split].
      * intros err. split; [discriminate | intros [_ H]; discriminate].
      * discriminate.
      * intros _. cbn [globalState logged stored opened]. apply getAll_remove.
Qed.

Lemma deliver_outcome_witness :
  globalState (snd (QueueProcessor.deliver dueItem fullDisk)) = globalState fullDisk /\
  QueueStore.getAll (globalState (snd (QueueProcessor.deliver dueItem sessionOpen)))
  = [secondItem].
Proof.
  destruct (deliver_outcome dueItem fullDisk) as (_ & Hthrow & _).
  destruct (deliver_outcome dueItem sessionOpen) as (_ & _ & Hok).
  split.
  - apply (Hthrow "Error: ENOSPC: no space left on device, write"). reflexivity.
  - rewrite Hok; reflexivity.
Defined.

(** X13. [findClaudeTerminal] only reads the world, and answers by priority.
    It finds nothing exactly when no terminal is active, no terminal has
    'claude' in its name (whatever the case) and none carries the name of a
    non-empty hint.  What it finds is an open terminal or the active one.
    A terminal named by the hint wins; failing that, a terminal named
    exactly 'Claude' wins. *)
Theorem findClaudeTerminal_priority (hint : option string) (w : World) :
  exists o,
    QueueProcessor.findClaudeTerminal hint w = (Ok o, w) /\
    (o = None <->
     activeTerminal w = None /\
     forall t, In t (terminals w) ->
               includes "claude" (toLowerCase (terminalName t)) = false /\
               (forall h, hint = Some h -> h <> EmptyString -> terminalName t <> h)) /\
    (forall t, o = Some t -> In t (terminals w) \/ activeTerminal w = Some t) /\
    (forall h t, hint = Some h -> h <> EmptyString ->
                 In t (terminals w) -> terminalName t = h ->
                 exists t', o = Some t' /\ terminalName t' = h) /\
    (forall t, (forall h t', hint = Some h -> In t' (terminals w) ->
                             terminalName t' <> h) ->
               In t (terminals w) -> terminalName t = "Claude" ->
               exists t', o = Some t' /\ terminalName t' = "Claude").
Proof.
  unfold QueueProcessor.findClaudeTerminal, bind, gets.
  set (byHint := match hint with Some _ => _ | None => _ end).
  assert (HbyHint :
            (forall t, byHint = Some t ->
                       In t (terminals w) /\
                       exists h, hint = Some h /\ h <> EmptyString /\ terminalName t = h) /\
            (byHint = None ->
             forall h t, hint = Some h -> h <> EmptyString -> In t (terminals w) ->
                         terminalName t <> h)).
  { subst byHint. destruct hint as [h |]; [| split; [discriminate | discriminate]].
    destruct (String.eqb h EmptyString) eqn:Eh; simpl.
    - apply String.eqb_eq in Eh. split; [discriminate |].
      intros _ h' t [= <-] Hne. contradiction.
    - apply String.eqb_neq in Eh. split.
      + intros t Hfind. apply List.find_some in Hfind. destruct Hfind as [Hin Hname].
        apply String.eqb_eq in Hname. split; [exact Hin |]. exists h. auto.
      + intros Hnone h' t [= <-] _ Hin Hname.
        pose proof (List.find_none _ _ Hnone t Hin) as Hf. simpl in Hf.
        apply String.eqb_neq in Hf. contradiction. }
  destruct HbyHint as [Hsome Hnone].
  destruct byHint as [t0 |].
  - destruct (Hsome t0 eq_refl) as (Hin0 & h0 & Hh0 & Hne0 & Hname0).
    exists (Some t0). split; [reflexivity |]. split; [| split; [| split]].
    + split; [discriminate |]. intros [_ H].
      destruct (H t0 Hin0) as [_ Hno]. exfalso. exact (Hno h0 Hh0 Hne0 Hname0).
    + intros t [= <-]. now left.
    + intros h t Hh _ _ _. exists t0. split; [reflexivity | congruence].
    + intros t Hno _ _. exfalso. exact (Hno h0 t0 Hh0 Hin0 Hname0).
  - specialize (Hnone eq_refl).
    destruct (List.find (fun t => String.eqb (terminalName t) "Claude") (terminals w))
      as [t1 |] eqn:E1.
    + apply List.find_some in E1. destruct E1 as [Hin1 Hname1].
      apply String.eqb_eq in Hname1.
      exists (Some t1). split; [reflexivity |]. split; [| split; [| split]].
      * split; [discriminate |]. intros [_ H]. destruct (H t1 Hin1) as [Hinc _].
        rewrite (includes_claude_Claude _ Hname1) in Hinc. discriminate.
      * intros t [= <-]. now left.
      * intros h t Hh Hne Hin Hname. exfalso. exact (Hnone h t Hh Hne Hin Hname).
      * intros t _ _ _. exists t1. split; [reflexivity | exact Hname1].
    + destruct (List.find (fun t => includes "claude" (toLowerCase (terminalName t)))
                          (terminals w)) as [t2 |] eqn:E2.
      * apply List.find_some in E2. destruct E2 as [Hin2 Hinc2].
        exists (Some t2). split; [reflexivity |]. split; [| split; [| split]].
        -- split; [discriminate |]. intros [_ H]. destruct (H t2 Hin2) as [Hinc _].
           congruence.
        -- intros t [= <-]. now left.
        -- intros h t Hh Hne Hin Hname. exfalso. exact (Hnone h t Hh Hne Hin Hname).
        -- intros t _ Hin Hname.
           pose proof (List.find_none _ _ E1 t Hin) as Hf. simpl in Hf.
           rewrite Hname in Hf. discriminate.
      * exists (activeTerminal w). split; [reflexivity |]. split; [| split; [| split]].
        -- split.
           ++ intros Hactive. split; [exact Hactive |]. intros t Hin. split.
              ** exact (List.find_none _ _ E2 t Hin).
              ** intros h Hh Hne. exact (Hnone h t Hh Hne Hin).
           ++ tauto.
        -- intros t Hactive. now right.
        -- intros h t Hh Hne Hin Hname. exfalso. exact (Hnone h t Hh Hne Hin Hname).
        -- intros t _ Hin Hname.
           pose proof (List.find_none _ _ E1 t Hin) as Hf. simpl in Hf.
           rewrite Hname in Hf. discriminate.
Qed.

Lemma findClaudeTerminal_priority_witness :
  fst (QueueProcessor.findClaudeTerminal (Some "zsh") sessionOpen)
  = Ok (Some {| terminalId := 1; terminalName := "zsh" |}) /\
  fst (QueueProcessor.findClaudeTerminal None fullDisk) = Ok None.
Proof.
  destruct (findClaudeTerminal_priority (Some "zsh") sessionOpen)
    as (o & Hrun & _ & _ & Hhint & _).
  destruct (findClaudeTerminal_priority None fullDisk) as (o' & Hrun' & Hnone & _).
  split.
  - destruct (Hhint "zsh" {| terminalId := 1; terminalName := "zsh" |} eq_refl
                ltac:(discriminate) ltac:(left; reflexivity) eq_refl)
      as (t' & -> & Hname).
    reflexivity.
  - rewrite Hrun'. cbn [fst]. f_equal. apply Hnone. split; [reflexivity |].
    intros t [].
Defined.

(** X14. [resolveWorkspaceFolder] only reads the world.  It answers nothing
    exactly when no workspace folder is open; otherwise it answers one of
    the open folders: the folder stored in the item when that one is open,
    and the first open folder when it is not (or when the item stores none). *)
Theorem resolveWorkspaceFolder_choice (item : QueueItem) (w : World) :
  exists o,
    QueueProcessor.resolveWorkspaceFolder item w = (Ok o, w) /\
    (o = None <-> workspaceFolders w = None \/ workspaceFolders w = Some []) /\
    (forall folders f, workspaceFolders w = Some folders -> o = Some f ->
                       In f folders) /\
    (forall folders, workspaceFolders w = Some folders ->
                     workspaceFolder item <> EmptyString ->
                     In (workspaceFolder item) folders ->
                     o = Some (workspaceFolder item)) /\
    (forall folders, workspaceFolders w = Some folders ->
                     workspaceFolder item = EmptyString \/
                     ~ In (workspaceFolder item) folders ->
                     o = List.head folders).
Proof.
  unfold QueueProcessor.resolveWorkspaceFolder, bind, gets.
  destruct (workspaceFolders w) as [[| first rest] |].
  - exists None. split; [reflexivity |]. split; [tauto |].
    split; [| split].
    + intros folders f _ H. discriminate.
    + intros folders [= <-] _ [].
    + intros folders [= <-] _. reflexivity.
  - set (found := if negb (String.eqb (workspaceFolder item) EmptyString) then _ else _).
    exists (Some (default first found)). split; [reflexivity |].
    split; [| split; [| split]].
    + split; [discriminate | intros [H | H]; discriminate].
    + intros folders f [= <-] [= <-]. subst found.
      destruct (negb _); [| now left].
      destruct (List.find _ (first :: rest)) as [g |] eqn:E; [| now left].
      apply List.find_some in E. tauto.
    + intros folders [= <-] Hne Hin. subst found.
      apply String.eqb_neq in Hne. rewrite Hne. cbn [negb].
      destruct (find_some_first (fun f => String.eqb f (workspaceFolder item))
                  (first :: rest) (workspaceFolder item) Hin (String.eqb_refl _))
        as [g Hg].
      rewrite Hg. apply List.find_some in Hg. destruct Hg as [_ Hg].
      apply String.eqb_eq in Hg. simpl. now subst g.
    + intros folders [= <-] Hcase. subst found. simpl List.head.
      destruct Hcase as [Hempty | Habsent].
      * rewrite Hempty. reflexivity.
      * destruct (negb _); [| reflexivity].
        destruct (List.find _ (first :: rest)) as [g |] eqn:E; [| reflexivity].
        apply List.find_some in E. destruct E as [Hin Hg].
        apply String.eqb_eq in Hg. subst g. contradiction.
  - exists None. split; [reflexivity |]. split; [tauto |].
    split; [| split].
    + intros folders f H. discriminate.
    + intros folders H. discriminate.
    + intros folders H. discriminate.
Qed.

Lemma resolveWorkspaceFolder_choice_witness :
  fst (QueueProcessor.resolveWorkspaceFolder laterItem sessionOpen)
  = Ok (Some "/work/project").
Proof.
  destruct (resolveWorkspaceFolder_choice laterItem sessionOpen)
    as (o & Hrun & _ & _ & _ & Hfirst).
  rewrite Hrun. cbn [fst]. f_equal.
  apply (Hfirst ["/work/project"] eq_refl).
  right. intros [H | []]. discriminate.
Defined.

Lemma stripEsc_filter (s : string) :
  list_ascii_of_string (stripEsc s)
  = List.filter (fun c => negb (Ascii.eqb c ESC)) (list_ascii_of_string s).
Proof.
  induction s as [| c s IH]; simpl; [reflexivity |].
  destruct (Ascii.eqb c ESC); simpl; now rewrite IH.
Qed.

Lemma stripEsc_clean (s : string) :
  ~ In ESC (list_ascii_of_string s) -> stripEsc s = s.
Proof.
  induction s as [| c s IH]; simpl; intros H; [reflexivity |].
  destruct (Ascii.eqb c ESC) eqn:E.
  - apply Ascii.eqb_eq in E. exfalso. apply H. now left.
  - f_equal. apply IH. intros Hin. apply H. now right.
Qed.

(** X15. When a terminal is found, a delivery sends the prompt to that
    terminal without its ESC code units, every other code unit kept in
    order and with no new line added, and then a lone carriage return; it
    writes no file and opens no terminal. *)
Theorem prompt_is_sent_without_ESC (item : QueueItem) (w : World) (t : Terminal) :
  QueueProcessor.findClaudeTerminal (targetTerminalName item) w = (Ok (Some t), w) ->
  exists line1 line2 message text,
    effects (snd (QueueProcessor.deliver item w))
    = (effects w ++ [ AppendLine line1; TerminalShow t true;
                      TerminalSendText t text false; TerminalSendText t CR false;
                      AppendLine line2; ShowInformationMessage message ])%list /\
    list_ascii_of_string text
    = List.filter (fun c => negb (Ascii.eqb c ESC))
                  (list_ascii_of_string (promptText item)) /\
    ~ In ESC (list_ascii_of_string text) /\
    (~ In ESC (list_ascii_of_string (promptText item)) -> text = promptText item).
Proof.
  intros Hfind. rewrite (deliver_existing item w t Hfind). cbn [snd].
  do 3 eexists. exists (stripEsc (promptText item)).
  split; [reflexivity |]. split; [apply stripEsc_filter |]. split.
  - rewrite stripEsc_filter. intros Hin. apply List.filter_In in Hin.
    destruct Hin as [_ Hne]. now rewrite Ascii.eqb_refl in Hne.
  - apply stripEsc_clean.
Qed.

Lemma prompt_is_sent_without_ESC_witness :
  exists text,
    In (TerminalSendText {| terminalId := 1; terminalName := "zsh" |} text false)
       (effects (snd (QueueProcessor.deliver laterItem sessionOpen))) /\
    ~ In ESC (list_ascii_of_string text).
Proof.
  destruct (prompt_is_sent_without_ESC laterItem sessionOpen
              {| terminalId := 1; terminalName := "zsh" |} eq_refl)
    as (line1 & line2 & message & text & Heffects & _ & Hclean & _).
  exists text. split; [| exact Hclean].
  rewrite Heffects. apply List.in_or_app. right. right. right. left. reflexivity.
Defined.

Lemma quiet_forceFailed (id0 err : string) :
  quiet (appendLine ("[QueueProcessor] Error force-delivering " ++ id0 ++ ": " ++ err) >>
         showErrorMessage ("PromptQueue: failed to deliver " ++ id0 ++ ": " ++ err)).
Proof. autounfold with quiet. auto with quiet. Qed.

(** X16. With a pending item of that id, [forceDeliver(id)] attempts the
    delivery of the first such item whatever its [notBefore], never throws,
    and fires the change notification once, as its last effect, also when
    the delivery failed.  When a terminal can be reached, the items of that
    id leave the queue. *)
Theorem forceDeliver_pending_item (w : World) (id0 : string) (item : QueueItem) :
  List.find (fun i => String.eqb (id i) id0 && negb (processed i))
            (QueueStore.getAll (globalState w)) = Some item ->
  exists w',
    QueueProcessor.forceDeliver id0 w = (Ok tt, logged w' [Fire]) /\
    attempts (effects w') = (attempts (effects w) ++ [item])%list /\
    (exists es, effects w' = (effects w ++ es)%list /\ count isFire es = 0%nat) /\
    (reachable w ->
     QueueStore.getAll (globalState w')
     = List.filter (fun i => negb (String.eqb (id i) id0))
                   (QueueStore.getAll (globalState w))).
Proof.
  intros Hfind.
  pose proof (List.find_some _ _ Hfind) as [_ Hitem].
  apply andb_prop in Hitem. destruct Hitem as [Hid _]. apply String.eqb_eq in Hid.
  set (handler := fun (_ : QueueItem) (err : string) =>
         appendLine ("[QueueProcessor] Error force-delivering " ++ id0 ++ ": " ++ err) >>
         showErrorMessage ("PromptQueue: failed to deliver " ++ id0 ++ ": " ++ err)).
  assert (Hrun : QueueProcessor.forceDeliver id0 w
                 = (attempt QueueProcessor.deliver handler item >> fire) w).
  { unfold QueueProcessor.forceDeliver. unfold bind at 1. unfold gets at 1.
    rewrite Hfind. reflexivity. }
  destruct (attempt_once QueueProcessor.deliver handler quiet_deliver
              (fun _ err => quiet_forceFailed id0 err)
              (fun _ err w0 => ex_intro _ tt eq_refl) item w)
    as (w' & Hattempt & Hattempts).
  exists w'. rewrite Hrun. unfold bind. rewrite Hattempt.
  split; [reflexivity | split; [exact Hattempts | split]].
  - (* the trace of the attempt *)
    unfold attempt, tryCatch in Hattempt. rewrite call_deliver_run in Hattempt.
    destruct (findClaudeTerminal_reads (targetTerminalName item)
                (logged w [DeliverCall item])) as [[t |] Hf].
    + rewrite (deliver_existing item _ t Hf) in Hattempt. injection Hattempt as <-.
      eexists. split.
      * unfold logged, stored. cbn [effects]. rewrite <- List.app_assoc. reflexivity.
      * reflexivity.
    + destruct (writeError w (tmpFileOf w item)) as [err |] eqn:Herr.
      * rewrite (deliver_failed item _ err Hf Herr) in Hattempt.
        unfold handler, bind, appendLine, showErrorMessage, emit in Hattempt.
        injection Hattempt as <-.
        eexists. split.
        -- unfold logged. cbn [effects]. rewrite <- !List.app_assoc. reflexivity.
        -- reflexivity.
      * destruct (deliver_created item _ Hf Herr) as [cwd Hc]. cbv zeta in Hc.
        rewrite Hc in Hattempt. injection Hattempt as <-.
        eexists. split.
        -- unfold logged, stored, opened. cbn [effects].
           rewrite <- List.app_assoc. reflexivity.
        -- reflexivity.
  - intros Hr.
    destruct (findClaudeTerminal_reachable (targetTerminalName item) w Hr) as [t Ht].
    pose proof (findClaudeTerminal_frame (targetTerminalName item) w
                  (logged w [DeliverCall item]) (Some t) eq_refl eq_refl Ht) as Hf.
    unfold attempt, tryCatch in Hattempt. rewrite call_deliver_run in Hattempt.
    rewrite (deliver_existing item _ t Hf) in Hattempt. injection Hattempt as <-.
    cbn [globalState logged stored]. rewrite getAll_remove, Hid. reflexivity.
Qed.

Lemma forceDeliver_pending_item_witness :
  exists w',
    QueueProcessor.forceDeliver "0badcafe"
      (stored sessionOpen (QueueStore.add (globalState sessionOpen) laterItem))
    = (Ok tt, logged w' [Fire]) /\
    QueueStore.getAll (globalState w') = [dueItem; secondItem].
Proof.
  set (w := stored sessionOpen (QueueStore.add (globalState sessionOpen) laterItem)).
  assert (Hr : reachable w) by (right; discriminate).
  destruct (forceDeliver_pending_item w "0badcafe" laterItem eq_refl)
    as (w' & Hrun & _ & _ & Hstore).
  exists w'. split; [exact Hrun |].
  rewrite (Hstore Hr). reflexivity.
Defined.

(* ================================================================== *)
(** * Further properties of the time utilities *)

Lemma Qfloor_bounds (x : Q) :
  (inject_Z (Qfloor x) <= x)%Q /\ (x < inject_Z (Qfloor x) + 1)%Q.
Proof.
  split; [apply Qfloor_le |].
  pose proof (Qlt_floor x) as H. rewrite inject_Z_plus in H. exact H.
Qed.

Lemma addBuffer_value (h : Q) :
  addBuffer (Some h)
  = Some (inject_Z (Qfloor ((h + inject_Z 5 / inject_Z 60) * inject_Z 10 + (1 # 2)))
          / inject_Z 10)%Q.
Proof. reflexivity. Qed.

Lemma Qle_bool_comp (x y z : Q) : (y == z)%Q -> Qle_bool x y = Qle_bool x z.
Proof.
  intros H. destruct (Qle_bool x y) eqn:E1; destruct (Qle_bool x z) eqn:E2;
    try reflexivity.
  - apply Qle_bool_iff in E1. assert (Hle : (x <= z)%Q) by lra.
    apply Qle_bool_iff in Hle. congruence.
  - apply Qle_bool_iff in E2. assert (Hle : (x <= y)%Q) by lra.
    apply Qle_bool_iff in Hle. congruence.
Qed.

Lemma truncate_comp (x y : Q) : (x == y)%Q -> truncate x = truncate y.
Proof.
  intros H. unfold truncate, Qceiling.
  rewrite (Qle_bool_comp 0 x y H), (Qfloor_comp x y H).
  assert (Hopp : (- x == - y)%Q) by lra.
  rewrite (Qfloor_comp _ _ Hopp). reflexivity.
Qed.

Lemma truncate_inject_Z (z : Z) : truncate (inject_Z z) = z.
Proof.
  unfold truncate. destruct (Qle_bool 0 (inject_Z z)).
  - apply Qfloor_Z.
  - apply Qceiling_Z.
Qed.

Lemma newDate_whole (x : Q) (z : Z) : (x == inject_Z z)%Q -> newDate (Some x) = TimeClip z.
Proof.
  intros H. simpl. now rewrite (truncate_comp _ _ H), truncate_inject_Z.
Qed.

(** The results of the cascade: an absolute time, or a relative duration. *)
Lemma cascade_cases (clk : Clock) (text : string) (info : RateLimitInfo) :
  parseRateLimitMessage clk text = Some info ->
  tryAbsReset clk text = Some info \/
  tryAtTime clk text = Some info \/
  exists total raw c, info = relative clk total raw c /\ c <> low.
Proof.
  unfold parseRateLimitMessage.
  destruct (tryAbsReset clk text) as [i1 |]; simpl; [intros [= <-]; now left |].
  destruct (tryAtTime clk text) as [i2 |]; simpl; [intros [= <-]; right; now left |].
  unfold tryCombined, tryHoursOnly, tryBareHours, tryMinutesOnly, trySecondsOnly.
  intros H. right. right.
  destruct (match_ text Patterns.combined); simpl in H;
    [injection H as <-; do 3 eexists; split; [reflexivity | discriminate] |].
  destruct (match_ text Patterns.hoursOnly); simpl in H;
    [injection H as <-; do 3 eexists; split; [reflexivity | discriminate] |].
  destruct (match_ text Patterns.bareHours); simpl in H;
    [injection H as <-; do 3 eexists; split; [reflexivity | discriminate] |].
  destruct (match_ text Patterns.minutesOnly); simpl in H;
    [injection H as <-; do 3 eexists; split; [reflexivity | discriminate] |].
  destruct (match_ text Patterns.secondsOnly); simpl in H;
    [injection H as <-; do 3 eexists; split; [reflexivity | discriminate] |].
  discriminate.
Qed.

(** X18. Whatever the text, a result of [parseRateLimitMessage] never has
    the confidence 'low' and always carries a [resetAt] date, also when the
    text gave a relative duration only. *)
Theorem parse_result_has_resetAt (clk : Clock) (text : string) (info : RateLimitInfo) :
  parseRateLimitMessage clk text = Some info ->
  confidence info <> low /\ exists d, resetAt info = Some d.
Proof.
  intros H. destruct (cascade_cases clk text info H)
    as [H1 | [H2 | (total & raw & c & -> & Hc)]].
  - unfold tryAbsReset in H1. destruct (match_ text Patterns.absReset); [| discriminate].
    unfold parseAbsoluteTime in H1.
    destruct (parseInt _); [| discriminate]. destruct (parseInt _); [| discriminate].
    injection H1 as <-. split; [discriminate | eexists; reflexivity].
  - unfold tryAtTime in H2. destruct (match_ text Patterns.atTime); [| discriminate].
    unfold parseAbsoluteTime in H2.
    destruct (parseInt _); [| discriminate]. destruct (parseInt _); [| discriminate].
    injection H2 as <-. split; [discriminate | eexists; reflexivity].
  - split; [exact Hc | eexists; reflexivity].
Qed.

Lemma parse_result_has_resetAt_witness :
  exists info,
    parseRateLimitMessage noon "retry after 30 seconds" = Some info /\
    confidence info <> low /\ exists d, resetAt info = Some d.
Proof.
  eexists. split; [vm_compute; reflexivity |].
  eapply (parse_result_has_resetAt noon "retry after 30 seconds").
  vm_compute. reflexivity.
Defined.

(** X21. The AM/PM conversion of [parseAbsoluteTime]: without a marker the
    hour is kept; with PM, in any case of the letters, 12 is added unless the
    hour is 12; with AM, 12 becomes 0 and every other hour is kept.  An hour
    of the 12-hour clock lands in 0..23. *)
Theorem to24h_conversion (hour : Z) (a : string) :
  to24h hour None = hour /\
  (toLowerCase a = "pm" ->
   to24h hour (Some a) = (if (hour =? 12)%Z then 12 else hour + 12)%Z) /\
  (toLowerCase a = "am" ->
   to24h hour (Some a) = (if (hour =? 12)%Z then 0 else hour)%Z) /\
  (toLowerCase a = "am" \/ toLowerCase a = "pm" -> (1 <= hour <= 12)%Z ->
   (0 <= to24h hour (Some a) <= 23)%Z).
Proof.
  assert (Hne : forall s, toLowerCase a = s -> s <> EmptyString ->
                          negb (String.eqb a EmptyString) = true).
  { intros s Hs Hnon. destruct a; [simpl in Hs; congruence | reflexivity]. }
  assert (Hpm : toLowerCase a = "pm" ->
                to24h hour (Some a) = (if (hour =? 12)%Z then 12 else hour + 12)%Z).
  { intros H. unfold to24h. rewrite (Hne "pm" H ltac:(discriminate)), H.
    simpl. destruct (hour =? 12)%Z eqn:E; simpl.
    - apply Z.eqb_eq in E. now subst.
    - reflexivity. }
  assert (Ham : toLowerCase a = "am" ->
                to24h hour (Some a) = (if (hour =? 12)%Z then 0 else hour)%Z).
  { intros H. unfold to24h. rewrite (Hne "am" H ltac:(discriminate)), H.
    simpl. reflexivity. }
  split; [reflexivity | split; [exact Hpm | split; [exact Ham |]]].
  intros [H | H] Hrange.
  - rewrite (Ham H). destruct (hour =? 12)%Z; lia.
  - rewrite (Hpm H). destruct (hour =? 12)%Z eqn:E; [lia |].
    apply Z.eqb_neq in E. lia.
Qed.

Lemma to24h_conversion_witness :
  to24h 12 (Some "AM") = 0%Z /\ to24h 12 (Some "Pm") = 12%Z /\
  (0 <= to24h 11 (Some "pM") <= 23)%Z.
Proof.
  split; [| split].
  - apply (to24h_conversion 12 "AM"). reflexivity.
  - apply (to24h_conversion 12 "Pm"). reflexivity.
  - apply (to24h_conversion 11 "pM"); [right; reflexivity | lia].
Defined.

Lemma addHours_whole (t h : Z) :
  addHours (TimeValue t) (num h) = TimeClip (t + h * 3600000).
Proof.
  unfold addHours. apply newDate_whole. simpl.
  rewrite inject_Z_plus, inject_Z_mult. reflexivity.
Qed.

Lemma addHours_5h_7d (t : Z) :
  (Z.abs t <= maxTime - 604800000)%Z ->
  getWindowStart5h (TimeValue t) = TimeValue (t - 18000000) /\
  getWindowStart7d (TimeValue t) = TimeValue (t - 604800000).
Proof.
  intros Hrange. split.
  - unfold getWindowStart5h.
    transitivity (TimeClip (t - 18000000));
      [apply newDate_whole | apply TimeClip_in_range; unfold maxTime in *; lia].
    simpl. change (inject_Z 5 * inject_Z 3600000)%Q with (inject_Z 18000000).
      unfold Zminus. rewrite inject_Z_plus, inject_Z_opp. reflexivity.
  - unfold getWindowStart7d.
    transitivity (TimeClip (t - 604800000));
      [apply newDate_whole | apply TimeClip_in_range; unfold maxTime in *; lia].
    simpl.
    change (inject_Z 7 * inject_Z 24 * inject_Z 3600000)%Q with (inject_Z 604800000).
    unfold Zminus. rewrite inject_Z_plus, inject_Z_opp. reflexivity.
Qed.

(** X22. [addHours] by a whole number of hours moves the time value by that
    many times 3 600 000 ms, and two such moves add up; the window starts are
    the moves by 5 hours and by 7 days back, so the 7-day window starts
    before the 5-hour window, which starts before now.  An invalid date or a
    NaN delay gives the invalid date. *)
Theorem addHours_and_windows (t a b : Z) :
  addHours (TimeValue t) (num a) = TimeClip (t + a * 3600000) /\
  ((Z.abs (t + a * 3600000) <= maxTime)%Z ->
   addHours (addHours (TimeValue t) (num a)) (num b)
   = addHours (TimeValue t) (num (a + b))) /\
  getWindowStart5h (TimeValue t) = addHours (TimeValue t) (num (-5)) /\
  getWindowStart7d (TimeValue t) = addHours (TimeValue t) (num (-168)) /\
  ((Z.abs t <= maxTime - 604800000)%Z ->
   isOverdue (getWindowStart7d (TimeValue t)) (getWindowStart5h (TimeValue t)) = true /\
   isOverdue (getWindowStart5h (TimeValue t)) (TimeValue t) = true) /\
  addHours InvalidDate (num a) = InvalidDate /\
  addHours (TimeValue t) None = InvalidDate.
Proof.
  assert (H5 : getWindowStart5h (TimeValue t) = TimeClip (t - 18000000)).
  { unfold getWindowStart5h. apply newDate_whole. simpl.
    change (inject_Z 5 * inject_Z 3600000)%Q with (inject_Z 18000000).
    unfold Zminus. rewrite inject_Z_plus, inject_Z_opp. reflexivity. }
  assert (H7 : getWindowStart7d (TimeValue t) = TimeClip (t - 604800000)).
  { unfold getWindowStart7d. apply newDate_whole. simpl.
    change (inject_Z 7 * inject_Z 24 * inject_Z 3600000)%Q with (inject_Z 604800000).
    unfold Zminus. rewrite inject_Z_plus, inject_Z_opp. reflexivity. }
  split; [apply addHours_whole |]. split; [| split; [| split; [| split; [| split]]]].
  - intros Hrange. rewrite (addHours_whole t a), (TimeClip_in_range _ Hrange).
    rewrite !addHours_whole. f_equal. lia.
  - rewrite H5, addHours_whole. f_equal.
  - rewrite H7, addHours_whole. f_equal.
  - intros Hrange. rewrite H5, H7.
    rewrite !TimeClip_in_range by (unfold maxTime in *; lia).
    unfold isOverdue. cbn [getTime]. rewrite !num_leb_Z.
    split; apply Z.leb_le; lia.
  - reflexivity.
  - reflexivity.
Qed.

Lemma addHours_and_windows_witness :
  addHours (addHours (TimeValue 1718452800000) (num 5)) (num (-5))
  = TimeValue 1718452800000 /\
  isOverdue (getWindowStart5h (TimeValue 1718452800000)) (TimeValue 1718452800000)
  = true.
Proof.
  destruct (addHours_and_windows 1718452800000 5 (-5))
    as (_ & Hcompose & _ & _ & Hwindows & _).
  split.
  - rewrite Hcompose; [reflexivity | vm_compute; discriminate].
  - apply Hwindows. vm_compute. discriminate.
Defined.

(* ================================================================== *)
(** * Properties of the local usage estimate *)

Lemma estimateTokens_bounds (text : string) :
  let n := Z.of_nat (String.length text) in
  let t := LocalEstimateProvider.estimateTokens text in
  (n <= 4 * t < n + 4)%Z.
Proof.
  cbv zeta. unfold LocalEstimateProvider.estimateTokens.
  set (n := Z.of_nat (String.length text)).
  set (x := (inject_Z n / 4)%Q).
  pose proof (Qle_ceiling x) as Hup. pose proof (Qceiling_lt x) as Hlo.
  assert (Hx : (x * 4 == inject_Z n)%Q) by (unfold x; field).
  set (t := Qceiling x) in *.
  assert (H1 : (inject_Z n <= inject_Z (4 * t))%Q).
  { rewrite inject_Z_mult. change (inject_Z 4) with 4%Q.
    set (a := inject_Z t) in *. set (b := inject_Z n) in *. clearbody a b x. lra. }
  assert (H2 : (inject_Z (4 * t) < inject_Z (n + 4))%Q).
  { rewrite inject_Z_mult, inject_Z_plus. change (inject_Z 4) with 4%Q.
    unfold Z.sub in Hlo. rewrite inject_Z_plus in Hlo.
    change (inject_Z (- (1))) with (- (1))%Q in Hlo.
    set (a := inject_Z t) in *. set (b := inject_Z n) in *. clearbody a b x. lra. }
  rewrite <- Zle_Qle in H1. rewrite <- Zlt_Qlt in H2. lia.
Qed.

Lemma estimateTokens_nonneg (text : string) :
  (0 <= LocalEstimateProvider.estimateTokens text)%Z.
Proof. pose proof (estimateTokens_bounds text) as H. cbv zeta in H. lia. Qed.

Lemma usage_sums (start5h start7d : Z) (items : list QueueItem) :
  (start7d <= start5h)%Z ->
  forall sums : Z * Z,
    (0 <= fst sums <= snd sums)%Z ->
    let sums' := List.fold_left
                   (LocalEstimateProvider.addItem (TimeValue start5h) (TimeValue start7d))
                   items sums in
    (0 <= fst sums' <= snd sums')%Z /\
    (snd sums' <= snd sums + totalTokens items)%Z.
Proof.
  intros Hstart. induction items as [| item items IH]; intros sums Hs; cbv zeta; simpl.
  - lia.
  - pose proof (estimateTokens_nonneg (promptText item)) as Ht.
    set (sums1 := LocalEstimateProvider.addItem (TimeValue start5h) (TimeValue start7d)
                    sums item).
    assert (H1 : (0 <= fst sums1 <= snd sums1)%Z /\
                 (snd sums1 <= snd sums
                               + LocalEstimateProvider.estimateTokens (promptText item))%Z).
    { unfold sums1, LocalEstimateProvider.addItem, LocalEstimateProvider.num_geb.
      cbn [getTime fst snd].
      destruct (getTime (createdAt item)) as [c |]; cbn [fst snd].
      - rewrite !num_leb_Z.
        destruct (Z.leb_spec start7d c), (Z.leb_spec start5h c); cbn [fst snd]; lia.
      - simpl. lia. }
    destruct H1 as [H1 H2].
    destruct (IH sums1 H1) as [H3 H4]. cbv zeta in H3, H4. lia.
Qed.

(** X23. The local estimate counts pending items only: processed items never
    change it.  A prompt of [n] code units counts for the [n / 4] tokens
    rounded up.  On a clock inside the range of time values, the 5-hour sum
    is at least 0 and at most the 7-day sum, which is at most the estimate
    of all pending prompts; the error text is set exactly when nothing is
    pending. *)
Theorem usage_estimate_is_consistent (clk : Clock) (state : gmap string (list QueueItem)) :
  (Z.abs (timeNow clk) <= maxTime - 604800000)%Z ->
  let usage := LocalEstimateProvider.fetchUsage clk state in
  (0 <= LocalEstimateProvider.tokensLast5h usage
   <= LocalEstimateProvider.tokensLast7d usage)%Z /\
  (LocalEstimateProvider.tokensLast7d usage
   <= totalTokens (QueueStore.getPending state))%Z /\
  (LocalEstimateProvider.error usage <> None <-> QueueStore.getPending state = []) /\
  LocalEstimateProvider.fetchUsage clk (QueueStore.purgeProcessed state) = usage /\
  (forall text,
      let n := Z.of_nat (String.length text) in
      (n <= 4 * LocalEstimateProvider.estimateTokens text < n + 4)%Z).
Proof.
  intros Hrange. cbv zeta.
  destruct (addHours_5h_7d (timeNow clk) Hrange) as [H5 H7].
  split; [| split; [| split; [| split]]].
  - unfold LocalEstimateProvider.fetchUsage.
    cbn [LocalEstimateProvider.tokensLast5h LocalEstimateProvider.tokensLast7d].
    unfold newDateNow. rewrite H5, H7.
    destruct (usage_sums (timeNow clk - 18000000) (timeNow clk - 604800000)
                (QueueStore.getPending state) ltac:(lia) (0, 0)%Z ltac:(simpl; lia))
      as [H _]. exact H.
  - unfold LocalEstimateProvider.fetchUsage.
    cbn [LocalEstimateProvider.tokensLast7d].
    unfold newDateNow. rewrite H5, H7.
    destruct (usage_sums (timeNow clk - 18000000) (timeNow clk - 604800000)
                (QueueStore.getPending state) ltac:(lia) (0, 0)%Z ltac:(simpl; lia))
      as [_ H]. cbv zeta in H. simpl in H. exact H.
  - unfold LocalEstimateProvider.fetchUsage. cbn [LocalEstimateProvider.error].
    destruct (QueueStore.getPending state) as [| item items]; simpl.
    + split; [reflexivity | discriminate].
    + split; [intros H; now contradiction H | discriminate].
  - unfold LocalEstimateProvider.fetchUsage.
    assert (Hp : QueueStore.getPending (QueueStore.purgeProcessed state)
                 = QueueStore.getPending state).
    { unfold QueueStore.getPending at 1. rewrite getAll_purgeProcessed.
      unfold QueueStore.getPending. apply filter_idem. }
    rewrite Hp. reflexivity.
  - intros text. apply estimateTokens_bounds.
Qed.

Lemma usage_estimate_is_consistent_witness :
  let usage := LocalEstimateProvider.fetchUsage noon (globalState firstFails) in
  (LocalEstimateProvider.tokensLast5h usage
   <= LocalEstimateProvider.tokensLast7d usage)%Z /\
  LocalEstimateProvider.error usage = None.
Proof.
  destruct (usage_estimate_is_consistent noon (globalState firstFails)
              ltac:(vm_compute; discriminate)) as ([_ H] & _).
  split; [exact H | reflexivity].
Defined.

(* ================================================================== *)
(** * Properties of the file utilities *)

Lemma mkdirs_lookup (paths : list string) (files : gmap string N) (path : string) :
  Fs.mkdirs paths files !! path
  = match files !! path with
    | Some type => Some type
    | None => if List.existsb (String.eqb path) paths then Some Fs.Directory else None
    end.
Proof.
  revert files. induction paths as [| p paths IH]; intros files.
  - simpl. now destruct (files !! path).
  - cbn [Fs.mkdirs List.fold_left List.existsb]. fold (Fs.mkdirs paths).
    rewrite IH. destruct (String.eqb_spec path p) as [-> | Hne].
    + destruct (files !! p) eqn:E; [now rewrite E |].
      now rewrite lookup_insert_eq.
    + destruct (files !! p) eqn:E; [reflexivity |].
      rewrite lookup_insert_ne by congruence. reflexivity.
Qed.

Lemma existsb_eqb_In (path : string) (paths : list string) :
  List.existsb (String.eqb path) paths = true <-> In path paths.
Proof.
  rewrite List.existsb_exists. split.
  - intros (p & Hin & Heq). apply String.eqb_eq in Heq. now subst.
  - intros Hin. exists path. split; [exact Hin | apply String.eqb_refl].
Qed.

Lemma blocked_false (files : gmap string N) (uri : string) :
  Fs.blocked files uri = false <->
  forall p type, In p (Fs.parents uri) -> files !! p = Some type ->
                 Fs.isDirectory type = true.
Proof.
  unfold Fs.blocked. split.
  - intros H p type Hin Hp.
    destruct (Fs.isDirectory type) eqn:E; [reflexivity |].
    assert (Hex : List.existsb (fun p => match files !! p with
                                         | Some type => negb (Fs.isDirectory type)
                                         | None => false
                                         end) (Fs.parents uri) = true).
    { apply List.existsb_exists. exists p. split; [exact Hin |]. now rewrite Hp, E. }
    congruence.
  - intros H. apply Bool.not_true_is_false. intros Hex.
    apply List.existsb_exists in Hex as (p & Hin & Hp).
    destruct (files !! p) as [type |] eqn:E; [| discriminate].
    rewrite (H p type Hin E) in Hp. discriminate.
Qed.

(** What [ensureDir] does in each case: it throws under a file and on a
    path that is not a directory, returns on a directory, and creates a
    missing path with the missing directories above it. *)
Lemma ensureDir_cases (uri : string) (files : gmap string N) :
  (Fs.blocked files uri = true /\
   Fs.ensureDir uri files = (Throw "FileNotADirectory", files)) \/
  (Fs.blocked files uri = false /\ files !! uri = Some Fs.Directory /\
   Fs.ensureDir uri files = (Ok tt, files)) \/
  (Fs.blocked files uri = false /\
   (exists type, files !! uri = Some type /\ type <> Fs.Directory) /\
   Fs.ensureDir uri files
   = (Throw ("Error: Path exists but is not a directory: " ++ uri), files)) \/
  (Fs.blocked files uri = false /\ files !! uri = None /\
   Fs.ensureDir uri files = (Ok tt, Fs.mkdirs (Fs.parents uri ++ [uri]) files)).
Proof.
  unfold Fs.ensureDir, Fs.stat, Fs.createDirectory.
  destruct (Fs.blocked files uri) eqn:Eb; [left; split; reflexivity | right].
  destruct (files !! uri) as [type |] eqn:E.
  - destruct (type =? Fs.Directory)%N eqn:Et; cbn [negb].
    + apply N.eqb_eq in Et. subst type. left. repeat split.
    + apply N.eqb_neq in Et. right. left. split; [reflexivity |].
      split; [exists type; split; [reflexivity | exact Et] | reflexivity].
  - right. right. repeat split.
Qed.

(** X24. [ensureDir] returns exactly when nothing above the path is in the
    way (no directory above it is there as a file) and the path is free or
    holds a directory; then the path holds a directory, and when it was
    created every directory above it is there too.  It creates the path and
    the directories above it that were missing, and nothing else: every file
    that was there keeps its type.  When it throws, the files are as they
    were; a second call after a return changes nothing. *)
Theorem ensureDir_makes_a_directory (uri : string) (files : gmap string N) :
  let r := fst (Fs.ensureDir uri files) in
  let files' := snd (Fs.ensureDir uri files) in
  (r = Ok tt <->
   Fs.blocked files uri = false /\
   (files !! uri = None \/ files !! uri = Some Fs.Directory)) /\
  (r = Ok tt -> files' !! uri = Some Fs.Directory) /\
  (r = Ok tt -> files !! uri = None ->
   forall p, In p (Fs.parents uri) ->
             exists type, files' !! p = Some type /\ Fs.isDirectory type = true) /\
  (forall path type, files !! path = Some type -> files' !! path = Some type) /\
  (forall path, files !! path = None -> files' !! path <> None ->
                files' !! path = Some Fs.Directory /\
                (path = uri \/ In path (Fs.parents uri))) /\
  (forall err, r = Throw err -> files' = files) /\
  (r = Ok tt -> Fs.ensureDir uri files' = (Ok tt, files')).
Proof.
  cbv zeta.
  destruct (ensureDir_cases uri files)
    as [(Hb & ->) | [(Hb & Hdir & ->) | [(Hb & (type & Huri & Htype) & ->)
                                        | (Hb & Hnone & ->)]]];
    cbn [fst snd].
  - split; [| split; [| split; [| split; [| split; [| split]]]]];
      try discriminate; try tauto.
    split; [discriminate | intros [H _]; congruence].
  - split; [| split; [| split; [| split; [| split; [| split]]]]];
      try tauto; try congruence.
    intros _. destruct (ensureDir_cases uri files)
      as [(Hb' & _) | [(_ & _ & H) | [(_ & (t & Ht & Hne) & _) | (_ & Hn & _)]]];
      congruence.
  - split; [| split; [| split; [| split; [| split; [| split]]]]];
      try discriminate; try tauto.
    split; [discriminate | intros [_ [H | H]]; congruence].
  - assert (Hlook : forall path,
              Fs.mkdirs (Fs.parents uri ++ [uri]) files !! path
              = match files !! path with
                | Some type => Some type
                | None => if List.existsb (String.eqb path) (Fs.parents uri ++ [uri])
                          then Some Fs.Directory else None
                end) by (intros path; apply mkdirs_lookup).
    assert (Hin : forall path, In path (Fs.parents uri ++ [uri]) ->
              List.existsb (String.eqb path) (Fs.parents uri ++ [uri]) = true)
      by (intros path; apply existsb_eqb_In).
    assert (Huri' : Fs.mkdirs (Fs.parents uri ++ [uri]) files !! uri = Some Fs.Directory).
    { rewrite Hlook, Hnone, Hin; [reflexivity |]. apply List.in_or_app. right. now left. }
    assert (Hparents : forall p, In p (Fs.parents uri) ->
              exists type, Fs.mkdirs (Fs.parents uri ++ [uri]) files !! p = Some type /\
                           Fs.isDirectory type = true).
    { intros p Hp. rewrite Hlook. destruct (files !! p) as [type |] eqn:E.
      - exists type. split; [reflexivity |].
        apply (proj1 (blocked_false files uri) Hb p type Hp E).
      - rewrite Hin by (apply List.in_or_app; now left).
        exists Fs.Directory. split; reflexivity. }
    split; [| split; [| split; [| split; [| split; [| split]]]]].
    + split; [intros _; split; [exact Hb | now left] | reflexivity].
    + intros _. exact Huri'.
    + intros _ _. exact Hparents.
    + intros path type Hp. now rewrite Hlook, Hp.
    + intros path Hp Hnew. rewrite Hlook, Hp in Hnew |- *.
      destruct (List.existsb (String.eqb path) (Fs.parents uri ++ [uri])) eqn:E;
        [| congruence].
      split; [reflexivity |]. apply existsb_eqb_In in E.
      apply List.in_app_or in E as [E | [E | []]]; [now right | now left].
    + discriminate.
    + intros _.
      destruct (ensureDir_cases uri (Fs.mkdirs (Fs.parents uri ++ [uri]) files))
        as [(Hb' & _) | [(_ & _ & H) | [(_ & (t & Ht & Hne) & _) | (_ & Hn & _)]]];
        [| exact H | congruence | congruence].
      exfalso. apply Bool.not_false_iff_true in Hb'. apply Hb'.
      apply blocked_false. intros p type Hp Hlk.
      destruct (Hparents p Hp) as (type' & Hlk' & Hd). congruence.
Qed.

(** In an empty workspace the directories above the path are created with
    it; below a file nothing is. *)
Lemma ensureDir_makes_a_directory_witness :
  snd (Fs.ensureDir "/work/.prompt-queue/out" ∅) !! "/work/.prompt-queue/out"
  = Some Fs.Directory /\
  snd (Fs.ensureDir "/work/.prompt-queue/out" ∅) !! "/work/.prompt-queue"
  = Some Fs.Directory /\
  snd (Fs.ensureDir "/work/.prompt-queue/out" ∅) !! "/work" = Some Fs.Directory /\
  Fs.ensureDir "/work/notes/out" (<["/work/notes" := Fs.File]> ∅)
  = (Throw "FileNotADirectory", <["/work/notes" := Fs.File]> ∅) /\
  fst (Fs.ensureDir "/work/notes" (<["/work/notes" := Fs.File]> ∅))
  = Throw "Error: Path exists but is not a directory: /work/notes".
Proof.
  destruct (ensureDir_makes_a_directory "/work/.prompt-queue/out" ∅)
    as (Hiff & Hdir & Hparents & _).
  assert (Hok : fst (Fs.ensureDir "/work/.prompt-queue/out" ∅) = Ok tt)
    by (apply Hiff; split; [reflexivity | now left]).
  split; [exact (Hdir Hok) |].
  repeat split; reflexivity.
Defined.





Lemma string_length_append (a b : string) :
  String.length (a ++ b) = (String.length a + String.length b)%nat.
Proof. induction a as [| c a IH]; simpl; [reflexivity | now rewrite IH]. Qed.








(* ================================================================== *)
(** * Properties of the dates of a range *)

(** The date parameter of an instant depends on its local day only. *)
Lemma formatDateParam_of_day (clk clk' : Clock) (x y : Z) :
  Day (LocalTime clk x) = Day (LocalTime clk' y) ->
  formatDateParam clk (TimeValue x) = formatDateParam clk' (TimeValue y).
Proof.
  intros H. unfold formatDateParam, getFullYear, getMonth, getDate.
  cbn [getTime option_map].
  unfold MonthFromTime, DateFromTime, MonthFromTime, DayWithinYear, YearFromTime.
  rewrite H. reflexivity.
Qed.

Lemma formatDateParam_dateOfDay (clk : Clock) (x : Z) :
  formatDateParam clk (TimeValue x) = dateOfDay (Day (LocalTime clk x)).
Proof.
  unfold dateOfDay. apply formatDateParam_of_day.
  unfold LocalTime at 2. cbn [LocalTZA noonUTC]. rewrite Z.add_0_r.
  unfold Day at 2. symmetry. apply Z.div_mul. unfold msPerDay. lia.
Qed.

(** Two local times that occur and differ are given different instants, in
    their order. *)
Lemma wallClock_strictly_in_order (clk : Clock) (L1 L2 : Z) :
  wallClockInOrder clk -> occurs clk L1 -> occurs clk L2 ->
  (L1 < L2)%Z -> (UTC clk L1 < UTC clk L2)%Z.
Proof.
  intros Hord H1 H2 Hlt.
  pose proof (Hord L1 L2 H1 H2 ltac:(lia)) as Hle.
  destruct (Z.eq_dec (UTC clk L1) (UTC clk L2)) as [Heq |]; [| lia].
  exfalso. unfold occurs in H1, H2. rewrite Heq in H1. lia.
Qed.

(** The loop pushes the date of the cursor once per day, from local
    midnight to local midnight, until the cursor passes the end. *)
Lemma datesLoop_run (clk : Clock) (e : Z) (n : nat) :
  forall (fuel : nat) (a : Z),
    (n < fuel)%nat ->
    (forall i, (0 <= i < Z.of_nat n)%Z -> occurs clk ((a + i) * msPerDay)) ->
    (forall i, (0 <= i < Z.of_nat n)%Z ->
               (- maxTime <= UTC clk ((a + i) * msPerDay) <= e)%Z) ->
    (e <= maxTime)%Z ->
    (e < UTC clk ((a + Z.of_nat n) * msPerDay))%Z ->
    datesLoop clk fuel (TimeClip (UTC clk (a * msPerDay))) (TimeValue e)
    = List.map (fun i => dateOfDay (a + Z.of_nat i)) (List.seq 0 n).
Proof.
  assert (Hstop : forall fuel c, (e < c)%Z ->
            datesLoop clk fuel (TimeClip c) (TimeValue e) = []).
  { intros fuel c Hc. unfold TimeClip.
    destruct fuel as [| fuel]; [reflexivity |].
    destruct (Z.abs c <=? maxTime)%Z; [| reflexivity].
    cbn [datesLoop getTime]. rewrite num_leb_Z.
    replace (c <=? e)%Z with false by (symmetry; apply Z.leb_gt; lia).
    reflexivity. }
  induction n as [| n IH]; intros fuel a Hfuel Hocc Hin He Hpast.
  - apply Hstop. now rewrite Z.add_0_r in Hpast.
  - destruct fuel as [| fuel]; [lia |].
    pose proof (Hocc 0%Z ltac:(lia)) as Hocc0. pose proof (Hin 0%Z ltac:(lia)) as Hin0.
    rewrite Z.add_0_r in Hocc0, Hin0.
    rewrite TimeClip_in_range by lia.
    cbn [datesLoop getTime]. rewrite num_leb_Z.
    replace (UTC clk (a * msPerDay) <=? e)%Z with true
      by (symmetry; apply Z.leb_le; lia).
    rewrite setDate_next, Hocc0.
    replace (a * msPerDay + msPerDay)%Z with ((a + 1) * msPerDay)%Z by lia.
    rewrite (IH fuel (a + 1)%Z).
    + cbn [List.seq List.map]. f_equal.
      * rewrite formatDateParam_dateOfDay, Hocc0. f_equal.
        unfold Day. rewrite Z.add_0_r. apply Z.div_mul. unfold msPerDay. lia.
      * rewrite <- List.seq_shift, List.map_map. apply List.map_ext.
        intros i. f_equal. lia.
    + lia.
    + intros i Hi. replace (a + 1 + i)%Z with (a + (i + 1))%Z by lia.
      apply Hocc. lia.
    + intros i Hi. replace (a + 1 + i)%Z with (a + (i + 1))%Z by lia.
      apply Hin. lia.
    + exact He.
    + replace (a + 1 + Z.of_nat n)%Z with (a + Z.of_nat (S n))%Z by lia. exact Hpast.
Qed.

(** X26. [datesInRange] gives one date per local day from the day of [from]
    to the day of [to], both included and in order, whatever the hour of day
    of either end, also across a change of the offset of the zone.  It is
    empty when [to] falls on an earlier day than [from], and when either date
    is invalid.  This holds on a host whose zone keeps its offsets within a
    day and gives the local times that occur their instants in order, when
    the midnights of the range and the last millisecond of the day of [to]
    occur, for dates three days or more inside the range of time values. *)
Theorem datesInRange_one_per_day (clk : Clock) :
  (forall d, datesInRange clk InvalidDate d = [] /\ datesInRange clk d InvalidDate = []) /\
  (forall x, formatDateParam clk (TimeValue x) = dateOfDay (Day (LocalTime clk x))) /\
  (forall from to : Z,
     offsetsWithinADay clk -> wallClockInOrder clk ->
     (Z.abs from <= maxTime - 3 * msPerDay)%Z ->
     (Z.abs to <= maxTime - 3 * msPerDay)%Z ->
     let first := Day (LocalTime clk from) in
     let last := Day (LocalTime clk to) in
     occurs clk (first * msPerDay) ->
     (forall d, (first <= d <= last + 1)%Z -> occurs clk (d * msPerDay)) ->
     occurs clk (last * msPerDay + (msPerDay - 1)) ->
     datesInRange clk (TimeValue from) (TimeValue to)
     = List.map (fun i => dateOfDay (first + Z.of_nat i))
                (List.seq 0 (Z.to_nat (last - first + 1)))).
Proof.
  split; [| split].
  - intros d. split; [reflexivity |].
    unfold datesInRange. destruct (setHours clk d 0 0 0 0); reflexivity.
  - apply formatDateParam_dateOfDay.
  - intros from to Hoff Hord Hfrom Hto first last Hfirst Hmid Hlast.
    assert (Hday : msPerDay = 86400000%Z) by reflexivity.
    assert (Hmax : maxTime = 8640000000000000%Z) by reflexivity.
    destruct (Day_TimeWithinDay (LocalTime clk from)) as [Hf Hfr].
    destruct (Day_TimeWithinDay (LocalTime clk to)) as [Ht Htr].
    fold first in Hf. fold last in Ht.
    set (Le := (last * msPerDay + (msPerDay - 1))%Z) in *.
    set (c := UTC clk (first * msPerDay)).
    set (e := UTC clk Le).
    pose proof (Hoff from true) as O1. pose proof (Hoff to true) as O2.
    pose proof (Hoff (first * msPerDay)%Z false) as O3.
    pose proof (Hoff Le false) as O4.
    assert (Hcv : c = (first * msPerDay - LocalTZA clk (first * msPerDay) false)%Z)
      by reflexivity.
    assert (Hev : e = (Le - LocalTZA clk Le false)%Z) by reflexivity.
    assert (Hfl : LocalTime clk from = (from + LocalTZA clk from true)%Z) by reflexivity.
    assert (Htl : LocalTime clk to = (to + LocalTZA clk to true)%Z) by reflexivity.
    assert (Hcr : (Z.abs c <= maxTime)%Z) by (unfold Le in *; lia).
    assert (Her : (Z.abs e <= maxTime)%Z) by (unfold Le in *; lia).
    assert (Hcur : setHours clk (TimeValue from) 0 0 0 0 = TimeValue c).
    { unfold setHours. fold first. unfold MakeDate.
      replace (first * msPerDay + MakeTime 0 0 0 0)%Z with (first * msPerDay)%Z
        by (unfold MakeTime; lia).
      fold c. now apply TimeClip_in_range. }
    assert (Hend : setHours clk (TimeValue to) 23 59 59 999 = TimeValue e).
    { unfold setHours. fold last. unfold MakeDate.
      replace (last * msPerDay + MakeTime 23 59 59 999)%Z with Le
        by (unfold Le; rewrite Hday; reflexivity).
      fold e. now apply TimeClip_in_range. }
    unfold datesInRange. rewrite Hcur, Hend.
    rewrite <- (TimeClip_in_range c Hcr) at 2. unfold c at 2.
    set (n := Z.to_nat (last - first + 1)).
    assert (Hbefore : forall d, (first <= d <= last)%Z ->
              (c <= UTC clk (d * msPerDay) <= e)%Z).
    { intros d Hd. split.
      - apply Hord; [exact Hfirst | apply Hmid; lia | lia].
      - apply Hord; [apply Hmid; lia | exact Hlast | unfold Le; lia]. }
    apply datesLoop_run.
    + unfold daysBetween.
      destruct (Z.le_gt_cases first last) as [Hle | Hgt]; [| unfold n; lia].
      assert ((last - first - 2) <= (e - c) / msPerDay)%Z
        by (apply Z.div_le_lower_bound; unfold Le in *; lia).
      unfold n. lia.
    + intros i Hi. apply Hmid. unfold n in Hi. lia.
    + intros i Hi. unfold n in Hi.
      destruct (Hbefore (first + i)%Z ltac:(lia)). lia.
    + lia.
    + unfold n. destruct (Z.le_gt_cases first last) as [Hle | Hgt].
      * rewrite Z2Nat.id by lia.
        apply wallClock_strictly_in_order;
          [exact Hord | exact Hlast | apply Hmid; lia | unfold Le; lia].
      * replace (Z.to_nat (last - first + 1)) with O by lia.
        rewrite Z.add_0_r.
        apply wallClock_strictly_in_order;
          [exact Hord | exact Hlast | exact Hfirst | unfold Le; lia].
Qed.

Ltac zone_cases :=
  repeat match goal with
         | H : context [(?a <=? ?b)%Z] |- _ => destruct (Z.leb_spec a b)
         | H : context [(?a <? ?b)%Z] |- _ => destruct (Z.ltb_spec a b)
         | |- context [(?a <=? ?b)%Z] => destruct (Z.leb_spec a b)
         | |- context [(?a <? ?b)%Z] => destruct (Z.ltb_spec a b)
         end; cbn [andb] in *.

Lemma newYork_order (now : Z) : wallClockInOrder (newYork now).
Proof.
  intros L1 L2 H1 H2 Hle. unfold occurs, LocalTime, UTC, newYork in *.
  cbn [LocalTZA] in *. zone_cases; lia.
Qed.

(** New York, from Saturday 2024-03-09 23:30 to Monday 2024-03-11 12:00
    local time; the clocks go forward on Sunday, so that 24 hours after
    [from] it is already Monday. *)
Lemma datesInRange_one_per_day_witness :
  datesInRange (newYork 0) (TimeValue 1710045000000) (TimeValue 1710172800000)
  = ["2024-03-09"; "2024-03-10"; "2024-03-11"] /\
  formatDateParam (newYork 0) (TimeValue (1710045000000 + 86400000)) = "2024-03-11" /\
  datesInRange (newYork 0) (TimeValue 1710172800000) (TimeValue 1710045000000) = [].
Proof.
  destruct (datesInRange_one_per_day (newYork 0)) as (_ & _ & H).
  assert (Hmid : forall d, (19791 <= d <= 19794)%Z -> occurs (newYork 0) (d * msPerDay)).
  { intros d Hd.
    assert (Hc : d = 19791%Z \/ d = 19792%Z \/ d = 19793%Z \/ d = 19794%Z) by lia.
    destruct Hc as [-> | [-> | [-> | ->]]]; reflexivity. }
  assert (Hfirst : Day (LocalTime (newYork 0) 1710045000000) = 19791%Z) by reflexivity.
  assert (Hlast : Day (LocalTime (newYork 0) 1710172800000) = 19793%Z) by reflexivity.
  pose proof (H 1710045000000%Z 1710172800000%Z (newYork_offsets 0) (newYork_order 0)
                ltac:(vm_compute; discriminate) ltac:(vm_compute; discriminate)) as Hfwd.
  pose proof (H 1710172800000%Z 1710045000000%Z (newYork_offsets 0) (newYork_order 0)
                ltac:(vm_compute; discriminate) ltac:(vm_compute; discriminate)) as Hback.
  cbv zeta in Hfwd, Hback. rewrite Hfirst, Hlast in Hfwd, Hback.
  split; [| split].
  - rewrite Hfwd; [reflexivity | reflexivity | intros d Hd; apply Hmid; lia | reflexivity].
  - reflexivity.
  - rewrite Hback; [reflexivity | reflexivity | intros d Hd; apply Hmid; lia | reflexivity].
Defined.

(* ================================================================== *)
(** * Properties of the tree view *)

Section SortByKey.
Context {A : Type}.
Variable comparefn : A -> A -> number.
Variable key : A -> Z.
Variable valid : A -> Prop.
Hypothesis comparefn_key : forall a b, valid a -> valid b ->
  Qle_bool (QueueViewProvider.SortCompare comparefn a b) 0 = (key a <=? key b)%Z.

Lemma insert_Permutation (x : A) (l : list A) :
  Permutation (QueueViewProvider.insert comparefn x l) (x :: l).
Proof.
  induction l as [| y l IH]; simpl; [reflexivity |].
  destruct (Qle_bool _ _); [reflexivity |].
  rewrite IH. apply perm_swap.
Qed.

Lemma sort_Permutation (l : list A) :
  Permutation (QueueViewProvider.sort comparefn l) l.
Proof.
  induction l as [| x l IH]; simpl; [reflexivity |].
  rewrite insert_Permutation. now constructor.
Qed.

Lemma insert_sorted (x : A) (l : list A) :
  valid x -> List.Forall valid l ->
  StronglySorted (fun a b => (key a <= key b)%Z) l ->
  StronglySorted (fun a b => (key a <= key b)%Z)
                 (QueueViewProvider.insert comparefn x l).
Proof.
  intros Hx Hl Hs. induction Hs as [| y l Hs IH Hy]; simpl.
  - repeat constructor.
  - apply List.Forall_cons_iff in Hl as [Hvy Hl].
    rewrite (comparefn_key x y Hx Hvy).
    destruct (key x <=? key y)%Z eqn:E.
    + apply Z.leb_le in E. constructor; [now constructor |].
      constructor; [exact E |].
      revert Hy. apply List.Forall_impl. intros z Hz. lia.
    + apply Z.leb_gt in E. constructor; [now apply IH |].
      rewrite insert_Permutation. constructor; [lia | exact Hy].
Qed.

Lemma sort_sorted (l : list A) :
  List.Forall valid l ->
  StronglySorted (fun a b => (key a <= key b)%Z)
                 (QueueViewProvider.sort comparefn l).
Proof.
  induction l as [| x l IH]; intros Hl; [constructor |].
  apply List.Forall_cons_iff in Hl as [Hx Hl].
  change (QueueViewProvider.sort comparefn (x :: l))
    with (QueueViewProvider.insert comparefn x (QueueViewProvider.sort comparefn l)).
  apply insert_sorted; [exact Hx | | now apply IH].
  rewrite sort_Permutation. exact Hl.
Qed.

Lemma insert_stable (t : Z) (x : A) (l : list A) :
  valid x -> List.Forall valid l ->
  List.filter (fun a => (key a =? t)%Z) (QueueViewProvider.insert comparefn x l)
  = List.filter (fun a => (key a =? t)%Z) (x :: l).
Proof.
  intros Hx Hl. induction l as [| y l IH]; [reflexivity |].
  apply List.Forall_cons_iff in Hl as [Hy Hl]. cbn [QueueViewProvider.insert].
  rewrite (comparefn_key x y Hx Hy).
  destruct (key x <=? key y)%Z eqn:E; [reflexivity |].
  apply Z.leb_gt in E. cbn [List.filter] in *. rewrite (IH Hl).
  destruct (key x =? t)%Z eqn:Ex, (key y =? t)%Z eqn:Ey; try reflexivity.
  apply Z.eqb_eq in Ex, Ey. lia.
Qed.

Lemma sort_stable (t : Z) (l : list A) :
  List.Forall valid l ->
  List.filter (fun a => (key a =? t)%Z) (QueueViewProvider.sort comparefn l)
  = List.filter (fun a => (key a =? t)%Z) l.
Proof.
  induction l as [| x l IH]; intros Hl; [reflexivity |].
  apply List.Forall_cons_iff in Hl as [Hx Hl].
  change (QueueViewProvider.sort comparefn (x :: l))
    with (QueueViewProvider.insert comparefn x (QueueViewProvider.sort comparefn l)).
  rewrite insert_stable; [| exact Hx | rewrite sort_Permutation; exact Hl].
  cbn [List.filter]. now rewrite (IH Hl).
Qed.
End SortByKey.

Lemma byNotBefore_key (a b : QueueItem) :
  notBefore a <> InvalidDate -> notBefore b <> InvalidDate ->
  Qle_bool (QueueViewProvider.SortCompare QueueViewProvider.byNotBefore a b) 0
  = (notBeforeTime a <=? notBeforeTime b)%Z.
Proof.
  unfold QueueViewProvider.SortCompare, QueueViewProvider.byNotBefore, notBeforeTime.
  destruct (notBefore a) as [x |], (notBefore b) as [y |]; try congruence.
  intros _ _. cbn. apply Bool.eq_iff_eq_true.
  rewrite Qle_bool_iff, Z.leb_le, Zle_Qle. split; lra.
Qed.

Lemma StronglySorted_impl {A : Type} (R R' : A -> A -> Prop) (l : list A) :
  (forall a b, R a b -> R' a b) -> StronglySorted R l -> StronglySorted R' l.
Proof.
  intros HR Hs. induction Hs as [| x l Hs IH Hx]; constructor; [exact IH |].
  revert Hx. apply List.Forall_impl. intros b. apply HR.
Qed.

(** X27. When every stored item has a valid date, the tree view shows each
    stored item once: first the pending ones, the earliest [notBefore]
    first, then the delivered ones, the latest [notBefore] first; items of
    one group with the same instant keep the order of the store. *)
Theorem getChildren_order (state : gmap string (list QueueItem)) :
  List.Forall (fun i => notBefore i <> InvalidDate) (QueueStore.getAll state) ->
  exists pending delivered,
    QueueViewProvider.getChildren state = (pending ++ delivered)%list /\
    Permutation (QueueViewProvider.getChildren state) (QueueStore.getAll state) /\
    Permutation pending (QueueStore.getPending state) /\
    List.Forall (fun i => processed i = true) delivered /\
    StronglySorted (fun a b => (notBeforeTime a <= notBeforeTime b)%Z) pending /\
    StronglySorted (fun a b => (notBeforeTime b <= notBeforeTime a)%Z) delivered /\
    (forall t, dueAt t pending = dueAt t (QueueStore.getPending state)) /\
    (forall t, dueAt t delivered
               = dueAt t (List.filter (fun i => processed i) (QueueStore.getAll state))).
Proof.
  intros Hvalid. unfold QueueViewProvider.getChildren.
  set (all := QueueStore.getAll state) in *.
  set (valid := fun i : QueueItem => notBefore i <> InvalidDate) in *.
  assert (Hdesc : forall a b, valid a -> valid b ->
            Qle_bool (QueueViewProvider.SortCompare
                        (fun a b => QueueViewProvider.byNotBefore b a) a b) 0
            = (- notBeforeTime a <=? - notBeforeTime b)%Z).
  { intros a b Ha Hb.
    change (QueueViewProvider.SortCompare (fun a b => QueueViewProvider.byNotBefore b a) a b)
      with (QueueViewProvider.SortCompare QueueViewProvider.byNotBefore b a).
    rewrite (byNotBefore_key b a Hb Ha).
    apply Bool.eq_iff_eq_true. rewrite !Z.leb_le. lia. }
  assert (Hp : List.Forall valid (List.filter (fun i => negb (processed i)) all)).
  { apply List.Forall_forall. intros i Hi. apply List.filter_In in Hi as [Hi _].
    revert i Hi. now apply List.Forall_forall. }
  assert (Hd : List.Forall valid (List.filter (fun i => processed i) all)).
  { apply List.Forall_forall. intros i Hi. apply List.filter_In in Hi as [Hi _].
    revert i Hi. now apply List.Forall_forall. }
  eexists _, _. split; [reflexivity |].
  split; [| split; [| split; [| split; [| split; [| split]]]]].
  - rewrite !sort_Permutation. clear. induction all as [| i l IH]; [reflexivity |].
    cbn [List.filter]. destruct (processed i); cbn [negb].
    + rewrite <- Permutation_middle. now constructor.
    + cbn [app]. now constructor.
  - apply sort_Permutation.
  - apply List.Forall_forall. intros i Hi.
    apply (Permutation_in _ (sort_Permutation _ _)) in Hi.
    now apply List.filter_In in Hi as [_ Hi].
  - apply (sort_sorted _ notBeforeTime valid byNotBefore_key). exact Hp.
  - apply (StronglySorted_impl (fun a b => (- notBeforeTime a <= - notBeforeTime b)%Z));
      [intros a b; lia |].
    apply (sort_sorted _ (fun i => (- notBeforeTime i)%Z) valid Hdesc). exact Hd.
  - intros t. apply (sort_stable _ notBeforeTime valid byNotBefore_key). exact Hp.
  - intros t. unfold dueAt.
    rewrite (List.filter_ext _ (fun i => (- notBeforeTime i =? - t)%Z))
      by (intros i; apply Bool.eq_iff_eq_true; rewrite !Z.eqb_eq; lia).
    rewrite (sort_stable _ (fun i => (- notBeforeTime i)%Z) valid Hdesc) by exact Hd.
    apply List.filter_ext. intros i. apply Bool.eq_iff_eq_true.
    rewrite !Z.eqb_eq. lia.
Qed.

Lemma getChildren_order_witness :
  let state := <[STORAGE_KEY := [itemAt "c" 300 false; itemAt "x" 100 true;
                                 itemAt "a" 100 false; itemAt "y" 200 true;
                                 itemAt "b" 100 false]]> ∅ in
  QueueViewProvider.getChildren state
  = [itemAt "a" 100 false; itemAt "b" 100 false; itemAt "c" 300 false;
     itemAt "y" 200 true; itemAt "x" 100 true] /\
  Permutation (QueueViewProvider.getChildren state) (QueueStore.getAll state).
Proof.
  cbv zeta. split; [reflexivity |].
  destruct (getChildren_order
              (<[STORAGE_KEY := [itemAt "c" 300 false; itemAt "x" 100 true;
                                 itemAt "a" 100 false; itemAt "y" 200 true;
                                 itemAt "b" 100 false]]> ∅))
    as (pending & delivered & _ & Hperm & _).
  - repeat constructor; discriminate.
  - exact Hperm.
Defined.

(* ================================================================== *)
(** * Properties of the formats *)

Lemma DayWithinYear_range (t : Z) :
  (0 <= DayWithinYear t < (if isLeapYear (YearFromTime t) then 366 else 365))%Z.
Proof.
  unfold DayWithinYear, YearFromTime.
  pose proof (YearFromDay_bounds (Day t)) as [Hlo Hhi].
  rewrite DayFromYear_next in Hhi. lia.
Qed.

Lemma DateFromTime_range (t : Z) : (1 <= DateFromTime t <= 31)%Z.
Proof.
  pose proof (DayWithinYear_range t) as Hd.
  unfold DateFromTime, MonthFromTime.
  destruct (isLeapYear (YearFromTime t));
    repeat match goal with
           | |- context [if ?b then _ else _] => destruct b eqn:?
           end;
    cbn [monthStart] in *; rewrite ?Z.ltb_lt, ?Z.ltb_ge in *; lia.
Qed.

Lemma below_by_cases (P : Z -> bool) (lo n : Z) :
  (0 <= lo)%Z ->
  List.forallb (fun k => P (Z.of_nat k)) (List.seq (Z.to_nat lo) (Z.to_nat n)) = true ->
  forall z, (lo <= z < lo + n)%Z -> P z = true.
Proof.
  intros Hlo H z Hz. rewrite List.forallb_forall in H.
  rewrite <- (Z2Nat.id z) by lia. apply H. apply List.in_seq. lia.
Qed.

Lemma pad2_width (n : Z) :
  (0 <= n <= 99)%Z -> String.length (pad2 (Some n)) = 2%nat.
Proof.
  intros Hn. apply Nat.eqb_eq.
  apply (below_by_cases (fun z => String.length (pad2 (Some z)) =? 2)%nat 0 100);
    [lia | vm_compute; reflexivity | lia].
Qed.

Lemma year_width (y : Z) :
  (1000 <= y <= 9999)%Z -> String.length (Number_toString (Some y)) = 4%nat.
Proof.
  intros Hy. apply Nat.eqb_eq.
  apply (below_by_cases (fun z => String.length (Number_toString (Some z)) =? 4)%nat
                        1000 9000);
    [lia | vm_compute; reflexivity | lia].
Qed.

(** X28. For a valid date in a year of four digits, the three formats show
    the same five fields at fixed widths: the year in four characters; the
    month, the day of the month, the hour and the minute in two each, with a
    leading zero where needed.  So a file timestamp has 13 characters, a
    display time 16 and a date parameter 10. *)
Theorem formats_have_fixed_width (clk : Clock) (t : Z) :
  (1000 <= YearFromTime (LocalTime clk t) <= 9999)%Z ->
  exists year month day hour minute : string,
    String.length year = 4%nat /\ String.length month = 2%nat /\
    String.length day = 2%nat /\ String.length hour = 2%nat /\
    String.length minute = 2%nat /\
    formatTimestamp clk (TimeValue t)
    = year ++ month ++ day ++ "_" ++ hour ++ minute /\
    formatDisplayTime clk (TimeValue t)
    = year ++ "-" ++ month ++ "-" ++ day ++ " " ++ hour ++ ":" ++ minute /\
    formatDateParam clk (TimeValue t) = year ++ "-" ++ month ++ "-" ++ day /\
    String.length (formatTimestamp clk (TimeValue t)) = 13%nat /\
    String.length (formatDisplayTime clk (TimeValue t)) = 16%nat /\
    String.length (formatDateParam clk (TimeValue t)) = 10%nat.
Proof.
  intros Hyear.
  pose proof (MonthFromTime_range (LocalTime clk t)) as Hmonth.
  pose proof (DateFromTime_range (LocalTime clk t)) as Hdate.
  destruct (Day_TimeWithinDay (LocalTime clk t)) as [_ Hwithin].
  assert (Hy : String.length (Number_toString (getFullYear clk (TimeValue t))) = 4%nat)
    by (apply year_width; exact Hyear).
  assert (Hmo : String.length (pad2 (option_map (Z.add 1) (getMonth clk (TimeValue t))))
                = 2%nat) by (apply pad2_width; lia).
  assert (Hd : String.length (pad2 (getDate clk (TimeValue t))) = 2%nat)
    by (apply pad2_width; lia).
  assert (Hh : String.length (pad2 (getHours clk (TimeValue t))) = 2%nat).
  { apply pad2_width. unfold msPerDay, msPerHour in *.
    Z.to_euclidean_division_equations; lia. }
  assert (Hmi : String.length (pad2 (getMinutes clk (TimeValue t))) = 2%nat).
  { apply pad2_width. Z.to_euclidean_division_equations; lia. }
  exists (Number_toString (getFullYear clk (TimeValue t))),
         (pad2 (option_map (Z.add 1) (getMonth clk (TimeValue t)))),
         (pad2 (getDate clk (TimeValue t))),
         (pad2 (getHours clk (TimeValue t))),
         (pad2 (getMinutes clk (TimeValue t))).
  unfold formatTimestamp, formatDisplayTime, formatDateParam.
  repeat (split; [first [assumption | reflexivity] |]).
  rewrite !string_length_append, Hy, Hmo, Hd, Hh, Hmi. repeat split.
Qed.

Lemma formats_have_fixed_width_witness :
  String.length (formatTimestamp noon (TimeValue 1709600700000)) = 13%nat /\
  String.length (formatDisplayTime noon (TimeValue 1709600700000)) = 16%nat /\
  formatTimestamp noon (TimeValue 1709600700000) = "20240305_0305" /\
  formatDisplayTime noon (TimeValue 1709600700000) = "2024-03-05 03:05".
Proof.
  destruct (formats_have_fixed_width noon 1709600700000)
    as (year & month & day & hour & minute & _ & _ & _ & _ & _ & _ & _ & _
        & Hstamp & Hdisplay & _);
    [vm_compute; split; discriminate |].
  split; [exact Hstamp | split; [exact Hdisplay | split; reflexivity]].
Defined.
